(** * Media upload microservice

    A shallow embedding of the upload pipeline of the media upload
    microservice: the upload orchestrator ([UploadService]), the derivative
    generator ([ImageProcessingService]), the validator
    ([ValidationService]), the metadata store ([DatabaseService]), the
    storage backend ([StorageProviderService]) with its three providers, the
    file and folder routes and the error middleware.

    Asynchronous functions that are only ever awaited one after another are
    state-and-exception computations over a [World] (metadata tables, backend
    objects, temporary directories, log, trace of external operations).
    [UploadService.deleteFile], which the bulk route starts several times
    before any of them settles, is a tree of awaited steps that a scheduler
    interleaves.

    External libraries (sharp, Prisma, the storage SDKs, the file system,
    uuid, mime-types, path) are not part of the repository: their results
    are parameters of the development, collected in type classes. *)

From stdpp Require Import gmap strings list fin_maps pretty.
From Stdlib Require Import NArith Ascii String.

Open Scope string_scope.
Open Scope N_scope.

(** ** JavaScript strings and truthiness *)

Module Js.

(** [s.startsWith(p)] *)
Definition startsWith (s p : string) : bool := String.prefix p s.

(** [s.includes(p)] *)
Fixpoint includes (s p : string) : bool :=
  String.prefix p s ||
  match s with
  | EmptyString => false
  | String _ s' => includes s' p
  end.

(** [l.includes(x)] on an array of strings *)
Definition array_includes (l : list string) (x : string) : bool :=
  existsb (String.eqb x) l.

(** [s.replace('.', '')]: a string pattern replaces the first match only *)
Fixpoint replace_dot (s : string) : string :=
  match s with
  | EmptyString => EmptyString
  | String c s' => if Ascii.eqb c "." then s' else String c (replace_dot s')
  end.

(** [s.replace(/-/g, '')] *)
Fixpoint remove_dashes (s : string) : string :=
  match s with
  | EmptyString => EmptyString
  | String c s' =>
      if Ascii.eqb c "-" then remove_dashes s' else String c (remove_dashes s')
  end.

Definition lower (c : ascii) : ascii :=
  let n := N_of_ascii c in
  if (65 <=? n) && (n <=? 90) then ascii_of_N (n + 32) else c.

(** [s.toLowerCase()] on the ASCII range *)
Fixpoint toLowerCase (s : string) : string :=
  match s with
  | EmptyString => EmptyString
  | String c s' => String (lower c) (toLowerCase s')
  end.

(** [s.split('.').pop()]: what follows the last dot, the whole string when
    there is none *)
Fixpoint split_pop (s : string) : string :=
  match s with
  | EmptyString => EmptyString
  | String c s' =>
      if includes s' "." then split_pop s'
      else if Ascii.eqb c "." then s' else s
  end.

(** [a || b] on optional strings: the empty string is falsy *)
Definition or_str (a b : option string) : option string :=
  match a with
  | Some (String _ _) => a
  | _ => b
  end.

(** [!s] on an optional string *)
Definition falsy_str (a : option string) : bool :=
  match a with
  | Some (String _ _) => false
  | _ => true
  end.

(** truthiness of an optional number: [undefined] and [0] are falsy *)
Definition truthy_num (a : option N) : bool :=
  match a with
  | Some n => negb (n =? 0)
  | None => false
  end.

(** [a || d] with a number default *)
Definition or_num (a : option N) (d : N) : N :=
  match a with
  | Some n => if n =? 0 then d else n
  | None => d
  end.

(** [a ?? d] *)
Definition nullish {A} (a : option A) (d : A) : A :=
  match a with
  | Some x => x
  | None => d
  end.

(** template interpolation of a number *)
Definition num (n : N) : string := pretty n.

(** [s.split(sep)] for a one-character separator *)
Fixpoint split (sep : ascii) (s : string) : list string :=
  match s with
  | EmptyString => [EmptyString]
  | String c s' =>
      if Ascii.eqb c sep then EmptyString :: split sep s'
      else match split sep s' with
           | h :: t => String c h :: t
           | [] => [String c EmptyString]
           end
  end.

(** Strings are held as their UTF-8 bytes.  [s.length] counts UTF-16 code
    units: one for a character of the basic plane, two for a character
    above it; the continuation bytes of a character count for nothing. *)
Definition units (c : ascii) : nat :=
  let n := N_of_ascii c in
  if n <? 128 then 1%nat
  else if n <? 192 then 0%nat
  else if n <? 240 then 1%nat
  else 2%nat.

Fixpoint length (s : string) : nat :=
  match s with
  | EmptyString => 0%nat
  | String c s' => (units c + length s')%nat
  end.

(** [s.replace(/^\//, '')]: one leading slash is removed *)
Definition strip_leading_slash (s : string) : string :=
  match s with
  | String c s' => if Ascii.eqb c "/" then s' else s
  | EmptyString => EmptyString
  end.

End Js.

(** ** Errors and results

    Every error the services raise is [new Error(message)]; errors of the
    external libraries are carried the same way. *)

Record JsError := Error { message : string }.

Inductive Result (A : Type) : Type :=
| Ok (a : A)
| Throw (e : JsError).
Arguments Ok {A} a.
Arguments Throw {A} e.

(** ** Data model ([types/index.ts]) *)

(** An entry of [formats] as [processImage] builds it. *)
Record FormatDescriptor := {
  fd_name : string;
  fd_hash : string;
  fd_ext : string;
  fd_mime : string;
  fd_width : option N;
  fd_height : option N;
  fd_size : N
}.

(** [UploadableFile]; the timestamps, which no operation below reads, are
    left out. *)
Record UploadableFile := {
  id : option string;
  name : string;
  alternativeText : option string;
  caption : option string;
  folder : option string;
  folderPath : option string;
  hash : string;
  ext : string;
  mime : string;
  size : N;
  url : option string;
  previewUrl : option string;
  provider : string;
  provider_metadata : option string;
  tmpWorkingDirectory : option string;
  filepath : option string;
  width : option N;
  height : option N;
  formats : option (gmap string FormatDescriptor)
}.

Record FileInfo := {
  fi_name : option string;
  fi_alternativeText : option string;
  fi_caption : option string;
  fi_folder : option string
}.

Record ProcessingOptions := {
  quality : option N;
  progressive : option bool;
  responsive : option bool;
  breakpoints : option (list N)
}.

Record ValidationOptions := {
  maxFileSize : option N;
  allowedTypes : option (list string);
  allowedExtensions : option (list string);
  maxWidth : option N;
  maxHeight : option N
}.

Record FileFolder := {
  folder_id : string;
  folder_name : string;
  folder_path : string;
  folder_parent : option string
}.

(** [Express.Multer.File], the fields the services read *)
Record MulterFile := {
  originalname : string;
  mimetype : string;
  multer_size : N;
  multer_path : string
}.

Record UploadOptions := {
  uo_folder : option string;
  processingOptions : option ProcessingOptions;
  validationOptions : option ValidationOptions
}.

(** A JavaScript number as [parseInt] yields it: a double that holds an
    integer, an infinity, or [NaN].  The sign of zero, which nothing below
    can tell apart, is not kept. *)
Inductive JsNumber :=
| NaN
| Num (z : Z)
| Infinity (negative : bool).

(** Arithmetic on these numbers, as IEEE 754 binary64 does it: the exact
    result, rounded to the nearest double, ties to the even significand. *)
Module Number.

(** The integer nearest to [z] that 53 significant bits can hold. *)
Definition nearest_double (z : Z) : Z :=
  let e := Z.max 0 (Z.log2 (Z.abs z) - 52) in
  let q := (2 ^ e)%Z in
  let m := (z / q)%Z in
  let r := (z mod q)%Z in
  if (2 * r <? q)%Z then (m * q)%Z
  else if (q <? 2 * r)%Z then ((m + 1) * q)%Z
  else if Z.even m then (m * q)%Z else ((m + 1) * q)%Z.

(** The number an exact integer result becomes; what rounds to 2^1024 or
    beyond is an infinity. *)
Definition of_integer (z : Z) : JsNumber :=
  let r := nearest_double z in
  if (2 ^ 1024 <=? Z.abs r)%Z then Infinity (r <? 0)%Z else Num r.

(** [a - b] *)
Definition sub (a b : JsNumber) : JsNumber :=
  match a, b with
  | NaN, _ | _, NaN => NaN
  | Infinity s, Infinity t => if Bool.eqb s t then NaN else Infinity s
  | Infinity s, Num _ => Infinity s
  | Num _, Infinity t => Infinity (negb t)
  | Num x, Num y => of_integer (x - y)
  end.

(** [a * b] *)
Definition mul (a b : JsNumber) : JsNumber :=
  match a, b with
  | NaN, _ | _, NaN => NaN
  | Infinity s, Infinity t => Infinity (xorb s t)
  | Infinity s, Num y => if (y =? 0)%Z then NaN else Infinity (xorb s (y <? 0)%Z)
  | Num x, Infinity t => if (x =? 0)%Z then NaN else Infinity (xorb (x <? 0)%Z t)
  | Num x, Num y => of_integer (x * y)
  end.

(** [a < b] *)
Definition lt (a b : JsNumber) : bool :=
  match a, b with
  | NaN, _ | _, NaN => false
  | Infinity s, Infinity t => s && negb t
  | Infinity s, Num _ => s
  | Num _, Infinity t => negb t
  | Num x, Num y => (x <? y)%Z
  end.

Definition isNaN (a : JsNumber) : bool :=
  match a with
  | NaN => true
  | _ => false
  end.

(** truthiness: [NaN] and zero are falsy *)
Definition truthy (a : JsNumber) : bool :=
  match a with
  | NaN => false
  | Num z => negb (z =? 0)%Z
  | Infinity _ => true
  end.

End Number.

(** The filters [buildWhereClause] reads, strings and numbers as the listing
    route receives them. *)
Record Filters := {
  f_name : option string;
  f_mime : option string;
  f_folder : option string;
  f_provider : option string;
  f_minSize : option N;
  f_maxSize : option N
}.

Record PaginationOptions := {
  pg_page : option JsNumber;
  pg_limit : option JsNumber;
  pg_sort : option string;
  pg_filters : option Filters
}.

(** The [where] object [buildWhereClause] builds: containment tests on
    [name] (case-insensitive) and [mime], equality on [folder] and
    [provider], bounds on [size]. *)
Record WhereClause := {
  wh_name_contains : option string;
  wh_mime_contains : option string;
  wh_folder : option string;
  wh_provider : option string;
  wh_size_gte : option N;
  wh_size_lte : option N
}.

(** What [getFiles] hands to [prisma.file.findMany]; [fm_orderBy] is the
    one field and direction of the [orderBy] object. *)
Record FindManyArgs := {
  fm_where : WhereClause;
  fm_orderBy : string * string;
  fm_skip : JsNumber;
  fm_take : JsNumber
}.

(** ** The world the services act on *)

Inductive LogLevel := LvlInfo | LvlWarn | LvlError.

Record LogEntry := {
  log_level : LogLevel;
  log_service : string;
  log_message : string
}.

(** Calls that leave the process. *)
Inductive IoOp :=
| FileCreate (data : UploadableFile)
| FileFindUnique (file_id : string)
| FileDelete (file_id : string)
| FileCount (in_folder : string)
| FolderCreate (new_name new_path : string) (new_parent : option string)
| FolderFindUnique (fid : string)
| FolderCount (with_parent : string)
| FolderDelete (fid : string)
| ProviderUpload (file : UploadableFile)
| ProviderDelete (file : UploadableFile)
| Mkdtemp (prefix : string)
| FsRemove (path : string).

Record World := {
  db_files : gmap string UploadableFile;
  db_folders : gmap string FileFolder;
  objects : gset string;
  tmpdirs : gset string;
  logs : list LogEntry;
  trace : list IoOp;
  entropy : nat
}.

Definition set_db_files (f : gmap string UploadableFile → gmap string UploadableFile)
    (w : World) : World :=
  {| db_files := f (db_files w); db_folders := db_folders w; objects := objects w;
     tmpdirs := tmpdirs w; logs := logs w; trace := trace w; entropy := entropy w |}.

Definition set_db_folders (f : gmap string FileFolder → gmap string FileFolder)
    (w : World) : World :=
  {| db_files := db_files w; db_folders := f (db_folders w); objects := objects w;
     tmpdirs := tmpdirs w; logs := logs w; trace := trace w; entropy := entropy w |}.

Definition set_objects (f : gset string → gset string) (w : World) : World :=
  {| db_files := db_files w; db_folders := db_folders w; objects := f (objects w);
     tmpdirs := tmpdirs w; logs := logs w; trace := trace w; entropy := entropy w |}.

Definition set_tmpdirs (f : gset string → gset string) (w : World) : World :=
  {| db_files := db_files w; db_folders := db_folders w; objects := objects w;
     tmpdirs := f (tmpdirs w); logs := logs w; trace := trace w; entropy := entropy w |}.

Definition add_log (e : LogEntry) (w : World) : World :=
  {| db_files := db_files w; db_folders := db_folders w; objects := objects w;
     tmpdirs := tmpdirs w; logs := logs w ++ [e]; trace := trace w; entropy := entropy w |}.

Definition record_op (op : IoOp) (w : World) : World :=
  {| db_files := db_files w; db_folders := db_folders w; objects := objects w;
     tmpdirs := tmpdirs w; logs := logs w; trace := trace w ++ [op]; entropy := entropy w |}.

Definition draw (w : World) : World :=
  {| db_files := db_files w; db_folders := db_folders w; objects := objects w;
     tmpdirs := tmpdirs w; logs := logs w; trace := trace w; entropy := S (entropy w) |}.

(** ** Sequential asynchronous code: state and exceptions *)

Definition M (A : Type) : Type := World → Result A * World.

Definition ret {A} (a : A) : M A := λ w, (Ok a, w).

Definition throw {A} (e : JsError) : M A := λ w, (Throw e, w).

Definition bind {A B} (m : M A) (k : A → M B) : M B :=
  λ w, match m w with
       | (Ok a, w') => k a w'
       | (Throw e, w') => (Throw e, w')
       end.

(** [try { m } catch (error) { h error }] *)
Definition try_catch {A} (m : M A) (h : JsError → M A) : M A :=
  λ w, match m w with
       | (Ok a, w') => (Ok a, w')
       | (Throw e, w') => h e w'
       end.

(** [try { m } finally { fin }]: the finalizer runs on both exits; when it
    throws, its error replaces the outcome of [m]. *)
Definition try_finally {A} (m : M A) (fin : M unit) : M A :=
  λ w, match m w with
       | (r, w') =>
           match fin w' with
           | (Ok _, w'') => (r, w'')
           | (Throw e, w'') => (Throw e, w'')
           end
       end.

Definition get_world : M World := λ w, (Ok w, w).

Definition modify (f : World → World) : M unit := λ w, (Ok tt, f w).

Declare Scope m_scope.
Delimit Scope m_scope with M.
Notation "x <- m ;; k" := (bind m (λ x, k))
  (at level 100, m at next level, right associativity) : m_scope.
Notation "m ;; k" := (bind m (λ _, k))
  (at level 100, right associativity) : m_scope.
Open Scope m_scope.

(** [new Logger(service)].level(message): appends to the log; the metadata
    object passed along is not kept. *)
Definition log (lvl : LogLevel) (service msg : string) : M unit :=
  modify (add_log {| log_level := lvl; log_service := service; log_message := msg |}).

(** ** External collaborators *)

(** [CONFIG], read from the process environment at start-up. *)
Class Config := {
  MAX_FILE_SIZE : N;
  ALLOWED_TYPES : list string;
  STORAGE_PROVIDER : string;
  IMAGE_QUALITY : N;
  IMAGE_PROGRESSIVE : bool;
  GENERATE_THUMBNAILS : bool;
  RESPONSIVE_BREAKPOINTS : list N
}.

(** Node's [os], [path] and [fs], [mime-types], [uuid] and
    [String.prototype.normalize].  [uuidv4_at n] and [mkdtemp_suffix n] are
    the values the [n]-th random draw of the process yields; [fs_bytes p] is
    the content of the file at [p]. *)
Class NodeLib := {
  os_tmpdir : string;
  path_extname : string → string;
  path_basename : string → string → string;
  mime_extension : string → option string;
  normalize : string → string;
  uuidv4_at : nat → string;
  mkdtemp_suffix : nat → string;
  fs_bytes : string → list Byte.byte
}.

(** sharp.  A pipeline is what was chained on [sharp(filepath)] before
    [toBuffer]: at most one [resize] and at most one output encoder.  The
    file multer wrote is not touched while its request is served, so what
    sharp answers is a function of the path and the pipeline. *)
Record Metadata := {
  md_width : option N;
  md_height : option N
}.

Record ResizeOptions := {
  rs_width : option N;
  rs_height : option N;
  rs_fit : string;
  rs_withoutEnlargement : bool
}.

Inductive Encoder :=
| EncJpeg (q : N) (prog : bool)
| EncPng (q : N) (prog : bool)
| EncWebp (q : N)
| EncTiff (q : N)
| EncAvif (q : N).

(** The format an encoder writes. *)
Definition encoder_format (e : Encoder) : string :=
  match e with
  | EncJpeg _ _ => "jpeg"
  | EncPng _ _ => "png"
  | EncWebp _ => "webp"
  | EncTiff _ => "tiff"
  | EncAvif _ => "avif"
  end.

Record Pipeline := {
  pl_resize : option ResizeOptions;
  pl_encoder : option Encoder
}.

Record OutputInfo := {
  info_format : string;
  info_width : N;
  info_height : N;
  info_size : N
}.

Record SharpOutput := {
  buffer : list Byte.byte;
  info : OutputInfo
}.

Class Sharp := {
  sharp_metadata : string → Result Metadata;
  sharp_toBuffer : string → Pipeline → Result SharpOutput
}.

(** Which external calls fail, and with what error.  The oracle sees the
    world the call is made in, trace included, so the same call may succeed
    once and fail later. *)
Class Faults := {
  fault : World → IoOp → option JsError
}.

(** The [StorageProvider] interface of [types/index.ts], reduced to what
    the three implementations differ in: their name, the address they store
    a file under, the [url] and [provider_metadata] a successful upload
    writes on the entity, and what they log.  The S3 and Cloudinary
    providers log a failed upload before they rethrow it; the local one has
    no handler there. *)
Class StorageProvider := {
  provider_name : string;
  provider_service : string;
  object_key : UploadableFile → string;
  uploaded_url : UploadableFile → string;
  uploaded_metadata : UploadableFile → string;
  uploaded_message : string;
  upload_failed_message : option string;
  deleted_message : string;
  delete_failed_message : string
}.

(** An external call: recorded in the trace, and failing when the oracle
    says so. *)
Definition attempt `{Faults} (op : IoOp) : M unit :=
  λ w, match fault w op with
       | Some e => (Throw e, record_op op w)
       | None => (Ok tt, record_op op w)
       end.

(** ** Prisma client

    The two tables behind [prisma.file] and [prisma.folder].  [create] stores
    the row under a non-empty id no row of the table has; [delete] of a
    missing row is an error, as in Prisma. *)

Module Prisma.
Section with_faults.
Context `{Faults}.

Definition with_id (i : string) (f : UploadableFile) : UploadableFile :=
  {| id := Some i; name := name f; alternativeText := alternativeText f;
     caption := caption f; folder := folder f; folderPath := folderPath f;
     hash := hash f; ext := ext f; mime := mime f; size := size f;
     url := url f; previewUrl := previewUrl f; provider := provider f;
     provider_metadata := provider_metadata f;
     tmpWorkingDirectory := tmpWorkingDirectory f; filepath := filepath f;
     width := width f; height := height f; formats := formats f |}.

Definition not_found : JsError :=
  Error "Record to delete does not exist.".

Definition file_create (data : UploadableFile) : M UploadableFile :=
  attempt (FileCreate data) ;;
  w <- get_world ;;
  let i : string := fresh ({[EmptyString]} ∪ dom (db_files w)) in
  let row := with_id i data in
  modify (set_db_files (insert i row)) ;;
  ret row.

Definition file_findUnique (i : string) : M (option UploadableFile) :=
  attempt (FileFindUnique i) ;;
  w <- get_world ;;
  ret (db_files w !! i).

Definition file_delete (i : string) : M unit :=
  attempt (FileDelete i) ;;
  w <- get_world ;;
  match db_files w !! i with
  | None => throw not_found
  | Some _ => modify (set_db_files (delete i))
  end.

(** [prisma.file.count({ where: { folder } })] *)
Definition file_count (fid : string) : M nat :=
  attempt (FileCount fid) ;;
  w <- get_world ;;
  ret (base.size (filter (λ kv, folder kv.2 = Some fid) (db_files w))).

Definition folder_create (nm pth : string) (parent : option string) : M FileFolder :=
  attempt (FolderCreate nm pth parent) ;;
  w <- get_world ;;
  let i : string := fresh ({[EmptyString]} ∪ dom (db_folders w)) in
  let row := {| folder_id := i; folder_name := nm; folder_path := pth;
                folder_parent := parent |} in
  modify (set_db_folders (insert i row)) ;;
  ret row.

Definition folder_findUnique (i : string) : M (option FileFolder) :=
  attempt (FolderFindUnique i) ;;
  w <- get_world ;;
  ret (db_folders w !! i).

(** [prisma.folder.count({ where: { parent } })] *)
Definition folder_count (fid : string) : M nat :=
  attempt (FolderCount fid) ;;
  w <- get_world ;;
  ret (base.size (filter (λ kv, folder_parent kv.2 = Some fid) (db_folders w))).

Definition folder_delete (i : string) : M unit :=
  attempt (FolderDelete i) ;;
  w <- get_world ;;
  match db_folders w !! i with
  | None => throw not_found
  | Some _ => modify (set_db_folders (delete i))
  end.

End with_faults.
End Prisma.

(** ** [services/database.ts] *)

Module DatabaseService.
Section with_faults.
Context `{Faults}.

Definition service : string := "DatabaseService".

(** The row [saveFile] hands to [prisma.file.create]: the listed fields
    only, so [id], [tmpWorkingDirectory] and [filepath] are not stored.
    [formats] and [provider_metadata] go through JSON and come back as
    they were. *)
Definition file_data (f : UploadableFile) : UploadableFile :=
  {| id := None; name := name f; alternativeText := alternativeText f;
     caption := caption f; folder := folder f; folderPath := folderPath f;
     hash := hash f; ext := ext f; mime := mime f; size := size f;
     url := url f; previewUrl := previewUrl f; provider := provider f;
     provider_metadata := provider_metadata f;
     tmpWorkingDirectory := None; filepath := None;
     width := width f; height := height f; formats := formats f |}.

Definition saveFile (f : UploadableFile) : M UploadableFile :=
  try_catch
    (Prisma.file_create (file_data f))
    (λ error,
      log LvlError service "Failed to save file to database" ;;
      throw error).

Definition getFile (i : string) : M (option UploadableFile) :=
  try_catch
    (Prisma.file_findUnique i)
    (λ error,
      log LvlError service "Failed to get file from database" ;;
      throw error).

Definition deleteFile (i : string) : M bool :=
  try_catch
    (Prisma.file_delete i ;; ret true)
    (λ error,
      log LvlError service "Failed to delete file from database" ;;
      throw error).

(** [folder.parent || undefined] *)
Definition folder_view (row : FileFolder) : FileFolder :=
  {| folder_id := folder_id row; folder_name := folder_name row;
     folder_path := folder_path row;
     folder_parent := Js.or_str (folder_parent row) None |}.

Definition getFolder (i : string) : M (option FileFolder) :=
  try_catch
    (row <- Prisma.folder_findUnique i ;;
     ret (folder_view <$> row))
    (λ error,
      log LvlError service "Failed to get folder from database" ;;
      throw error).

Definition createFolder (nm : string) (parent : option string) : M FileFolder :=
  try_catch
    (parentFolder <- (if Js.falsy_str parent then ret None
                      else getFolder (default EmptyString parent)) ;;
     let pth := match parentFolder with
                | Some p => folder_path p ++ "/" ++ nm
                | None => "/" ++ nm
                end in
     row <- Prisma.folder_create nm pth parent ;;
     ret (folder_view row))
    (λ error,
      log LvlError service "Failed to create folder in database" ;;
      throw error).

Definition deleteFolder (i : string) : M bool :=
  try_catch
    (filesCount <- Prisma.file_count i ;;
     if (0 <? filesCount)%nat
     then throw (Error "Cannot delete folder that contains files")
     else
       subFoldersCount <- Prisma.folder_count i ;;
       if (0 <? subFoldersCount)%nat
       then throw (Error "Cannot delete folder that contains subfolders")
       else
         Prisma.folder_delete i ;;
         ret true)
    (λ error,
      log LvlError service "Failed to delete folder from database" ;;
      throw error).

(** [v ? v : undefined] on a filter string *)
Definition truthy_filter (a : option string) : option string := Js.or_str a None.

(** the same on a filter number *)
Definition truthy_bound (a : option N) : option N :=
  if Js.truthy_num a then a else None.

Definition buildWhereClause (filters : option Filters) : WhereClause :=
  match filters with
  | None =>
      {| wh_name_contains := None; wh_mime_contains := None; wh_folder := None;
         wh_provider := None; wh_size_gte := None; wh_size_lte := None |}
  | Some filters =>
      {| wh_name_contains := truthy_filter (f_name filters);
         wh_mime_contains := truthy_filter (f_mime filters);
         wh_folder := truthy_filter (f_folder filters);
         wh_provider := truthy_filter (f_provider filters);
         wh_size_gte := truthy_bound (f_minSize filters);
         wh_size_lte := truthy_bound (f_maxSize filters) |}
  end.

Definition validFields : list string := ["name"; "size"; "createdAt"; "updatedAt"; "mime"].
Definition validDirections : list string := ["asc"; "desc"].

Definition buildOrderByClause (sort : option string) : string * string :=
  if Js.falsy_str sort then ("createdAt", "desc")
  else
    let parts := Js.split ":" (default EmptyString sort) in
    match parts !! 0%nat, parts !! 1%nat with
    | Some field, Some direction =>
        if negb (Js.array_includes validFields field)
           || negb (Js.array_includes validDirections direction)
        then ("createdAt", "desc")
        else (field, direction)
    | _, _ => ("createdAt", "desc")
    end.

(** [a || d] on an optional number *)
Definition or_number (a : option JsNumber) (d : JsNumber) : JsNumber :=
  match a with
  | Some n => if Number.truthy n then n else d
  | None => d
  end.

(** The first half of [getFiles]: the page, the limit and the query they
    give. *)
Definition getFiles_page (options : PaginationOptions) : JsNumber :=
  or_number (pg_page options) (Num 1).

Definition getFiles_limit (options : PaginationOptions) : JsNumber :=
  or_number (pg_limit options) (Num 20).

Definition getFiles_args (options : PaginationOptions) : FindManyArgs :=
  let page := getFiles_page options in
  let limit := getFiles_limit options in
  {| fm_where := buildWhereClause (pg_filters options);
     fm_orderBy := buildOrderByClause (pg_sort options);
     fm_skip := Number.mul (Number.sub page (Num 1)) limit;
     fm_take := limit |}.

End with_faults.
End DatabaseService.

(** Lifting the result of a library call that touches no state. *)
Definition of_result {A} (r : Result A) : M A := λ w, (r, w).

(** ** The storage backend ([StorageProviderService] and its provider) *)

Module StorageProviderService.
Section with_provider.
Context `{Faults} `{StorageProvider}.

Definition with_upload (f : UploadableFile) : UploadableFile :=
  {| id := id f; name := name f; alternativeText := alternativeText f;
     caption := caption f; folder := folder f; folderPath := folderPath f;
     hash := hash f; ext := ext f; mime := mime f; size := size f;
     url := Some (uploaded_url f); previewUrl := previewUrl f;
     provider := provider f;
     provider_metadata := Some (uploaded_metadata f);
     tmpWorkingDirectory := tmpWorkingDirectory f; filepath := filepath f;
     width := width f; height := height f; formats := formats f |}.

(** [provider.upload(file)].  The entity is mutated in place in the
    source; here the updated entity is returned and the caller goes on
    with it. *)
Definition upload (f : UploadableFile) : M UploadableFile :=
  if Js.falsy_str (filepath f)
  then throw (Error "File path is required for upload")
  else
    try_catch
      (attempt (ProviderUpload f))
      (λ error,
        match upload_failed_message with
        | Some msg => log LvlError provider_service msg
        | None => ret tt
        end ;;
        throw error) ;;
    modify (set_objects (union {[object_key f]})) ;;
    log LvlInfo provider_service uploaded_message ;;
    ret (with_upload f).

(** [provider.delete(file)] *)
Definition delete (f : UploadableFile) : M unit :=
  try_catch
    (attempt (ProviderDelete f) ;;
     modify (set_objects (λ s, s ∖ {[object_key f]})) ;;
     log LvlInfo provider_service deleted_message)
    (λ error,
      log LvlError provider_service delete_failed_message ;;
      throw error).

End with_provider.
End StorageProviderService.

(** ** The validator ([ValidationService]) *)

Module ValidationService.
Section with_env.
Context `{Config} `{Sharp}.

Definition service : string := "ValidationService".

Definition no_options : ValidationOptions :=
  {| maxFileSize := None; allowedTypes := None; allowedExtensions := None;
     maxWidth := None; maxHeight := None |}.

Definition validateImage (file : MulterFile) (maxW maxH : option N) : M unit :=
  if negb (Js.truthy_num maxW) && negb (Js.truthy_num maxH) then ret tt
  else
    try_catch
      (metadata <- of_result (sharp_metadata (multer_path file)) ;;
       (if Js.truthy_num maxW && Js.truthy_num (md_width metadata)
           && (default 0 maxW <? default 0 (md_width metadata))
        then throw (Error ("Image width " ++ Js.num (default 0 (md_width metadata))
                           ++ " exceeds maximum allowed width "
                           ++ Js.num (default 0 maxW)))
        else ret tt) ;;
       (if Js.truthy_num maxH && Js.truthy_num (md_height metadata)
           && (default 0 maxH <? default 0 (md_height metadata))
        then throw (Error ("Image height " ++ Js.num (default 0 (md_height metadata))
                           ++ " exceeds maximum allowed height "
                           ++ Js.num (default 0 maxH)))
        else ret tt))
      (λ error,
        if Js.includes (message error) "exceeds maximum" then throw error
        else log LvlWarn service "Failed to validate image dimensions").

Definition validateFile (file : MulterFile) (options : option ValidationOptions)
    : M unit :=
  let options := default no_options options in
  let maxFileSize := default MAX_FILE_SIZE (maxFileSize options) in
  let allowedTypes := default ALLOWED_TYPES (allowedTypes options) in
  (if maxFileSize <? multer_size file
   then throw (Error ("File size " ++ Js.num (multer_size file)
                      ++ " exceeds maximum allowed size " ++ Js.num maxFileSize))
   else ret tt) ;;
  (if negb (Js.array_includes allowedTypes (mimetype file))
   then throw (Error ("File type " ++ mimetype file ++ " is not allowed"))
   else ret tt) ;;
  match allowedExtensions options with
  | Some exts =>
      let fileExtension := Js.toLowerCase (Js.split_pop (originalname file)) in
      if String.eqb fileExtension EmptyString
         || negb (Js.array_includes exts fileExtension)
      then throw (Error ("File extension " ++ fileExtension ++ " is not allowed"))
      else ret tt
  | None => ret tt
  end ;;
  (if Js.startsWith (mimetype file) "image/"
   then validateImage file (maxWidth options) (maxHeight options)
   else ret tt) ;;
  log LvlInfo service "File validation passed".

(** [validatePaginationOptions]; [sort], a string when present, passes its
    test. *)
Definition validatePaginationOptions (options : PaginationOptions) : M unit :=
  match pg_page options with
  | Some page =>
      if Number.isNaN page || Number.lt page (Num 1)
      then throw (Error "Page must be a positive number")
      else ret tt
  | None => ret tt
  end ;;
  match pg_limit options with
  | Some limit =>
      if Number.isNaN limit || Number.lt limit (Num 1) || Number.lt (Num 100) limit
      then throw (Error "Limit must be a number between 1 and 100")
      else ret tt
  | None => ret tt
  end.

(** The characters of [invalidChars] in [validateFolderName] *)
Definition invalid_char (c : ascii) : bool :=
  (N_of_ascii c <=? 31)
  || existsb (Ascii.eqb c)
       ["<"; ">"; ":"; ascii_of_N 34; "/"; ascii_of_N 92; "|"; "?"; "*"]%char.

Fixpoint has_invalid_char (s : string) : bool :=
  match s with
  | EmptyString => false
  | String c s' => invalid_char c || has_invalid_char s'
  end.

Definition reservedNames : list string :=
  ["con"; "prn"; "aux"; "nul"; "com1"; "com2"; "com3"; "com4"; "com5"; "com6";
   "com7"; "com8"; "com9"; "lpt1"; "lpt2"; "lpt3"; "lpt4"; "lpt5"; "lpt6";
   "lpt7"; "lpt8"; "lpt9"].

Definition validateFolderName (nm : string) : M unit :=
  if String.eqb nm EmptyString
  then throw (Error "Folder name is required and must be a string")
  else if (100 <? Js.length nm)%nat
  then throw (Error "Folder name cannot exceed 100 characters")
  else if has_invalid_char nm
  then throw (Error "Folder name contains invalid characters")
  else if Js.array_includes reservedNames (Js.toLowerCase nm)
  then throw (Error "Folder name cannot be a reserved system name")
  else ret tt.

End with_env.
End ValidationService.

(** ** The derivative generator ([ImageProcessingService]) *)

Record OptimizeOptions := {
  opt_quality : option N;
  opt_progressive : option bool;
  opt_format : option string
}.

Record ResizeRequest := {
  rq_width : option N;
  rq_height : option N;
  rq_fit : option string;
  rq_withoutEnlargement : option bool
}.

(** [Partial<UploadableFile>] as [processImage] returns it: only [formats]
    and [size] are ever set. *)
Record PartialFile := {
  p_formats : option (gmap string FormatDescriptor);
  p_size : option N
}.

(** [Object.assign(fileEntity, processedFile)] *)
Definition assign (f : UploadableFile) (p : PartialFile) : UploadableFile :=
  {| id := id f; name := name f; alternativeText := alternativeText f;
     caption := caption f; folder := folder f; folderPath := folderPath f;
     hash := hash f; ext := ext f; mime := mime f;
     size := default (size f) (p_size p);
     url := url f; previewUrl := previewUrl f; provider := provider f;
     provider_metadata := provider_metadata f;
     tmpWorkingDirectory := tmpWorkingDirectory f; filepath := filepath f;
     width := width f; height := height f;
     formats := match p_formats p with
                | Some m => Some m
                | None => formats f
                end |}.

Module ImageProcessingService.
Section with_env.
Context `{Config} `{Sharp}.

Definition service : string := "ImageProcessingService".

Definition FORMATS_TO_RESIZE : list string := ["jpeg"; "png"; "webp"; "tiff"; "gif"].
Definition FORMATS_TO_PROCESS : list string :=
  ["jpeg"; "png"; "webp"; "tiff"; "svg"; "gif"; "avif"].
Definition FORMATS_TO_OPTIMIZE : list string := ["jpeg"; "png"; "webp"; "tiff"; "avif"].

Definition isOptimizableFormat (format : string) : bool :=
  Js.array_includes FORMATS_TO_OPTIMIZE format.

Definition isResizableFormat (format : string) : bool :=
  Js.array_includes FORMATS_TO_RESIZE format.

(** [sharp(filepath)] with nothing chained on it *)
Definition bare : Pipeline := {| pl_resize := None; pl_encoder := None |}.

Definition getMetadata (file : UploadableFile) : M Metadata :=
  if Js.falsy_str (filepath file)
  then throw (Error "File path is required for metadata extraction")
  else
    try_catch
      (of_result (sharp_metadata (default EmptyString (filepath file))))
      (λ _,
        log LvlError service "Failed to extract metadata" ;;
        throw (Error "Failed to extract image metadata")).

(** The [switch] of [optimizeImage]. *)
Definition encoder_of (format : string) (q : N) (prog : bool) : option Encoder :=
  if String.eqb format "jpeg" then Some (EncJpeg q prog)
  else if String.eqb format "png" then Some (EncPng q prog)
  else if String.eqb format "webp" then Some (EncWebp q)
  else if String.eqb format "tiff" then Some (EncTiff q)
  else if String.eqb format "avif" then Some (EncAvif q)
  else None.

Definition optimizeImage (file : UploadableFile) (options : OptimizeOptions)
    : M SharpOutput :=
  if Js.falsy_str (filepath file)
  then throw (Error "File path is required for optimization")
  else
    let q := Js.or_num (opt_quality options) IMAGE_QUALITY in
    let prog := Js.nullish (opt_progressive options) IMAGE_PROGRESSIVE in
    let format := default (Js.replace_dot (ext file))
                          (Js.or_str (opt_format options) None) in
    let transformer :=
      if isOptimizableFormat format
      then {| pl_resize := None; pl_encoder := encoder_of format q prog |}
      else bare in
    of_result (sharp_toBuffer (default EmptyString (filepath file)) transformer).

Definition resizeImage (file : UploadableFile) (options : ResizeRequest)
    : M SharpOutput :=
  if Js.falsy_str (filepath file)
  then throw (Error "File path is required for resizing")
  else
    let resizeOptions :=
      {| rs_width := rq_width options;
         rs_height := rq_height options;
         rs_fit := default "cover" (Js.or_str (rq_fit options) None);
         rs_withoutEnlargement := Js.nullish (rq_withoutEnlargement options) true |} in
    of_result (sharp_toBuffer (default EmptyString (filepath file))
                 {| pl_resize := Some resizeOptions; pl_encoder := None |}).

Definition generateThumbnail (file : UploadableFile) (sz : N) : M SharpOutput :=
  resizeImage file
    {| rq_width := Some sz; rq_height := Some sz; rq_fit := Some "cover";
       rq_withoutEnlargement := None |}.

(** The key [`w${breakpoint}`] *)
Definition breakpoint_key (breakpoint : N) : string := "w" ++ Js.num breakpoint.

(** The loop of [generateResponsiveImages], [responsive] being the object
    filled so far. *)
Fixpoint responsive_loop (file : UploadableFile) (bps : list N)
    (responsive : gmap string SharpOutput) : M (gmap string SharpOutput) :=
  match bps with
  | [] => ret responsive
  | breakpoint :: rest =>
      responsive' <-
        try_catch
          (result <- resizeImage file
                       {| rq_width := Some breakpoint; rq_height := None;
                          rq_fit := None; rq_withoutEnlargement := Some true |} ;;
           ret (<[breakpoint_key breakpoint := result]> responsive))
          (λ _,
            log LvlWarn service "Failed to generate responsive image" ;;
            ret responsive) ;;
      responsive_loop file rest responsive'
  end.

Definition generateResponsiveImages (file : UploadableFile) (bps : list N)
    : M (gmap string SharpOutput) :=
  responsive_loop file bps ∅.

Definition descriptor (key : string) (file : UploadableFile) (image : SharpOutput)
    : FormatDescriptor :=
  {| fd_name := key ++ "_" ++ name file;
     fd_hash := key ++ "_" ++ hash file;
     fd_ext := ext file;
     fd_mime := mime file;
     fd_width := Some (info_width (info image));
     fd_height := Some (info_height (info image));
     fd_size := info_size (info image) |}.

Definition no_processing : ProcessingOptions :=
  {| quality := None; progressive := None; responsive := None; breakpoints := None |}.

Definition empty_result : PartialFile := {| p_formats := None; p_size := None |}.

Definition processImage (file : UploadableFile) (options : option ProcessingOptions)
    : M PartialFile :=
  let options := default no_processing options in
  if negb (Js.startsWith (mime file) "image/") then ret empty_result
  else
    let format := Js.replace_dot (ext file) in
    if negb (Js.array_includes FORMATS_TO_PROCESS format)
    then
      log LvlInfo service "Skipping processing for unsupported format" ;;
      ret empty_result
    else
      try_catch
        (fmts <-
           (if GENERATE_THUMBNAILS
            then
              thumbnail <- generateThumbnail file 150 ;;
              ret (<["thumbnail" := descriptor "thumbnail" file thumbnail]>
                     (∅ : gmap string FormatDescriptor))
            else ret ∅) ;;
         fmts <-
           (if negb (bool_decide (responsive options = Some false))
            then
              let bps := default RESPONSIVE_BREAKPOINTS (breakpoints options) in
              responsiveImages <- generateResponsiveImages file bps ;;
              ret (map_fold (λ key image acc, <[key := descriptor key file image]> acc)
                     fmts responsiveImages)
            else ret fmts) ;;
         sz <-
           (if isOptimizableFormat format
            then
              optimized <- optimizeImage file
                             {| opt_quality := quality options;
                                opt_progressive := progressive options;
                                opt_format := None |} ;;
              if info_size (info optimized) <? size file
              then ret (Some (info_size (info optimized)))
              else ret None
            else ret None) ;;
         log LvlInfo service "Image processed successfully" ;;
         ret {| p_formats := Some fmts; p_size := sz |})
        (λ error,
          log LvlError service "Image processing failed" ;;
          throw (Error ("Image processing failed: " ++ message error))).

End with_env.
End ImageProcessingService.

(** Node's [path] on POSIX, for the paths the local provider builds. *)
Module Path.

(** [segments.join('/')] *)
Fixpoint unsplit (segments : list string) : string :=
  match segments with
  | [] => EmptyString
  | [seg] => seg
  | seg :: rest => seg ++ "/" ++ unsplit rest
  end.

(** [normalizeString]: empty segments and [.] are dropped, [..] removes
    the segment before it, or is kept where there is none and the path is
    relative; [res] holds the segments kept so far, last first. *)
Fixpoint normalizeString (segments : list string) (allowAboveRoot : bool)
    (res : list string) : list string :=
  match segments with
  | [] => rev res
  | seg :: rest =>
      if String.eqb seg EmptyString || String.eqb seg "."
      then normalizeString rest allowAboveRoot res
      else if String.eqb seg ".."
      then match res with
           | last :: res' =>
               if String.eqb last ".."
               then normalizeString rest allowAboveRoot (".." :: res)
               else normalizeString rest allowAboveRoot res'
           | [] =>
               normalizeString rest allowAboveRoot
                 (if allowAboveRoot then [".."] else [])
           end
      else normalizeString rest allowAboveRoot (seg :: res)
  end.

Fixpoint ends_with_slash (s : string) : bool :=
  match s with
  | EmptyString => false
  | String c EmptyString => Ascii.eqb c "/"
  | String _ s' => ends_with_slash s'
  end.

(** [path.normalize] *)
Definition normalize (path : string) : string :=
  if String.eqb path EmptyString then "."
  else
    let isAbsolute := Js.startsWith path "/" in
    let trailingSeparator := ends_with_slash path in
    let p := unsplit (normalizeString (Js.split "/" path) (negb isAbsolute) []) in
    if String.eqb p EmptyString
    then (if isAbsolute then "/" else if trailingSeparator then "./" else ".")
    else (if isAbsolute then "/" else EmptyString) ++ p
         ++ (if trailingSeparator then "/" else EmptyString).

(** [path.join]: the non-empty arguments, joined by slashes and
    normalized *)
Definition join (args : list string) : string :=
  match List.filter (λ arg, negb (String.eqb arg EmptyString)) args with
  | [] => "."
  | parts => normalize (unsplit parts)
  end.

End Path.

(** [s.replace(/\/+/g, '/')] *)
Fixpoint collapse_slashes (s : string) : string :=
  match s with
  | EmptyString => EmptyString
  | String c s' =>
      match s' with
      | String d _ =>
          if Ascii.eqb c "/" && Ascii.eqb d "/" then collapse_slashes s'
          else String c (collapse_slashes s')
      | EmptyString => String c EmptyString
      end
  end.

(** [LocalStorageProvider]: the file is copied to
    [path.join(LOCAL_STORAGE_PATH, folderPath, hash + ext)] and served under
    [/files]. *)
Definition getFilePath (LOCAL_STORAGE_PATH : string) (f : UploadableFile) : string :=
  Path.join [LOCAL_STORAGE_PATH; default EmptyString (folderPath f); hash f ++ ext f].

Definition LocalStorageProvider (LOCAL_STORAGE_PATH : string) : StorageProvider :=
  {| provider_name := "local";
     provider_service := "LocalStorageProvider";
     object_key := getFilePath LOCAL_STORAGE_PATH;
     uploaded_url := λ f,
       collapse_slashes ("/files/" ++ default EmptyString (folderPath f)
                         ++ "/" ++ hash f ++ ext f);
     uploaded_metadata := getFilePath LOCAL_STORAGE_PATH;
     uploaded_message := "File uploaded to local storage";
     upload_failed_message := None;
     deleted_message := "File deleted from local storage";
     delete_failed_message := "Failed to delete file from local storage" |}.

(** [S3StorageProvider]: the object key is [getS3Key]; the url is the
    location the SDK reports or else the one built from bucket and region. *)
Definition getS3Key (f : UploadableFile) : string :=
  Js.strip_leading_slash (default EmptyString (Js.or_str (folderPath f) None)
                          ++ "/" ++ hash f ++ ext f).

Definition S3StorageProvider (bucket region : string) (location : string → option string)
    : StorageProvider :=
  {| provider_name := "aws-s3";
     provider_service := "S3StorageProvider";
     object_key := getS3Key;
     uploaded_url := λ f,
       default ("https://" ++ bucket ++ ".s3." ++ region ++ ".amazonaws.com/" ++ getS3Key f)
               (Js.or_str (location (getS3Key f)) None);
     uploaded_metadata := getS3Key;
     uploaded_message := "File uploaded to S3";
     upload_failed_message := Some "Failed to upload file to S3";
     deleted_message := "File deleted from S3";
     delete_failed_message := "Failed to delete file from S3" |}.

(** [CloudinaryStorageProvider]: the object is addressed by [getPublicId];
    the url is the [secure_url] the service answers. *)
Definition getPublicId (f : UploadableFile) : string :=
  Js.strip_leading_slash (default EmptyString (Js.or_str (folderPath f) None)
                          ++ "/" ++ hash f).

Definition CloudinaryStorageProvider (secure_url : string → string) : StorageProvider :=
  {| provider_name := "cloudinary";
     provider_service := "CloudinaryStorageProvider";
     object_key := getPublicId;
     uploaded_url := λ f, secure_url (getPublicId f);
     uploaded_metadata := getPublicId;
     uploaded_message := "File uploaded to Cloudinary";
     upload_failed_message := Some "Failed to upload file to Cloudinary";
     deleted_message := "File deleted from Cloudinary";
     delete_failed_message := "Failed to delete file from Cloudinary" |}.

(** ** Promises that run concurrently

    A [Task] is an asynchronous call in progress: settled, or suspended on
    an awaited operation with what it does once that operation has
    completed.  The log calls between two awaits are steps of their own, so
    the scheduler below may switch tasks at more places than the event loop
    does. *)

Inductive Task (A : Type) : Type :=
| Settled (r : Result A)
| Await {X : Type} (io : M X) (k : Result X → Task A).
Arguments Settled {A} r.
Arguments Await {A X} io k.

(** [await p] *)
Definition await {X} (io : M X) : Task X := Await io Settled.

Fixpoint bindT {A B} (t : Task A) (k : A → Task B) : Task B :=
  match t with
  | Settled (Ok a) => k a
  | Settled (Throw e) => Settled (Throw e)
  | Await io c => Await io (λ x, bindT (c x) k)
  end.

(** [try { t } catch (error) { h error }] around awaited steps *)
Fixpoint catchT {A} (t : Task A) (h : JsError → Task A) : Task A :=
  match t with
  | Settled (Ok a) => Settled (Ok a)
  | Settled (Throw e) => h e
  | Await io c => Await io (λ x, catchT (c x) h)
  end.

Notation "x <~ t ;; k" := (bindT t (λ x, k))
  (at level 100, t at next level, right associativity) : m_scope.

(** Awaiting a task until it settles. *)
Fixpoint run_task {A} (t : Task A) : M A :=
  λ w, match t with
       | Settled r => (r, w)
       | Await io k => let '(x, w') := io w in run_task (k x) w'
       end.

(** One awaited operation of a task completes. *)
Definition step_task {A} (t : Task A) (w : World) : Task A * World :=
  match t with
  | Settled r => (Settled r, w)
  | Await io k => let '(x, w') := io w in (k x, w')
  end.

Fixpoint step_nth {A} (i : nat) (ts : list (Task A)) (w : World) {struct ts}
    : list (Task A) * World :=
  match ts with
  | [] => ([], w)
  | t :: ts' =>
      match i with
      | O => let '(t', w') := step_task t w in (t' :: ts', w')
      | S i' => let '(ts'', w') := step_nth i' ts' w in (t :: ts'', w')
      end
  end.

(** The order in which awaited operations complete: [sched] names, step by
    step, the task whose pending operation completes next. *)
Fixpoint interleave {A} (sched : list nat) (ts : list (Task A)) (w : World)
    : list (Task A) * World :=
  match sched with
  | [] => (ts, w)
  | i :: sched' => let '(ts', w') := step_nth i ts w in interleave sched' ts' w'
  end.

Fixpoint settle {A} (ts : list (Task A)) (w : World) : list (Result A) * World :=
  match ts with
  | [] => ([], w)
  | t :: ts' =>
      let '(r, w') := run_task t w in
      let '(rs, w'') := settle ts' w' in
      (r :: rs, w'')
  end.

(** [Promise.allSettled(ts)]: the tasks advance in the order [sched] gives;
    whatever is still pending when [sched] ends is run to completion, first
    task first.  The promise it returns is always fulfilled, with one
    outcome per task. *)
Definition allSettled {A} (sched : list nat) (ts : list (Task A))
    : M (list (Result A)) :=
  λ w, let '(ts', w') := interleave sched ts w in
       let '(rs, w'') := settle ts' w' in
       (Ok rs, w'').

Definition fulfilled {A} (r : Result A) : bool :=
  match r with
  | Ok _ => true
  | Throw _ => false
  end.

Definition rejected {A} (r : Result A) : bool :=
  match r with
  | Ok _ => false
  | Throw _ => true
  end.

(** ** The upload orchestrator ([UploadService]) *)

Record FormatOptions := {
  fo_folder : option string;
  fo_tmpWorkingDirectory : option string
}.

Module UploadService.
Section with_env.
Context `{Config} `{NodeLib} `{Sharp} `{Faults} `{StorageProvider}.

Definition service : string := "UploadService".

(** The characters of [filenameReservedRegex] *)
Definition reserved_char (c : ascii) : bool :=
  (N_of_ascii c <=? 31)
  || existsb (Ascii.eqb c)
       ["<"; ">"; ":"; ascii_of_N 34; "/"; ascii_of_N 92; "|"; "?"; "*"]%char.

Fixpoint has_reserved_char (s : string) : bool :=
  match s with
  | EmptyString => false
  | String c s' => reserved_char c || has_reserved_char s'
  end.

Definition is_digit (c : ascii) : bool :=
  (48 <=? N_of_ascii c) && (N_of_ascii c <=? 57).

(** [windowsReservedNameRegex]: one of con, prn, aux, nul, or com or lpt
    followed by one digit, whatever the case of the letters *)
Definition windows_reserved (s : string) : bool :=
  let l := Js.toLowerCase s in
  Js.array_includes ["con"; "prn"; "aux"; "nul"] l
  || match l with
     | String a (String b (String c (String d EmptyString))) =>
         (String.eqb (String a (String b (String c EmptyString))) "com"
          || String.eqb (String a (String b (String c EmptyString))) "lpt")
         && is_digit d
     | _ => false
     end.

Definition isValidFilename (filename : string) : bool :=
  if String.eqb filename EmptyString || (255 <? Js.length filename)%nat
  then false
  else if has_reserved_char filename || windows_reserved filename then false
  else if String.eqb filename "." || String.eqb filename ".." then false
  else true.

(** [fse.mkdtemp(prefix)]: a directory that did not exist is created,
    named by the prefix and a random suffix. *)
Definition mkdtemp (prefix : string) : M string :=
  attempt (Mkdtemp prefix) ;;
  w <- get_world ;;
  let dir := prefix ++ mkdtemp_suffix (entropy w) in
  modify draw ;;
  if bool_decide (dir ∈ tmpdirs w)
  then throw (Error "EEXIST: file already exists, mkdtemp")
  else
    modify (set_tmpdirs (union {[dir]})) ;;
    ret dir.

(** [fse.remove(path)] *)
Definition fse_remove (p : string) : M unit :=
  attempt (FsRemove p) ;;
  modify (set_tmpdirs (λ s, s ∖ {[p]})).

(** [path.join(os.tmpdir(), 'media-upload-')] *)
Definition tmp_prefix : string := os_tmpdir ++ "/media-upload-".

Definition createTmpWorkingDirectory : M string := mkdtemp tmp_prefix.

(** [uuidv4()] *)
Definition uuidv4 : M string :=
  w <- get_world ;;
  modify draw ;;
  ret (uuidv4_at (entropy w)).

Definition generateFileHash (basename : string) : M string :=
  u <- uuidv4 ;;
  ret (basename ++ "_" ++ Js.remove_dashes u).

Definition getFolderPath (folderId : option string) : M string :=
  if Js.falsy_str folderId then ret "/"
  else
    try_catch
      (fld <- DatabaseService.getFolder (default EmptyString folderId) ;;
       ret (default "/" (Js.or_str (folder_path <$> fld) None)))
      (λ _,
        log LvlWarn service "Failed to get folder path" ;;
        ret "/").

Definition with_dimensions (f : UploadableFile) (m : Metadata) : UploadableFile :=
  {| id := id f; name := name f; alternativeText := alternativeText f;
     caption := caption f; folder := folder f; folderPath := folderPath f;
     hash := hash f; ext := ext f; mime := mime f; size := size f;
     url := url f; previewUrl := previewUrl f; provider := provider f;
     provider_metadata := provider_metadata f;
     tmpWorkingDirectory := tmpWorkingDirectory f; filepath := filepath f;
     width := md_width m; height := md_height m; formats := formats f |}.

Definition formatFileInfo (file : MulterFile) (fileInfo : FileInfo)
    (options : FormatOptions) : M UploadableFile :=
  let filename := originalname file in
  let type := mimetype file in
  if negb (isValidFilename filename)
  then throw (Error "File name contains invalid characters")
  else
    let ext0 := path_extname filename in
    let ext :=
      if String.eqb ext0 EmptyString
      then "." ++ default "false" (mime_extension type)
      else ext0 in
    let usedName := normalize (default filename (Js.or_str (fi_name fileInfo) None)) in
    let basename := path_basename usedName ext in
    hash <- generateFileHash basename ;;
    folderPath <- getFolderPath (Js.or_str (fi_folder fileInfo) (fo_folder options)) ;;
    let entity :=
      {| id := None;
         name := usedName;
         alternativeText := fi_alternativeText fileInfo;
         caption := fi_caption fileInfo;
         folder := Js.or_str (fi_folder fileInfo) (fo_folder options);
         folderPath := Some folderPath;
         hash := hash;
         ext := ext;
         mime := type;
         size := multer_size file;
         url := None;
         previewUrl := None;
         provider := STORAGE_PROVIDER;
         provider_metadata := None;
         tmpWorkingDirectory := fo_tmpWorkingDirectory options;
         filepath := Some (multer_path file);
         width := None;
         height := None;
         formats := None |} in
    if Js.startsWith type "image/"
    then
      try_catch
        (metadata <- ImageProcessingService.getMetadata entity ;;
         ret (with_dimensions entity metadata))
        (λ _,
          log LvlWarn service "Failed to extract image metadata" ;;
          ret entity)
    else ret entity.

Definition no_upload_options : UploadOptions :=
  {| uo_folder := None; processingOptions := None; validationOptions := None |}.

(** The body of the [for] loop of [uploadFiles], for one file. *)
Definition uploadOne (tmpDir : string) (fileInfo : FileInfo) (options : UploadOptions)
    (file : MulterFile) : M UploadableFile :=
  ValidationService.validateFile file (validationOptions options) ;;
  fileEntity <- formatFileInfo file fileInfo
                  {| fo_folder := uo_folder options;
                     fo_tmpWorkingDirectory := Some tmpDir |} ;;
  fileEntity <-
    (if Js.startsWith (mime fileEntity) "image/"
     then
       processedFile <- ImageProcessingService.processImage fileEntity
                          (processingOptions options) ;;
       ret (assign fileEntity processedFile)
     else ret fileEntity) ;;
  fileEntity <- StorageProviderService.upload fileEntity ;;
  savedFile <- DatabaseService.saveFile fileEntity ;;
  log LvlInfo service "File uploaded successfully" ;;
  ret savedFile.

(** The [for] loop, [uploadedFiles] being the array filled so far. *)
Fixpoint uploadLoop (tmpDir : string) (fileInfo : FileInfo) (options : UploadOptions)
    (files : list MulterFile) (uploadedFiles : list UploadableFile)
    : M (list UploadableFile) :=
  match files with
  | [] => ret uploadedFiles
  | file :: rest =>
      savedFile <- uploadOne tmpDir fileInfo options file ;;
      uploadLoop tmpDir fileInfo options rest (uploadedFiles ++ [savedFile])
  end.

(** The [try ... catch] of [uploadFiles] *)
Definition uploadBatch (tmpDir : string) (files : list MulterFile)
    (fileInfo : FileInfo) (options : UploadOptions) : M (list UploadableFile) :=
  try_catch
    (uploadLoop tmpDir fileInfo options files [])
    (λ error,
      log LvlError service "Upload failed" ;;
      throw error).

(** The [finally] of [uploadFiles] *)
Definition cleanup (tmpDir : string) : M unit :=
  if negb (Js.falsy_str (Some tmpDir))
  then
    try_catch
      (fse_remove tmpDir)
      (λ _, log LvlWarn service "Failed to clean up tmp directory")
  else ret tt.

Definition uploadFiles (files : list MulterFile) (fileInfo : FileInfo)
    (options : UploadOptions) : M (list UploadableFile) :=
  tmpWorkingDirectory <- createTmpWorkingDirectory ;;
  try_finally
    (uploadBatch tmpWorkingDirectory files fileInfo options)
    (cleanup tmpWorkingDirectory).

Definition deleteFile (i : string) : Task bool :=
  file <~ await (DatabaseService.getFile i) ;;
  match file with
  | None => Settled (Throw (Error "File not found"))
  | Some file =>
      catchT
        (_ <~ await (StorageProviderService.delete file) ;;
         _ <~ await (DatabaseService.deleteFile i) ;;
         _ <~ await (log LvlInfo service "File deleted successfully") ;;
         Settled (Ok true))
        (λ error,
          _ <~ await (log LvlError service "Failed to delete file") ;;
          Settled (Throw error))
  end.

Definition createFolder (nm : string) (parent : option string) : M FileFolder :=
  fld <- DatabaseService.createFolder nm parent ;;
  log LvlInfo service "Folder created successfully" ;;
  ret fld.

Definition deleteFolder (i : string) : M bool :=
  deleted <- DatabaseService.deleteFolder i ;;
  (if deleted then log LvlInfo service "Folder deleted successfully" else ret tt) ;;
  ret deleted.

Definition getFile (i : string) : M (option UploadableFile) :=
  DatabaseService.getFile i.

End with_env.
End UploadService.

(** ** The file routes ([routes/files.ts]) *)

Record BulkCounts := {
  successful : nat;
  failed : nat;
  total : nat
}.

(** What a handler sends: the status and the [ApiResponse] body. *)
Record Response := {
  status : N;
  success : bool;
  data : option BulkCounts;
  error : option string;
  response_message : option string
}.

(** [req.body.ids] as the bulk handler tells it apart: falsy, truthy but
    not an array, or an array of ids. *)
Inductive BodyIds :=
| IdsFalsy
| IdsNotArray
| IdsArray (ids : list string).

(** The status and [ApiResponse] body of the handlers that send a record. *)
Record Reply (D : Type) := {
  reply_status : N;
  reply_success : bool;
  reply_data : option D;
  reply_error : option string;
  reply_message : option string
}.
Arguments reply_status {D} _.
Arguments reply_success {D} _.
Arguments reply_data {D} _.
Arguments reply_error {D} _.
Arguments reply_message {D} _.

Definition refuse {D} (code : N) (msg : string) : Reply D :=
  {| reply_status := code; reply_success := false; reply_data := None;
     reply_error := Some msg; reply_message := None |}.

Definition accept {D} (code : N) (d : option D) (msg : string) : Reply D :=
  {| reply_status := code; reply_success := true; reply_data := d;
     reply_error := None; reply_message := Some msg |}.

Module FileRoutes.
Section with_env.
Context `{Config} `{NodeLib} `{Sharp} `{Faults} `{StorageProvider}.

Definition failure (code : N) (msg : string) : Response :=
  {| status := code; success := false; data := None; error := Some msg;
     response_message := None |}.

(** [router.delete('/:id')] *)
Definition delete_file (i : string) : M Response :=
  try_catch
    (if String.eqb i EmptyString
     then ret (failure 400 "File ID is required")
     else
       deleted <- run_task (UploadService.deleteFile i) ;;
       if negb deleted
       then ret (failure 404 "File not found")
       else ret {| status := 200; success := true; data := None; error := None;
                   response_message := Some "File deleted successfully" |})
    (λ error, ret (failure 400 (message error))).

Definition bulk_message (ok ko : nat) : string :=
  "Bulk delete completed: " ++ pretty ok ++ " successful, " ++ pretty ko ++ " failed".

(** [router.delete('/')]; [sched] is the order in which the awaited
    operations of the deletions complete. *)
Definition bulk_delete (sched : list nat) (body : BodyIds) : M Response :=
  try_catch
    (match body with
     | IdsArray (i :: ids') =>
         let ids := i :: ids' in
         results <- allSettled sched (map UploadService.deleteFile ids) ;;
         let successful := List.length (filter (λ r, fulfilled r = true) results) in
         let failed := List.length (filter (λ r, rejected r = true) results) in
         ret {| status := 200; success := true;
                data := Some {| successful := successful; failed := failed;
                                total := List.length ids |};
                error := None;
                response_message := Some (bulk_message successful failed) |}
     | _ => ret (failure 400 "File IDs array is required")
     end)
    (λ error, ret (failure 400 (message error))).

(** [router.get('/:id')] *)
Definition get_file (i : string) : M (Reply UploadableFile) :=
  try_catch
    (if String.eqb i EmptyString
     then ret (refuse 400 "File ID is required")
     else
       file <- UploadService.getFile i ;;
       match file with
       | None => ret (refuse 404 "File not found")
       | Some file => ret (accept 200 (Some file) "File retrieved successfully")
       end)
    (λ error, ret (refuse 400 (message error))).

End with_env.
End FileRoutes.

(** ** The folder routes ([routes/folders.ts]) *)

Module FolderRoutes.
Section with_env.
Context `{Faults}.

(** [router.post('/')], for a body whose [name] is a string *)
Definition create_folder (nm : string) (parent : option string) : M (Reply FileFolder) :=
  try_catch
    (if String.eqb nm EmptyString
     then ret (refuse 400 "Folder name is required")
     else
       ValidationService.validateFolderName nm ;;
       fld <- UploadService.createFolder nm parent ;;
       ret (accept 201 (Some fld) "Folder created successfully"))
    (λ error, ret (refuse 400 (message error))).

(** [router.delete('/:id')] *)
Definition delete_folder (i : string) : M (Reply unit) :=
  try_catch
    (if String.eqb i EmptyString
     then ret (refuse 400 "Folder ID is required")
     else
       deleted <- UploadService.deleteFolder i ;;
       if negb deleted
       then ret (refuse 404 "Folder not found")
       else ret (accept 200 None "Folder deleted successfully"))
    (λ error, ret (refuse 400 (message error))).

End with_env.
End FolderRoutes.

(** ** The error middleware ([middleware/error-handler.ts]) *)

Module ErrorHandler.

Definition service : string := "ErrorHandler".

Definition errorHandler (error : JsError) : M (Reply unit) :=
  log LvlError service "Unhandled error" ;;
  let msg := message error in
  if Js.includes msg "File too large"
  then ret (refuse 413 "File size exceeds maximum limit")
  else if Js.includes msg "Unexpected field"
  then ret (refuse 400 "Invalid file field name")
  else if Js.includes msg "Too many files"
  then ret (refuse 400 "Too many files uploaded")
  else if Js.includes msg "validation" || Js.includes msg "required"
  then ret (refuse 400 msg)
  else if Js.includes msg "Unique constraint"
  then ret (refuse 409 "Resource already exists")
  else if Js.includes msg "Record not found"
  then ret (refuse 404 "Resource not found")
  else if Js.includes msg "AWS" || Js.includes msg "S3"
  then ret (refuse 503 "Storage service unavailable")
  else if Js.includes msg "Cloudinary"
  then ret (refuse 503 "Image processing service unavailable")
  else ret (refuse 500 "Internal server error").

(** [notFoundHandler] *)
Definition notFoundHandler : Reply unit := refuse 404 "Route not found".

End ErrorHandler.

(** ** A concrete deployment

    The configuration with no environment variable set, the local storage
    provider, and small stand-ins for the libraries, used to run the
    services on concrete requests. *)

Module Scenario.
Import Stdlib.Init.Byte.

Definition config : Config :=
  {| MAX_FILE_SIZE := 10485760;
     ALLOWED_TYPES := ["image/jpeg"; "image/png"; "image/gif"; "image/webp";
                       "image/svg+xml"; "video/mp4"; "video/webm";
                       "application/pdf"; "text/plain"; "application/json"];
     STORAGE_PROVIDER := "local";
     IMAGE_QUALITY := 80;
     IMAGE_PROGRESSIVE := false;
     GENERATE_THUMBNAILS := true;
     RESPONSIVE_BREAKPOINTS := [480; 768; 1024; 1920] |}.

Definition local_provider : StorageProvider := LocalStorageProvider "./uploads".

(** [path.extname] on a name with no directory part *)
Definition extname (s : string) : string :=
  match s with
  | EmptyString => EmptyString
  | String _ s' => if Js.includes s' "." then "." ++ Js.split_pop s' else EmptyString
  end.

(** [path.basename(s, ext)] on a name with no directory part *)
Definition basename (s ext : string) : string :=
  let n := (String.length s - String.length ext)%nat in
  if (String.length ext <? String.length s)%nat
     && String.eqb (substring n (String.length ext) s) ext
  then substring 0 n s else s.

Definition extension (type : string) : option string :=
  if String.eqb type "image/png" then Some "png"
  else if String.eqb type "image/jpeg" then Some "jpeg"
  else if String.eqb type "image/gif" then Some "gif"
  else if String.eqb type "text/plain" then Some "txt"
  else None.

(** The files multer left in the upload directory. *)
Record StoredImage := {
  si_format : string;
  si_width : N;
  si_height : N;
  si_bytes : list Byte.byte;
  si_reencoded : list Byte.byte
}.

Definition upload_dir (p : string) : option StoredImage :=
  if String.eqb p "./uploads/narrow"
  then Some {| si_format := "png"; si_width := 300; si_height := 200;
               si_bytes := [x89; x50; x4e; x47; x0d; x0a; x1a; x0a];
               si_reencoded := [x89; x50; x4e; x47; x0d; x0a] |}
  else if String.eqb p "./uploads/tight"
  then Some {| si_format := "jpeg"; si_width := 64; si_height := 64;
               si_bytes := [xff; xd8; xff; xd9];
               si_reencoded := [xff; xd8; xff; xe0; xff; xd9] |}
  else if String.eqb p "./uploads/anim"
  then Some {| si_format := "gif"; si_width := 32; si_height := 32;
               si_bytes := [x47; x49; x46; x38; x39; x61];
               si_reencoded := [x47; x49; x46; x38; x39; x61; x00] |}
  else None.

Definition node : NodeLib :=
  {| os_tmpdir := "/tmp";
     path_extname := extname;
     path_basename := basename;
     mime_extension := extension;
     normalize := λ s, s;
     uuidv4_at := λ n, "9b1deb4d-3b7d-4bad-9bdd-2b0d7b3dcb" ++ pretty (n + 10)%nat;
     mkdtemp_suffix := λ n, "Xq3" ++ pretty n;
     fs_bytes := λ p, match upload_dir p with
                      | Some img => si_bytes img
                      | None => []
                      end |}.

(** A stand-in for sharp that follows its documentation: [resize] with
    [withoutEnlargement] never scales up and does not fail on a source
    narrower than the target (the output keeps the source width);
    [toBuffer] always encodes afresh, in the requested format or else in
    the format of the input. *)
Definition resized (img : StoredImage) (r : option ResizeOptions) : N * N :=
  match r with
  | None => (si_width img, si_height img)
  | Some o =>
      let w := default (si_width img) (rs_width o) in
      let w := if rs_withoutEnlargement o then N.min w (si_width img) else w in
      let h := match rs_height o with
               | Some h => if rs_withoutEnlargement o then N.min h (si_height img) else h
               | None => si_height img * w / si_width img
               end in
      (w, h)
  end.

Definition sharp : Sharp :=
  {| sharp_metadata := λ p,
       match upload_dir p with
       | Some img => Ok {| md_width := Some (si_width img);
                           md_height := Some (si_height img) |}
       | None => Throw (Error "Input file is missing")
       end;
     sharp_toBuffer := λ p pl,
       match upload_dir p with
       | Some img =>
           Ok {| buffer := si_reencoded img;
                 info := {| info_format := match pl_encoder pl with
                                           | Some e => encoder_format e
                                           | None => si_format img
                                           end;
                            info_width := (resized img (pl_resize pl)).1;
                            info_height := (resized img (pl_resize pl)).2;
                            info_size := N.of_nat (List.length (si_reencoded img)) |} |}
       | None => Throw (Error "Input file is missing")
       end |}.

Definition no_faults : Faults := {| fault := λ _ _, None |}.

(** The backend refuses to delete the object whose hash is [h]. *)
Definition delete_fails_for (h : string) : Faults :=
  {| fault := λ _ op,
       match op with
       | ProviderDelete f =>
           if String.eqb (hash f) h then Some (Error "EACCES: permission denied")
           else None
       | _ => None
       end |}.

(** The file system refuses to remove directories. *)
Definition remove_fails : Faults :=
  {| fault := λ _ op,
       match op with
       | FsRemove _ => Some (Error "EBUSY: resource busy or locked")
       | _ => None
       end |}.

Definition empty_world : World :=
  {| db_files := ∅; db_folders := ∅; objects := ∅; tmpdirs := ∅; logs := [];
     trace := []; entropy := 0 |}.

Definition no_info : FileInfo :=
  {| fi_name := None; fi_alternativeText := None; fi_caption := None;
     fi_folder := None |}.

Definition narrow_png : MulterFile :=
  {| originalname := "narrow.png"; mimetype := "image/png"; multer_size := 8;
     multer_path := "./uploads/narrow" |}.

Definition tight_jpeg : MulterFile :=
  {| originalname := "tight.jpeg"; mimetype := "image/jpeg"; multer_size := 4;
     multer_path := "./uploads/tight" |}.

Definition anim_gif : MulterFile :=
  {| originalname := "anim.gif"; mimetype := "image/gif"; multer_size := 6;
     multer_path := "./uploads/anim" |}.

Definition notes_txt : MulterFile :=
  {| originalname := "notes.txt"; mimetype := "text/plain"; multer_size := 120;
     multer_path := "./uploads/notes" |}.

(** Larger than [MAX_FILE_SIZE]. *)
Definition huge_txt : MulterFile :=
  {| originalname := "huge.txt"; mimetype := "text/plain"; multer_size := 20000000;
     multer_path := "./uploads/huge" |}.

(** The entity [formatFileInfo] builds for an upload, for calling the
    image services directly. *)
Definition entity_of (file : MulterFile) (h e : string) : UploadableFile :=
  {| id := None; name := originalname file; alternativeText := None;
     caption := None; folder := None; folderPath := Some "/"; hash := h;
     ext := e; mime := mimetype file; size := multer_size file; url := None;
     previewUrl := None; provider := "local"; provider_metadata := None;
     tmpWorkingDirectory := None; filepath := Some (multer_path file);
     width := None; height := None; formats := None |}.

(** A populated store: the folders [/photos], [/photos/2024] and [/empty],
    one file in [/photos/2024] and two at the root. *)
Definition stored_file (i h : string) (fld : option string) (pth : string)
    : UploadableFile :=
  {| id := Some i; name := h ++ ".txt"; alternativeText := None; caption := None;
     folder := fld; folderPath := Some pth; hash := h; ext := ".txt";
     mime := "text/plain"; size := 120;
     url := Some (collapse_slashes ("/files/" ++ pth ++ "/" ++ h ++ ".txt"));
     previewUrl := None; provider := "local"; provider_metadata := None;
     tmpWorkingDirectory := None; filepath := None; width := None; height := None;
     formats := None |}.

Definition file_a : UploadableFile := stored_file "a" "report_01" (Some "f2") "/photos/2024".
Definition file_b : UploadableFile := stored_file "b" "report_02" None "/".
Definition file_c : UploadableFile := stored_file "c" "report_03" None "/".

Definition library : World :=
  {| db_files := <["a" := file_a]> (<["b" := file_b]> (<["c" := file_c]> ∅));
     db_folders :=
       <["f1" := {| folder_id := "f1"; folder_name := "photos";
                    folder_path := "/photos"; folder_parent := None |}]>
       (<["f2" := {| folder_id := "f2"; folder_name := "2024";
                     folder_path := "/photos/2024"; folder_parent := Some "f1" |}]>
       (<["f3" := {| folder_id := "f3"; folder_name := "empty";
                     folder_path := "/empty"; folder_parent := None |}]> ∅));
     objects := list_to_set (@object_key local_provider <$> [file_a; file_b; file_c]);
     tmpdirs := ∅; logs := []; trace := []; entropy := 0 |}.

End Scenario.

(** ** Vocabulary of the statements *)

(** Operations that remove a stored object or a metadata record. *)
Definition is_delete (op : IoOp) : bool :=
  match op with
  | FileDelete _ | FolderDelete _ | ProviderDelete _ => true
  | _ => false
  end.

(** [m] relates the world it starts in to the world it ends in by [R],
    whatever its outcome. *)
Definition preserves {A} (R : World → World → Prop) (m : M A) : Prop :=
  ∀ w r w', m w = (r, w') → R w w'.

(** The same, for the runs of [m] that throw. *)
Definition preserves_on_throw {A} (R : World → World → Prop) (m : M A) : Prop :=
  ∀ w e w', m w = (Throw e, w') → R w w'.

Definition never_throws {A} (m : M A) : Prop :=
  ∀ w e w', m w ≠ (Throw e, w').

(** Relations on worlds that logging, random draws, external calls other
    than deletions, new backend objects and changes to the set of temporary
    directories all respect. *)
Class Frame (R : World → World → Prop) := {
  frame_refl w : R w w;
  frame_trans w1 w2 w3 : R w1 w2 → R w2 w3 → R w1 w3;
  frame_log e w : R w (add_log e w);
  frame_draw w : R w (draw w);
  frame_io op w : is_delete op = false → R w (record_op op w);
  frame_objects k w : R w (set_objects (union {[k]}) w);
  frame_tmpdirs f w : R w (set_tmpdirs f w)
}.

(** The metadata tables are the same. *)
Definition same_tables (w w' : World) : Prop :=
  db_files w = db_files w' ∧ db_folders w = db_folders w'.

(** Nothing stored is lost: the file table and the backend only grow, the
    folder table is the same, and no deletion was issued. *)
Definition no_rollback (w w' : World) : Prop :=
  db_files w ⊆ db_files w'
  ∧ db_folders w = db_folders w'
  ∧ objects w ⊆ objects w'
  ∧ ∃ ops, trace w' = (trace w ++ ops)%list ∧ Forall (λ op, is_delete op = false) ops.

(** The request of [generateResponsiveImages] for one breakpoint, and what
    [resizeImage] answers to it. *)
Definition breakpoint_request (breakpoint : N) : ResizeRequest :=
  {| rq_width := Some breakpoint; rq_height := None; rq_fit := None;
     rq_withoutEnlargement := Some true |}.

Definition breakpoint_resize `{Sharp} (file : UploadableFile) (breakpoint : N)
    : Result SharpOutput :=
  if Js.falsy_str (filepath file)
  then Throw (Error "File path is required for resizing")
  else sharp_toBuffer (default EmptyString (filepath file))
         {| pl_resize := Some {| rs_width := Some breakpoint; rs_height := None;
                                 rs_fit := "cover"; rs_withoutEnlargement := true |};
            pl_encoder := None |}.

Definition responsive_warning : LogEntry :=
  {| log_level := LvlWarn; log_service := ImageProcessingService.service;
     log_message := "Failed to generate responsive image" |}.

(** [s] is a row of the file table of [w]. *)
Definition stored (w : World) (s : UploadableFile) : Prop :=
  ∃ i, id s = Some i ∧ db_files w !! i = Some s.

Definition upload_failed : LogEntry :=
  {| log_level := LvlError; log_service := UploadService.service;
     log_message := "Upload failed" |}.

Definition cleanup_warning : LogEntry :=
  {| log_level := LvlWarn; log_service := UploadService.service;
     log_message := "Failed to clean up tmp directory" |}.

(** Direct children of a folder. *)
Definition file_child (w : World) (i : string) : Prop :=
  ∃ k f, db_files w !! k = Some f ∧ folder f = Some i.

Definition subfolder_child (w : World) (i : string) : Prop :=
  ∃ k g, db_folders w !! k = Some g ∧ folder_parent g = Some i.

(** The stores are the same; the log and the trace may have grown. *)
Definition same_stores (w w' : World) : Prop :=
  db_files w' = db_files w ∧ db_folders w' = db_folders w
  ∧ objects w' = objects w ∧ tmpdirs w' = tmpdirs w.

(** No run of the task settles with the value [bad]. *)
Fixpoint task_never {A} (bad : A) (t : Task A) : Prop :=
  match t with
  | Settled r => r ≠ Ok bad
  | Await io k => ∀ x, task_never bad (k x)
  end.

Definition deleted_entry : LogEntry :=
  {| log_level := LvlInfo; log_service := UploadService.service;
     log_message := "File deleted successfully" |}.

Definition delete_failed_entry : LogEntry :=
  {| log_level := LvlError; log_service := UploadService.service;
     log_message := "Failed to delete file" |}.

(** The object [generateResponsiveImages] has filled after the breakpoints
    [bps], starting from [acc]. *)
Definition responsive_after `{Sharp} (file : UploadableFile) (bps : list N)
    (acc : gmap string SharpOutput) : gmap string SharpOutput :=
  foldl (λ acc b, match breakpoint_resize file b with
                  | Ok out => <[ImageProcessingService.breakpoint_key b := out]> acc
                  | Throw _ => acc
                  end) acc bps.

(** The options [processImage] passes to [optimizeImage]. *)
Definition optimize_options (options : option ProcessingOptions) : OptimizeOptions :=
  {| opt_quality := quality (default ImageProcessingService.no_processing options);
     opt_progressive := progressive (default ImageProcessingService.no_processing options);
     opt_format := None |}.

(** ** Vocabulary of the further properties *)

(** The external call [op] never fails. *)
Definition reliable `{Faults} (op : IoOp) : Prop := ∀ w, fault w op = None.

(** The external call [op] fails with [e] whenever it is made. *)
Definition broken `{Faults} (op : IoOp) (e : JsError) : Prop := ∀ w, fault w op = Some e.

(** Relations on worlds that logging respects. *)
Class Quiet (R : World → World → Prop) := {
  quiet_refl w : R w w;
  quiet_trans w1 w2 w3 : R w1 w2 → R w2 w3 → R w1 w3;
  quiet_log e w : R w (add_log e w)
}.

(** Nothing but the log has changed. *)
Definition only_logged (w w' : World) : Prop :=
  same_stores w w' ∧ trace w' = trace w ∧ entropy w' = entropy w.

(** A backend addresses a file by its folder path, hash and extension. *)
Definition addresses_by_triple `{StorageProvider} : Prop :=
  ∀ f g, folderPath f = folderPath g → hash f = hash g → ext f = ext g →
         object_key f = object_key g.

(** The messages [errorHandler] answers in place of the error's own. *)
Definition fixed_errors : list string :=
  ["File size exceeds maximum limit"; "Invalid file field name";
   "Too many files uploaded"; "Resource already exists"; "Resource not found";
   "Storage service unavailable"; "Image processing service unavailable";
   "Internal server error"].

Definition unhandled_entry : LogEntry :=
  {| log_level := LvlError; log_service := ErrorHandler.service;
     log_message := "Unhandled error" |}.

Definition dimensions_warning : LogEntry :=
  {| log_level := LvlWarn; log_service := ValidationService.service;
     log_message := "Failed to validate image dimensions" |}.

Definition backslash : string := String (ascii_of_N 92) EmptyString.

(** ** Further requests and failures *)

Module Cases.

(** An image multer announced whose file is not in the upload directory. *)
Definition lost_png : MulterFile :=
  {| originalname := "lost.png"; mimetype := "image/png"; multer_size := 9;
     multer_path := "./uploads/lost" |}.

(** The metadata store refuses to delete file rows. *)
Definition metadata_delete_fails : Faults :=
  {| fault := λ _ op,
       match op with
       | FileDelete _ => Some (Error "Can't reach database server")
       | _ => None
       end |}.

(** The metadata store refuses new file rows. *)
Definition metadata_create_fails : Faults :=
  {| fault := λ _ op,
       match op with
       | FileCreate _ => Some (Error "Can't reach database server")
       | _ => None
       end |}.

(** A listing request: the third page of 25, by size, for reports of at
    most 5000 bytes; the empty MIME filter and the zero lower bound are
    what an empty form field gives. *)
Definition report_filters : Filters :=
  {| f_name := Some "report"; f_mime := Some EmptyString; f_folder := None;
     f_provider := None; f_minSize := Some 0; f_maxSize := Some 5000 |}.

Definition third_page : PaginationOptions :=
  {| pg_page := Some (Num 3); pg_limit := Some (Num 25); pg_sort := Some "size:desc";
     pg_filters := Some report_filters |}.

End Cases.

(** * Properties *)

(** ** Computations *)

Section computations.
Context {A B : Type}.

Lemma bind_ok (m : M A) (k : A → M B) w a w1 :
  m w = (Ok a, w1) → bind m k w = k a w1.
Proof. unfold bind. by intros ->. Qed.

Lemma bind_throw (m : M A) (k : A → M B) w e w1 :
  m w = (Throw e, w1) → bind m k w = (Throw e, w1).
Proof. unfold bind. by intros ->. Qed.

Lemma bind_inv (m : M A) (k : A → M B) w r w' :
  bind m k w = (r, w') →
  (∃ a w1, m w = (Ok a, w1) ∧ k a w1 = (r, w'))
  ∨ (∃ e, m w = (Throw e, w') ∧ r = Throw e).
Proof.
  unfold bind. destruct (m w) as [[a|e] w1]; intros Hk.
  - left. eauto.
  - right. exists e. by inversion Hk.
Qed.

Lemma bind_ok_inv (m : M A) (k : A → M B) w b w' :
  bind m k w = (Ok b, w') → ∃ a w1, m w = (Ok a, w1) ∧ k a w1 = (Ok b, w').
Proof.
  intros [(a & w1 & ? & ?)|(e & _ & ?)]%bind_inv; [eauto | discriminate].
Qed.

Lemma try_catch_inv (m : M A) (h : JsError → M A) w r w' :
  try_catch m h w = (r, w') →
  (∃ a, m w = (Ok a, w') ∧ r = Ok a)
  ∨ (∃ e w1, m w = (Throw e, w1) ∧ h e w1 = (r, w')).
Proof.
  unfold try_catch. destruct (m w) as [[a|e] w1]; intros Hk.
  - left. exists a. by inversion Hk.
  - right. eauto.
Qed.

End computations.

(** A handler that logs and rethrows lets the successes through. *)
Lemma try_catch_rethrow_ok {A} (m : M A) (h : JsError → M A) w a w' :
  (∀ e w1, ∃ e' w2, h e w1 = (Throw e', w2)) →
  try_catch m h w = (Ok a, w') → m w = (Ok a, w').
Proof.
  intros Hh [(a' & Hm & [= ->])|(e & w1 & _ & Hr)]%try_catch_inv; [done |].
  destruct (Hh e w1) as (e' & w2 & Hthrow). congruence.
Qed.

Section frames.
Context (R : World → World → Prop) `{!Frame R}.

Lemma preserves_ret {A} (a : A) : preserves R (ret a).
Proof. intros w r w' [= _ <-]. apply frame_refl. Qed.

Lemma preserves_throw {A} (e : JsError) : preserves R (throw (A:=A) e).
Proof. intros w r w' [= _ <-]. apply frame_refl. Qed.

Lemma preserves_of_result {A} (x : Result A) : preserves R (of_result x).
Proof. intros w r w' [= _ <-]. apply frame_refl. Qed.

Lemma preserves_get_world : preserves R get_world.
Proof. intros w r w' [= _ <-]. apply frame_refl. Qed.

Lemma preserves_bind {A B} (m : M A) (k : A → M B) :
  preserves R m → (∀ a, preserves R (k a)) → preserves R (bind m k).
Proof.
  intros Hm Hk w r w' [(a & w1 & Ha & Hb)|(e & He & _)]%bind_inv.
  - eapply frame_trans; [by eapply Hm | by eapply Hk].
  - by eapply Hm.
Qed.

Lemma preserves_try_catch {A} (m : M A) (h : JsError → M A) :
  preserves R m → (∀ e, preserves R (h e)) → preserves R (try_catch m h).
Proof.
  intros Hm Hh w r w' [(a & Ha & _)|(e & w1 & He & Hr)]%try_catch_inv.
  - by eapply Hm.
  - eapply frame_trans; [by eapply Hm | by eapply Hh].
Qed.

Lemma preserves_try_finally {A} (m : M A) (fin : M unit) :
  preserves R m → preserves R fin → preserves R (try_finally m fin).
Proof.
  intros Hm Hf w r w'. unfold try_finally.
  destruct (m w) as [r1 w1] eqn:E1. destruct (fin w1) as [[[]|e] w2] eqn:E2;
    intros [= _ <-]; (eapply frame_trans; [by eapply Hm | by eapply Hf]).
Qed.

Lemma preserves_log lvl service msg : preserves R (log lvl service msg).
Proof. intros w r w' [= _ <-]. apply frame_log. Qed.

Lemma preserves_draw : preserves R (modify draw).
Proof. intros w r w' [= _ <-]. apply frame_draw. Qed.

Lemma preserves_new_object k : preserves R (modify (set_objects (union {[k]}))).
Proof. intros w r w' [= _ <-]. apply frame_objects. Qed.

Lemma preserves_tmpdirs f : preserves R (modify (set_tmpdirs f)).
Proof. intros w r w' [= _ <-]. apply frame_tmpdirs. Qed.

Lemma preserves_attempt `{Faults} op : is_delete op = false → preserves R (attempt op).
Proof.
  intros Hop w r w'. unfold attempt.
  destruct (fault w op); intros [= _ <-]; by apply frame_io.
Qed.

Lemma preserves_is_on_throw {A} (m : M A) : preserves R m → preserves_on_throw R m.
Proof. intros Hm w e w' Hrun. by eapply Hm. Qed.

Lemma preserves_on_throw_bind {A B} (m : M A) (k : A → M B) :
  preserves R m → (∀ a, preserves_on_throw R (k a)) →
  preserves_on_throw R (bind m k).
Proof.
  intros Hm Hk w e w' [(a & w1 & Ha & Hb)|(e' & He & _)]%bind_inv.
  - eapply frame_trans; [by eapply Hm | by eapply Hk].
  - by eapply Hm.
Qed.

Lemma preserves_on_throw_last {A B} (m : M A) (k : A → M B) :
  preserves_on_throw R m → (∀ a, never_throws (k a)) →
  preserves_on_throw R (bind m k).
Proof.
  intros Hm Hk w e w' [(a & w1 & Ha & Hb)|(e' & He & _)]%bind_inv.
  - by destruct (Hk a w1 e w').
  - by eapply Hm.
Qed.

End frames.

(** One step of a proof that a computation respects a frame: split on the
    head combinator, or on what a conditional tests. *)
Ltac frame_step :=
  lazymatch goal with
  | |- preserves ?R (bind _ _) => apply (preserves_bind R); [try done | intros ?]
  | |- preserves ?R (try_catch _ _) =>
      apply (preserves_try_catch R); [try done | intros ?]
  | |- preserves ?R (try_finally _ _) => apply (preserves_try_finally R)
  | |- preserves _ (if ?b then _ else _) => destruct b
  | |- preserves _ (match ?x with _ => _ end) => destruct x
  | |- preserves ?R (attempt _) => by apply (preserves_attempt R)
  | |- preserves ?R (ret _) => apply (preserves_ret R)
  | |- preserves ?R (throw _) => apply (preserves_throw R)
  | |- preserves ?R (of_result _) => apply (preserves_of_result R)
  | |- preserves ?R get_world => apply (preserves_get_world R)
  | |- preserves ?R (log _ _ _) => apply (preserves_log R)
  | |- preserves ?R (modify draw) => apply (preserves_draw R)
  | |- preserves ?R (modify (set_objects (union _))) => apply (preserves_new_object R)
  | |- preserves ?R (modify (set_tmpdirs _)) => apply (preserves_tmpdirs R)
  end.

Ltac frame := cbv zeta; repeat frame_step.

Global Instance same_tables_frame : Frame same_tables.
Proof. split; unfold same_tables; simpl; try done. intros ??? [-> ->] [-> ->]. done. Qed.

Global Instance no_rollback_frame : Frame no_rollback.
Proof.
  split; unfold no_rollback; simpl.
  - intros w. repeat split; try done. exists []. by rewrite app_nil_r.
  - intros w1 w2 w3 (Hf & -> & Ho & ops & -> & Hops) (Hf' & -> & Ho' & ops' & -> & Hops').
    repeat split; [by etrans | by etrans |].
    exists (ops ++ ops')%list. rewrite app_assoc. split; [done | by apply Forall_app].
  - intros e w. repeat split; try done. exists []. by rewrite app_nil_r.
  - intros w. repeat split; try done. exists []. by rewrite app_nil_r.
  - intros op w Hop. repeat split; try done. exists [op]. split; [done | by constructor].
  - intros k w. repeat split; try done; [set_solver |]. exists []. by rewrite app_nil_r.
  - intros f w. repeat split; try done. exists []. by rewrite app_nil_r.
Qed.

(** ** The stages of the upload pipeline respect every frame *)

Section pipeline_frames.
Context `{Config} `{NodeLib} `{Sharp} `{Faults} `{StorageProvider}.
Context (R : World → World → Prop) `{!Frame R}.

Lemma preserves_validateImage file maxW maxH :
  preserves R (ValidationService.validateImage file maxW maxH).
Proof. unfold ValidationService.validateImage. frame. Qed.

Lemma preserves_validateFile file options :
  preserves R (ValidationService.validateFile file options).
Proof.
  unfold ValidationService.validateFile. frame; apply preserves_validateImage.
Qed.

Lemma preserves_getMetadata file : preserves R (ImageProcessingService.getMetadata file).
Proof. unfold ImageProcessingService.getMetadata. frame. Qed.

Lemma preserves_optimizeImage file options :
  preserves R (ImageProcessingService.optimizeImage file options).
Proof. unfold ImageProcessingService.optimizeImage. frame. Qed.

Lemma preserves_resizeImage file options :
  preserves R (ImageProcessingService.resizeImage file options).
Proof. unfold ImageProcessingService.resizeImage. frame. Qed.

Lemma preserves_responsive_loop file bps acc :
  preserves R (ImageProcessingService.responsive_loop file bps acc).
Proof.
  revert acc. induction bps as [|b bps IH]; intros acc; simpl; frame.
  - apply preserves_resizeImage.
  - apply IH.
Qed.

Lemma preserves_processImage file options :
  preserves R (ImageProcessingService.processImage file options).
Proof.
  unfold ImageProcessingService.processImage,
    ImageProcessingService.generateResponsiveImages,
    ImageProcessingService.generateThumbnail.
  frame; first [apply preserves_resizeImage | apply preserves_responsive_loop
               | apply preserves_optimizeImage].
Qed.

Lemma preserves_getFolder i : preserves R (DatabaseService.getFolder i).
Proof. unfold DatabaseService.getFolder, Prisma.folder_findUnique. frame. Qed.

Lemma preserves_getFolderPath folderId : preserves R (UploadService.getFolderPath folderId).
Proof. unfold UploadService.getFolderPath. frame. apply preserves_getFolder. Qed.

Lemma preserves_generateFileHash basename :
  preserves R (UploadService.generateFileHash basename).
Proof. unfold UploadService.generateFileHash, UploadService.uuidv4. frame. Qed.

Lemma preserves_formatFileInfo file fileInfo options :
  preserves R (UploadService.formatFileInfo file fileInfo options).
Proof.
  unfold UploadService.formatFileInfo. frame;
    first [apply preserves_generateFileHash | apply preserves_getFolderPath
          | apply preserves_getMetadata].
Qed.

Lemma preserves_upload f : preserves R (StorageProviderService.upload f).
Proof. unfold StorageProviderService.upload. frame. Qed.

Lemma preserves_createTmpWorkingDirectory :
  preserves R UploadService.createTmpWorkingDirectory.
Proof.
  unfold UploadService.createTmpWorkingDirectory, UploadService.mkdtemp. frame.
Qed.

Lemma preserves_cleanup tmpDir : preserves R (UploadService.cleanup tmpDir).
Proof. unfold UploadService.cleanup, UploadService.fse_remove. frame. Qed.

End pipeline_frames.

(** ** Persisting an entity *)

Section saveFile.
Context `{Faults}.

Lemma saveFile_ok f w s w' :
  DatabaseService.saveFile f w = (Ok s, w') →
  ∃ i, db_files w !! i = None
       ∧ s = Prisma.with_id i (DatabaseService.file_data f)
       ∧ w' = set_db_files (insert i s) (record_op (FileCreate (DatabaseService.file_data f)) w).
Proof.
  unfold DatabaseService.saveFile, Prisma.file_create, try_catch, bind, attempt,
    get_world, modify, ret, log, throw.
  destruct (fault w _); simpl; intros [= <- <-].
  eexists. split; [|done].
  apply not_elem_of_dom. pose proof (is_fresh ({[EmptyString]} ∪ dom (db_files w))).
  set_solver.
Qed.

Lemma saveFile_throw f w e w' :
  DatabaseService.saveFile f w = (Throw e, w') →
  w' = add_log {| log_level := LvlError; log_service := DatabaseService.service;
                  log_message := "Failed to save file to database" |}
         (record_op (FileCreate (DatabaseService.file_data f)) w)
  ∧ fault w (FileCreate (DatabaseService.file_data f)) = Some e.
Proof.
  unfold DatabaseService.saveFile, Prisma.file_create, try_catch, bind, attempt,
    get_world, modify, ret, log, throw.
  destruct (fault w _); simpl; intros [= <- <-]. done.
Qed.

Lemma preserves_saveFile f : preserves no_rollback (DatabaseService.saveFile f).
Proof.
  intros w [s|e] w' Hrun.
  - apply saveFile_ok in Hrun as (i & Hi & _ & ->).
    repeat split; simpl; [by apply insert_subseteq | done |].
    eexists [_]. split; [done | by constructor].
  - apply saveFile_throw in Hrun as [-> _].
    eapply frame_trans; [|apply frame_log]. by apply frame_io.
Qed.

Lemma saveFile_throw_same_tables f :
  preserves_on_throw same_tables (DatabaseService.saveFile f).
Proof. intros w e w' [-> _]%saveFile_throw. done. Qed.

End saveFile.

(** [frame_step], knowing the stages. *)
Ltac frame_stage :=
  lazymatch goal with
  | |- preserves ?R (ValidationService.validateFile _ _) => apply (preserves_validateFile R)
  | |- preserves ?R (UploadService.formatFileInfo _ _ _) => apply (preserves_formatFileInfo R)
  | |- preserves ?R (ImageProcessingService.processImage _ _) =>
      apply (preserves_processImage R)
  | |- preserves ?R (StorageProviderService.upload _) => apply (preserves_upload R)
  | |- preserves _ (DatabaseService.saveFile _) => apply preserves_saveFile
  | |- _ => frame_step
  end.

(** ** The batch loop *)

Section upload.
Context `{Config} `{NodeLib} `{Sharp} `{Faults} `{StorageProvider}.


Lemma stored_mono w w' s : db_files w ⊆ db_files w' → stored w s → stored w' s.
Proof. intros Hsub (i & ? & ?). exists i. split; [done | by eapply lookup_weaken]. Qed.

Lemma preserves_uploadOne tmpDir fileInfo options file :
  preserves no_rollback (UploadService.uploadOne tmpDir fileInfo options file).
Proof.
  unfold UploadService.uploadOne. repeat frame_stage.
Qed.

Lemma uploadOne_ok tmpDir fileInfo options file w s w' :
  UploadService.uploadOne tmpDir fileInfo options file w = (Ok s, w') → stored w' s.
Proof.
  unfold UploadService.uploadOne.
  intros (_ & w1 & _ & Hrun)%bind_ok_inv.
  apply bind_ok_inv in Hrun as (e1 & w2 & _ & Hrun).
  apply bind_ok_inv in Hrun as (e2 & w3 & _ & Hrun).
  apply bind_ok_inv in Hrun as (e3 & w4 & _ & Hrun).
  apply bind_ok_inv in Hrun as (s' & w5 & Hsave & Hrun).
  apply saveFile_ok in Hsave as (i & Hi & Hs & ->).
  injection Hrun as <- <-. exists i. split.
  - by rewrite Hs.
  - simpl. apply lookup_insert_eq.
Qed.

Lemma uploadOne_throw tmpDir fileInfo options file w e w' :
  UploadService.uploadOne tmpDir fileInfo options file w = (Throw e, w') →
  db_files w' = db_files w.
Proof.
  intros Hrun. symmetry. revert w e w' Hrun.
  change (preserves_on_throw (λ w w', db_files w = db_files w')
            (UploadService.uploadOne tmpDir fileInfo options file)).
  assert (preserves_on_throw same_tables
            (UploadService.uploadOne tmpDir fileInfo options file)) as Hs.
  { unfold UploadService.uploadOne.
    apply (preserves_on_throw_bind same_tables); [repeat frame_stage |].
    intros _. apply (preserves_on_throw_bind same_tables); [repeat frame_stage |].
    intros e1. apply (preserves_on_throw_bind same_tables); [repeat frame_stage |].
    intros e2. apply (preserves_on_throw_bind same_tables); [repeat frame_stage |].
    intros e3. apply (preserves_on_throw_last same_tables);
      [apply saveFile_throw_same_tables |].
    intros s w e w'. done. }
  intros w e w' Hrun. by destruct (Hs w e w' Hrun).
Qed.

Lemma preserves_uploadLoop tmpDir fileInfo options files acc :
  preserves no_rollback (UploadService.uploadLoop tmpDir fileInfo options files acc).
Proof.
  revert acc. induction files as [|f files IH]; intros acc; simpl; frame.
  - apply preserves_uploadOne.
  - apply IH.
Qed.

Lemma uploadLoop_ok tmpDir fileInfo options files acc w saved w' :
  UploadService.uploadLoop tmpDir fileInfo options files acc w = (Ok saved, w') →
  Forall (stored w) acc →
  Forall (stored w') saved ∧ List.length saved = (List.length acc + List.length files)%nat.
Proof.
  revert acc w. induction files as [|f files IH]; intros acc w; simpl.
  - intros [= <- <-] Hacc. split; [done | lia].
  - intros (s & w1 & Hone & Hrest)%bind_ok_inv Hacc.
    apply IH in Hrest as [? Hlen].
    + split; [done |]. rewrite Hlen, length_app. simpl. lia.
    + apply Forall_app. split.
      * eapply Forall_impl; [done |]. intros x. apply stored_mono.
        by apply (preserves_uploadOne _ _ _ _ _ _ _ Hone).
      * constructor; [|done]. by eapply uploadOne_ok.
Qed.

Lemma uploadLoop_abort tmpDir fileInfo options files1 f files2 acc w saved w2 e w3 :
  UploadService.uploadLoop tmpDir fileInfo options files1 acc w = (Ok saved, w2) →
  UploadService.uploadOne tmpDir fileInfo options f w2 = (Throw e, w3) →
  UploadService.uploadLoop tmpDir fileInfo options (files1 ++ f :: files2) acc w
  = (Throw e, w3).
Proof.
  revert acc w. induction files1 as [|g files1 IH]; intros acc w; simpl.
  - intros [= <- <-] Hone. by apply bind_throw.
  - intros (s & w1 & Hone & Hrest)%bind_ok_inv Hf.
    erewrite bind_ok; [|done]. by eapply IH.
Qed.

Lemma createTmpWorkingDirectory_ok w tmpDir w1 :
  UploadService.createTmpWorkingDirectory w = (Ok tmpDir, w1) →
  Js.falsy_str (Some tmpDir) = false
  ∧ (tmpDir ∉ tmpdirs w)
  ∧ tmpDir ∈ tmpdirs w1.
Proof.
  unfold UploadService.createTmpWorkingDirectory, UploadService.mkdtemp, bind, attempt,
    get_world, modify, ret, throw.
  destruct (fault w _); [done |]. simpl.
  case_bool_decide as Hin; [done |]. intros [= <- <-]. simpl in *.
  split_and!; [| done | set_solver].
  unfold UploadService.tmp_prefix. by destruct os_tmpdir.
Qed.

Lemma cleanup_run tmpDir w :
  Js.falsy_str (Some tmpDir) = false →
  UploadService.cleanup tmpDir w
  = (Ok tt,
     match fault w (FsRemove tmpDir) with
     | None => set_tmpdirs (λ s, s ∖ {[tmpDir]}) (record_op (FsRemove tmpDir) w)
     | Some _ => add_log cleanup_warning (record_op (FsRemove tmpDir) w)
     end).
Proof.
  intros Hne. unfold UploadService.cleanup. rewrite Hne. simpl.
  unfold try_catch, UploadService.fse_remove, bind, attempt, modify, log.
  by destruct (fault w _).
Qed.

Lemma uploadBatch_throw tmpDir files fileInfo options w e w' :
  UploadService.uploadLoop tmpDir fileInfo options files [] w = (Throw e, w') →
  UploadService.uploadBatch tmpDir files fileInfo options w
  = (Throw e, add_log upload_failed w').
Proof. unfold UploadService.uploadBatch, try_catch. by intros ->. Qed.

(** C1. Fail-fast batches: when the files before [f] went through and the
    pipeline of [f] raises [e], [uploadFiles] raises that same [e]; the
    world it leaves is the one [f] failed in, plus the log line and the
    removal of the temporary directory, so none of the later files was
    touched; every entity saved for the earlier files is still a row of the
    file table, which is exactly as the earlier files left it; and over the
    whole call the file table and the backend only grew and no deletion
    was issued to the backend or to the metadata store. *)
Theorem uploadFiles_fail_fast files1 f files2 fileInfo options w tmpDir w1 saved w2 e w3 :
  UploadService.createTmpWorkingDirectory w = (Ok tmpDir, w1) →
  UploadService.uploadLoop tmpDir fileInfo options files1 [] w1 = (Ok saved, w2) →
  UploadService.uploadOne tmpDir fileInfo options f w2 = (Throw e, w3) →
  ∃ w4,
    UploadService.uploadFiles (files1 ++ f :: files2) fileInfo options w = (Throw e, w4)
    ∧ w4 = (UploadService.cleanup tmpDir (add_log upload_failed w3)).2
    ∧ List.length saved = List.length files1
    ∧ Forall (stored w4) saved
    ∧ db_files w4 = db_files w2
    ∧ no_rollback w w4.
Proof.
  intros Htmp Hloop Hone.
  pose proof (createTmpWorkingDirectory_ok _ _ _ Htmp) as (Hne & _ & _).
  pose proof (uploadLoop_abort _ _ _ _ _ files2 _ _ _ _ _ _ Hloop Hone) as Habort.
  apply uploadBatch_throw in Habort.
  pose proof (cleanup_run tmpDir (add_log upload_failed w3) Hne) as Hclean.
  eexists. split_and!.
  - unfold UploadService.uploadFiles. erewrite bind_ok; [|done].
    unfold try_finally. rewrite Habort, Hclean. done.
  - by rewrite Hclean.
  - by apply uploadLoop_ok in Hloop as [_ ->].
  - apply uploadLoop_ok in Hloop as [Hst _]; [|done].
    eapply Forall_impl; [done |]. intros s. apply stored_mono.
    apply uploadOne_throw in Hone. rewrite <-Hone.
    by destruct (fault _ _).
  - apply uploadOne_throw in Hone. rewrite <-Hone. by destruct (fault _ _).
  - eapply (frame_trans (R:=no_rollback));
      [by eapply (preserves_createTmpWorkingDirectory no_rollback) |].
    eapply (frame_trans (R:=no_rollback));
      [by eapply preserves_uploadLoop |].
    eapply (frame_trans (R:=no_rollback));
      [by eapply preserves_uploadOne |].
    eapply (frame_trans (R:=no_rollback)); [apply frame_log |].
    destruct (fault _ _).
    + eapply (frame_trans (R:=no_rollback)); [|apply frame_log]. by apply frame_io.
    + eapply (frame_trans (R:=no_rollback)); [|apply frame_tmpdirs]. by apply frame_io.
Qed.

(** C2. The temporary directory acquired at the start of the batch is
    removed on every exit: whatever the outcome [r] of the loop, a list of
    saved files or an error, [uploadFiles] ends with that outcome after one
    [fse.remove] of the directory, which is then gone; when the removal
    itself fails the outcome is still [r], and one warning is logged. *)
Theorem uploadFiles_cleanup files fileInfo options w tmpDir w1 r w2 :
  UploadService.createTmpWorkingDirectory w = (Ok tmpDir, w1) →
  UploadService.uploadBatch tmpDir files fileInfo options w1 = (r, w2) →
  tmpDir ∈ tmpdirs w1
  ∧ ∃ w3,
      UploadService.uploadFiles files fileInfo options w = (r, w3)
      ∧ trace w3 = (trace w2 ++ [FsRemove tmpDir])%list
      ∧ db_files w3 = db_files w2
      ∧ objects w3 = objects w2
      ∧ match fault w2 (FsRemove tmpDir) with
        | None => (tmpDir ∉ tmpdirs w3) ∧ logs w3 = logs w2
        | Some _ => tmpdirs w3 = tmpdirs w2 ∧ logs w3 = (logs w2 ++ [cleanup_warning])%list
        end.
Proof.
  intros Htmp Hbatch.
  pose proof (createTmpWorkingDirectory_ok _ _ _ Htmp) as (Hne & _ & Hin).
  split; [done |].
  pose proof (cleanup_run tmpDir w2 Hne) as Hclean.
  eexists. split.
  - unfold UploadService.uploadFiles. erewrite bind_ok; [|done].
    unfold try_finally. rewrite Hbatch, Hclean. done.
  - destruct (fault w2 _); simpl; split_and!; try done.
    rewrite elem_of_difference, elem_of_singleton. tauto.
Qed.

End upload.


(** ** Derivatives *)

Section derivatives.
Context `{Config} `{Sharp}.

Lemma resizeImage_breakpoint file b w :
  ImageProcessingService.resizeImage file (breakpoint_request b) w
  = (breakpoint_resize file b, w).
Proof.
  unfold ImageProcessingService.resizeImage, breakpoint_resize.
  by destruct (Js.falsy_str _).
Qed.

Lemma breakpoint_key_inj b b' :
  ImageProcessingService.breakpoint_key b = ImageProcessingService.breakpoint_key b' →
  b = b'.
Proof.
  unfold ImageProcessingService.breakpoint_key, Js.num.
  intros Heq%String.app_inj. by apply pretty_N_inj in Heq.
Qed.

Lemma responsive_loop_run file bps acc w :
  ImageProcessingService.responsive_loop file bps acc w
  = (Ok (responsive_after file bps acc),
     foldl (λ w _, add_log responsive_warning w) w
       (filter (λ b, rejected (breakpoint_resize file b) = true) bps)).
Proof.
  revert acc w. induction bps as [|b bps IH]; intros acc w; simpl; [done |].
  unfold bind, try_catch. fold (breakpoint_request b).
  rewrite resizeImage_breakpoint.
  destruct (breakpoint_resize file b) as [out|e] eqn:E; simpl.
  - rewrite IH, filter_cons_False; [done |]. by rewrite E.
  - rewrite IH, filter_cons_True; [done |]. by rewrite E.
Qed.

Lemma responsive_after_lookup file bps acc b0 :
  responsive_after file bps acc !! ImageProcessingService.breakpoint_key b0
  = if decide (b0 ∈ bps)
    then match breakpoint_resize file b0 with
         | Ok out => Some out
         | Throw _ => acc !! ImageProcessingService.breakpoint_key b0
         end
    else acc !! ImageProcessingService.breakpoint_key b0.
Proof.
  revert acc. induction bps as [|b bps IH]; intros acc.
  - case_decide as Hin; [by apply elem_of_nil in Hin | done].
  - unfold responsive_after in *. cbn [foldl]. rewrite IH. clear IH.
    destruct (decide (b = b0)) as [->|Hne].
    + destruct (breakpoint_resize file b0) as [out|e].
      * rewrite lookup_insert_eq.
        destruct (decide (b0 ∈ bps)); destruct (decide (b0 ∈ b0 :: bps)) as [|Hnin];
          try done; destruct Hnin; by left.
      * destruct (decide (b0 ∈ bps)); destruct (decide (b0 ∈ b0 :: bps)) as [|Hnin];
          try done; destruct Hnin; by left.
    + assert (ImageProcessingService.breakpoint_key b ≠ ImageProcessingService.breakpoint_key b0)
        as Hkey by (by intros ?%breakpoint_key_inj).
      assert (match breakpoint_resize file b with
              | Ok out => <[ImageProcessingService.breakpoint_key b := out]> acc
              | Throw _ => acc
              end !! ImageProcessingService.breakpoint_key b0
              = acc !! ImageProcessingService.breakpoint_key b0) as ->.
      { destruct (breakpoint_resize file b); [by rewrite lookup_insert_ne | done]. }
      destruct (decide (b0 ∈ bps)) as [Hin|Hnin];
        destruct (decide (b0 ∈ b :: bps)) as [Hin'|Hnin']; try done.
      * destruct Hnin'. by right.
      * by apply elem_of_cons in Hin' as [->|?].
Qed.

Lemma responsive_after_keys file bps acc key :
  is_Some (responsive_after file bps acc !! key) →
  is_Some (acc !! key) ∨ ∃ b, b ∈ bps ∧ key = ImageProcessingService.breakpoint_key b.
Proof.
  revert acc. induction bps as [|b bps IH]; intros acc; simpl; [by left |].
  intros [Hacc|(b' & ? & ?)]%IH.
  - destruct (breakpoint_resize file b); [|by left].
    destruct (decide (ImageProcessingService.breakpoint_key b = key)) as [<-|Hne].
    + right. exists b. split; [by left | done].
    + left. by rewrite lookup_insert_ne in Hacc.
  - right. exists b'. split; [by right | done].
Qed.

(** C3, as amended. [generateResponsiveImages] never raises: it returns an
    object whose keys are labels of the breakpoints given, holding for each
    breakpoint the output of its resize when that call returned and
    nothing when it threw, and it logs one warning per breakpoint whose
    resize threw.  Which breakpoints are left out is decided by the resize
    calls alone, [resizeImage] with the breakpoint as width and enlargement
    disallowed; no width is compared. *)
Theorem generateResponsiveImages_never_raises file bps w :
  ∃ responsive,
    ImageProcessingService.generateResponsiveImages file bps w
    = (Ok responsive,
       foldl (λ w _, add_log responsive_warning w) w
         (filter (λ b, rejected (breakpoint_resize file b) = true) bps))
    ∧ (∀ key, is_Some (responsive !! key) →
              ∃ b, b ∈ bps ∧ key = ImageProcessingService.breakpoint_key b)
    ∧ (∀ b, b ∈ bps →
            responsive !! ImageProcessingService.breakpoint_key b
            = match breakpoint_resize file b with
              | Ok out => Some out
              | Throw _ => None
              end)
    ∧ (∀ b w0,
         ImageProcessingService.resizeImage file (breakpoint_request b) w0
         = (breakpoint_resize file b, w0)).
Proof.
  exists (responsive_after file bps ∅). split_and!; [| | | apply resizeImage_breakpoint].
  - apply responsive_loop_run.
  - intros key [Hk|Hk]%responsive_after_keys; [|done].
    rewrite lookup_empty in Hk. by destruct (is_Some_None Hk).
  - intros b Hb. rewrite responsive_after_lookup. case_decide; [|done].
    by destruct (breakpoint_resize file b).
Qed.

Lemma isOptimizableFormat_cases format :
  ImageProcessingService.isOptimizableFormat format = true →
  format = "jpeg" ∨ format = "png" ∨ format = "webp" ∨ format = "tiff" ∨ format = "avif".
Proof.
  unfold ImageProcessingService.isOptimizableFormat, Js.array_includes. simpl.
  rewrite !orb_true_iff, !String.eqb_eq. intuition discriminate.
Qed.

(** C4, as amended. [optimizeImage] returns what the image library
    produces and compares no sizes: for a format in the optimizable set it
    asks for the encoder of that format with the resolved quality and
    progressive options; for any other format it asks for no encoder and
    returns the output of the bare pipeline. *)
Theorem optimizeImage_returns_library_output file options p w :
  filepath file = Some p → Js.falsy_str (Some p) = false →
  let format := default (Js.replace_dot (ext file)) (Js.or_str (opt_format options) None) in
  (ImageProcessingService.isOptimizableFormat format = true →
   ∃ enc,
     ImageProcessingService.encoder_of format
       (Js.or_num (opt_quality options) IMAGE_QUALITY)
       (Js.nullish (opt_progressive options) IMAGE_PROGRESSIVE) = Some enc
     ∧ encoder_format enc = format
     ∧ ImageProcessingService.optimizeImage file options w
       = (sharp_toBuffer p {| pl_resize := None; pl_encoder := Some enc |}, w))
  ∧ (ImageProcessingService.isOptimizableFormat format = false →
     ImageProcessingService.optimizeImage file options w
     = (sharp_toBuffer p ImageProcessingService.bare, w)).
Proof.
  intros Hp Hne format. unfold ImageProcessingService.optimizeImage.
  rewrite Hp, Hne. fold format. simpl. split.
  - intros Hopt. rewrite Hopt.
    destruct (isOptimizableFormat_cases format Hopt) as [E|[E|[E|[E|E]]]];
      rewrite E; eexists; split_and!; reflexivity.
  - by intros ->.
Qed.

Lemma optimizeImage_pure file options w r w' :
  ImageProcessingService.optimizeImage file options w = (r, w') →
  w' = w ∧ ∀ w0, ImageProcessingService.optimizeImage file options w0 = (r, w0).
Proof.
  unfold ImageProcessingService.optimizeImage.
  destruct (Js.falsy_str _); intros [= <- <-]; done.
Qed.

(** C5. When [processImage] returns, it sets [size] only to an optimized
    byte count strictly smaller than the size of the file, and only for a
    format in the optimizable set; so the size recorded once the result is
    assigned to the entity is at most the original one, and it is the
    original one when [size] was not set, which is always the case for a
    format outside the optimizable set. *)
Theorem processImage_size file options w p w' :
  ImageProcessingService.processImage file options w = (Ok p, w') →
  (∀ s, p_size p = Some s →
        s < size file
        ∧ ImageProcessingService.isOptimizableFormat (Js.replace_dot (ext file)) = true
        ∧ ∃ out,
            (∀ w0, ImageProcessingService.optimizeImage file (optimize_options options) w0
                   = (Ok out, w0))
            ∧ info_size (info out) = s)
  ∧ size (assign file p) ≤ size file
  ∧ (p_size p = None → size (assign file p) = size file)
  ∧ (ImageProcessingService.isOptimizableFormat (Js.replace_dot (ext file)) = false →
     p_size p = None).
Proof.
  intros Hrun.
  assert (∀ s, p_size p = Some s →
               s < size file
               ∧ ImageProcessingService.isOptimizableFormat (Js.replace_dot (ext file)) = true
               ∧ ∃ out,
                   (∀ w0, ImageProcessingService.optimizeImage file
                            (optimize_options options) w0 = (Ok out, w0))
                   ∧ info_size (info out) = s) as Hsize.
  { revert Hrun. unfold ImageProcessingService.processImage. cbv zeta.
    destruct (negb (Js.startsWith _ _)); [by intros [= <- _] |].
    destruct (negb (Js.array_includes _ _)); [by intros [= <- _] |].
    intros Hrun. apply try_catch_rethrow_ok in Hrun; [|intros e w1; by do 2 eexists].
    apply bind_ok_inv in Hrun as (fmts & w1 & _ & Hrun).
    apply bind_ok_inv in Hrun as (fmts' & w2 & _ & Hrun).
    apply bind_ok_inv in Hrun as (sz & w3 & Hsz & Hrun).
    injection Hrun as <- _. simpl. intros s ->.
    destruct (ImageProcessingService.isOptimizableFormat _); [|done].
    apply bind_ok_inv in Hsz as (out & w4 & Hopt & Hsz).
    apply optimizeImage_pure in Hopt as [-> Hopt].
    destruct (info_size (info out) <? size file) eqn:Hlt; [|done].
    injection Hsz as <- _. split_and!; [by apply N.ltb_lt | done |].
    by exists out. }
  split_and!.
  - done.
  - unfold assign. simpl. destruct (p_size p) as [s|] eqn:E; simpl; [|done].
    destruct (Hsize s eq_refl) as [Hlt _]. lia.
  - intros Hnone. unfold assign. simpl. by rewrite Hnone.
  - intros Hno. destruct (p_size p) as [s|] eqn:E; [|done].
    destruct (Hsize s eq_refl) as (_ & Hopt & _). congruence.
Qed.

End derivatives.

(** ** Hashes *)

Section hash.
Context `{NodeLib}.

(** C9. The hash is the basename, an underscore and the uuid without its
    dashes; it is computed from the basename and the random draw alone,
    the store is not consulted; so two calls with the same basename whose
    suffixes differ give different hashes. *)
Theorem generateFileHash_unique_by_construction :
  (∀ basename w,
     UploadService.generateFileHash basename w
     = (Ok (basename ++ "_" ++ Js.remove_dashes (uuidv4_at (entropy w))), draw w))
  ∧ (∀ basename w1 w2,
       entropy w1 = entropy w2 →
       (UploadService.generateFileHash basename w1).1
       = (UploadService.generateFileHash basename w2).1)
  ∧ (∀ basename w1 w2 h1 h2 w1' w2',
       UploadService.generateFileHash basename w1 = (Ok h1, w1') →
       UploadService.generateFileHash basename w2 = (Ok h2, w2') →
       Js.remove_dashes (uuidv4_at (entropy w1))
       ≠ Js.remove_dashes (uuidv4_at (entropy w2)) →
       h1 ≠ h2).
Proof.
  split_and!.
  - done.
  - intros basename w1 w2 Hent. simpl. by rewrite Hent.
  - intros basename w1 w2 h1 h2 w1' w2' [= <- _] [= <- _] Hne Heq.
    apply Hne. by do 2 apply String.app_inj in Heq.
Qed.

End hash.

(** ** Folders *)

Section folders.
Context `{Config} `{NodeLib} `{Sharp} `{Faults} `{StorageProvider}.

Lemma fresh_id_spec {V} (m : gmap string V) :
  let i : string := fresh ({[EmptyString]} ∪ dom m) in
  m !! i = None ∧ Js.falsy_str (Some i) = false.
Proof.
  intros i. pose proof (is_fresh ({[EmptyString]} ∪ dom m)) as Hi. fold i in Hi.
  split.
  - apply not_elem_of_dom. set_solver.
  - destruct i; [set_solver | done].
Qed.

Lemma getFolder_run i w :
  fault w (FolderFindUnique i) = None →
  DatabaseService.getFolder i w
  = (Ok (DatabaseService.folder_view <$> db_folders w !! i),
     record_op (FolderFindUnique i) w).
Proof.
  intros Hok. unfold DatabaseService.getFolder, Prisma.folder_findUnique, try_catch,
    bind, attempt, get_world, ret. by rewrite Hok.
Qed.

Lemma path_nonempty p nm : Js.or_str (Some (p ++ "/" ++ nm)) None = Some (p ++ "/" ++ nm).
Proof. by destruct p. Qed.

Lemma getFolderPath_found B fb w w1 :
  Js.falsy_str (Some B) = false →
  DatabaseService.getFolder B w = (Ok (Some fb), w1) →
  Js.falsy_str (Some (folder_path fb)) = false →
  UploadService.getFolderPath (Some B) w = (Ok (folder_path fb), w1).
Proof.
  intros HB Hget Hpath. unfold UploadService.getFolderPath. rewrite HB. simpl.
  unfold try_catch. erewrite bind_ok; [|done]. simpl.
  by destruct (folder_path fb).
Qed.

Lemma createFolder_root nm w :
  fault w (FolderCreate nm ("/" ++ nm) None) = None →
  let i : string := fresh ({[EmptyString]} ∪ dom (db_folders w)) in
  let row := {| folder_id := i; folder_name := nm; folder_path := "/" ++ nm;
                folder_parent := None |} in
  DatabaseService.createFolder nm None w
  = (Ok row, set_db_folders (insert i row) (record_op (FolderCreate nm ("/" ++ nm) None) w)).
Proof.
  intros Hok. unfold DatabaseService.createFolder, Prisma.folder_create, try_catch,
    bind, attempt, get_world, modify, ret. simpl. by rewrite Hok.
Qed.

Lemma createFolder_child nm A pa w w1 :
  Js.falsy_str (Some A) = false →
  DatabaseService.getFolder A w = (Ok (Some pa), w1) →
  fault w1 (FolderCreate nm (folder_path pa ++ "/" ++ nm) (Some A)) = None →
  let i : string := fresh ({[EmptyString]} ∪ dom (db_folders w1)) in
  let row := {| folder_id := i; folder_name := nm;
                folder_path := folder_path pa ++ "/" ++ nm;
                folder_parent := Some A |} in
  DatabaseService.createFolder nm (Some A) w
  = (Ok row,
     set_db_folders (insert i row)
       (record_op (FolderCreate nm (folder_path pa ++ "/" ++ nm) (Some A)) w1)).
Proof.
  intros HA Hget Hok. unfold DatabaseService.createFolder. rewrite HA. simpl.
  unfold try_catch. erewrite bind_ok; [|done].
  unfold Prisma.folder_create, bind, attempt, get_world, modify, ret.
  rewrite Hok. simpl. unfold DatabaseService.folder_view. simpl.
  by destruct A.
Qed.

Lemma formatFileInfo_folderPath file fileInfo options w entity w' :
  UploadService.formatFileInfo file fileInfo options w = (Ok entity, w') →
  ∃ p w2,
    UploadService.getFolderPath (Js.or_str (fi_folder fileInfo) (fo_folder options))
      (draw w) = (Ok p, w2)
    ∧ folderPath entity = Some p
    ∧ folder entity = Js.or_str (fi_folder fileInfo) (fo_folder options).
Proof.
  unfold UploadService.formatFileInfo. cbv zeta.
  destruct (negb _); [done |].
  intros (h & w1 & [= _ <-] & Hrun)%bind_ok_inv.
  apply bind_ok_inv in Hrun as (p & w2 & Hpath & Hrun).
  exists p, w2. split; [done |].
  destruct (Js.startsWith _ _).
  - apply try_catch_inv in Hrun as [(a & Hrun & [= <-])|(e & w3 & _ & Hrun)].
    + apply bind_ok_inv in Hrun as (md & w3 & _ & [= <- _]). done.
    + by injection Hrun as <- _.
  - by injection Hrun as <- _.
Qed.

(** The folder path of the entity built for a file that goes into the
    folder [B]. *)
Lemma formatFileInfo_into_folder file fileInfo options B fb w entity w' :
  Js.or_str (fi_folder fileInfo) (fo_folder options) = Some B →
  Js.falsy_str (Some B) = false →
  db_folders w !! B = Some fb →
  Js.falsy_str (Some (folder_path fb)) = false →
  fault (draw w) (FolderFindUnique B) = None →
  UploadService.formatFileInfo file fileInfo options w = (Ok entity, w') →
  folderPath entity = Some (folder_path fb) ∧ folder entity = Some B.
Proof.
  intros HB Hne Hrow Hpath Hfind (p & w2 & Hget & -> & ->)%formatFileInfo_folderPath.
  rewrite HB in Hget. split; [|done].
  erewrite (getFolderPath_found B (DatabaseService.folder_view fb)) in Hget;
    [by injection Hget as <- _ | done | | done].
  rewrite getFolder_run by done. simpl. by rewrite Hrow.
Qed.

(** The row saved for an uploaded file has the folder and the folder path
    of the entity [formatFileInfo] built for it, in a world with the tables
    the upload started with. *)
Lemma uploadOne_entity tmpDir fileInfo options file w s w' :
  UploadService.uploadOne tmpDir fileInfo options file w = (Ok s, w') →
  ∃ w1 entity w2,
    same_tables w w1
    ∧ UploadService.formatFileInfo file fileInfo
        {| fo_folder := uo_folder options; fo_tmpWorkingDirectory := Some tmpDir |} w1
      = (Ok entity, w2)
    ∧ folderPath s = folderPath entity
    ∧ folder s = folder entity.
Proof.
  unfold UploadService.uploadOne.
  intros (u & w1 & Hval & Hrun)%bind_ok_inv.
  apply bind_ok_inv in Hrun as (e1 & w2 & Hfmt & Hrun).
  apply bind_ok_inv in Hrun as (e2 & w3 & Hproc & Hrun).
  apply bind_ok_inv in Hrun as (e3 & w4 & Hup & Hrun).
  apply bind_ok_inv in Hrun as (s' & w5 & Hsave & Hrun).
  injection Hrun as <- _.
  apply (preserves_validateFile same_tables) in Hval.
  exists w1, e1, w2. split; [done |]. split; [done |].
  assert (folderPath e2 = folderPath e1 ∧ folder e2 = folder e1) as [Hp2 Hf2].
  { destruct (Js.startsWith _ _).
    - by apply bind_ok_inv in Hproc as (pf & w3' & _ & [= <- _]).
    - by injection Hproc as <- _. }
  assert (folderPath e3 = folderPath e2 ∧ folder e3 = folder e2) as [Hp3 Hf3].
  { revert Hup. unfold StorageProviderService.upload.
    destruct (Js.falsy_str _); [done |].
    intros (? & w6 & _ & Hup)%bind_ok_inv.
    apply bind_ok_inv in Hup as (? & w7 & _ & Hup).
    by apply bind_ok_inv in Hup as (? & w8 & _ & [= <- _]). }
  apply saveFile_ok in Hsave as (i & _ & -> & _). simpl. split; congruence.
Qed.

(** C6. Folder paths: with no folder id the path is the root, and so is
    the folder path of a file uploaded with no folder id, on the entity
    built for it and on the row saved for it; a folder created without
    parent gets a slash and its name; a folder created under a parent gets
    the path the parent has at that moment, a slash and its name, and a
    later lookup of the new folder gives that same path; the entity
    [formatFileInfo] builds carries what [getFolderPath] answers in the
    world the hash was drawn in; so a file uploaded into a folder whose
    lookup succeeds gets the stored path of that folder, on the entity and
    on the row saved for it. *)
Theorem folder_path_resolution :
  (∀ w, UploadService.getFolderPath None w = (Ok "/", w))
  ∧ (∀ file fileInfo options w entity w',
       Js.falsy_str (Js.or_str (fi_folder fileInfo) (fo_folder options)) = true →
       UploadService.formatFileInfo file fileInfo options w = (Ok entity, w') →
       folderPath entity = Some "/")
  ∧ (∀ nm w,
       fault w (FolderCreate nm ("/" ++ nm) None) = None →
       ∃ fld w',
         DatabaseService.createFolder nm None w = (Ok fld, w')
         ∧ folder_path fld = "/" ++ nm
         ∧ db_folders w' !! folder_id fld = Some fld)
  ∧ (∀ nm A pa w w1,
       Js.falsy_str (Some A) = false →
       DatabaseService.getFolder A w = (Ok (Some pa), w1) →
       fault w1 (FolderCreate nm (folder_path pa ++ "/" ++ nm) (Some A)) = None →
       ∃ fld w',
         DatabaseService.createFolder nm (Some A) w = (Ok fld, w')
         ∧ folder_path fld = folder_path pa ++ "/" ++ nm
         ∧ folder_name fld = nm
         ∧ folder_parent fld = Some A
         ∧ db_folders w' !! folder_id fld = Some fld
         ∧ (fault w' (FolderFindUnique (folder_id fld)) = None →
            ∃ w'', UploadService.getFolderPath (Some (folder_id fld)) w'
                   = (Ok (folder_path pa ++ "/" ++ nm), w'')))
  ∧ (∀ B fb w w1,
       Js.falsy_str (Some B) = false →
       DatabaseService.getFolder B w = (Ok (Some fb), w1) →
       Js.falsy_str (Some (folder_path fb)) = false →
       UploadService.getFolderPath (Some B) w = (Ok (folder_path fb), w1))
  ∧ (∀ file fileInfo options w entity w',
       UploadService.formatFileInfo file fileInfo options w = (Ok entity, w') →
       ∃ p w2,
         UploadService.getFolderPath (Js.or_str (fi_folder fileInfo) (fo_folder options))
           (draw w) = (Ok p, w2)
         ∧ folderPath entity = Some p
         ∧ folder entity = Js.or_str (fi_folder fileInfo) (fo_folder options))
  ∧ (∀ file fileInfo options B fb w entity w',
       Js.or_str (fi_folder fileInfo) (fo_folder options) = Some B →
       Js.falsy_str (Some B) = false →
       db_folders w !! B = Some fb →
       Js.falsy_str (Some (folder_path fb)) = false →
       fault (draw w) (FolderFindUnique B) = None →
       UploadService.formatFileInfo file fileInfo options w = (Ok entity, w') →
       folderPath entity = Some (folder_path fb) ∧ folder entity = Some B)
  ∧ (∀ tmpDir fileInfo options file w s w',
       Js.falsy_str (Js.or_str (fi_folder fileInfo) (uo_folder options)) = true →
       UploadService.uploadOne tmpDir fileInfo options file w = (Ok s, w') →
       stored w' s ∧ folderPath s = Some "/")
  ∧ (∀ tmpDir fileInfo options file B fb w s w',
       Js.or_str (fi_folder fileInfo) (uo_folder options) = Some B →
       Js.falsy_str (Some B) = false →
       db_folders w !! B = Some fb →
       Js.falsy_str (Some (folder_path fb)) = false →
       reliable (FolderFindUnique B) →
       UploadService.uploadOne tmpDir fileInfo options file w = (Ok s, w') →
       stored w' s ∧ folderPath s = Some (folder_path fb) ∧ folder s = Some B).
Proof.
  assert (∀ file fileInfo options w entity w',
            Js.falsy_str (Js.or_str (fi_folder fileInfo) (fo_folder options)) = true →
            UploadService.formatFileInfo file fileInfo options w = (Ok entity, w') →
            folderPath entity = Some "/") as Hroot.
  { intros file fileInfo options w entity w' Hnone Hrun.
    apply formatFileInfo_folderPath in Hrun as (p & w2 & Hpath & -> & _).
    unfold UploadService.getFolderPath in Hpath. rewrite Hnone in Hpath.
    by injection Hpath as <- _. }
  split_and!.
  - done.
  - exact Hroot.
  - intros nm w Hok. do 2 eexists. split; [by apply createFolder_root |].
    split; [done |]. simpl. apply lookup_insert_eq.
  - intros nm A pa w w1 HA Hget Hok.
    pose proof (createFolder_child nm A pa w w1 HA Hget Hok) as Hrun. cbv zeta in Hrun.
    destruct (fresh_id_spec (db_folders w1)) as [_ Hid].
    set (i := fresh ({[EmptyString]} ∪ dom (db_folders w1))) in *.
    set (row := {| folder_id := i; folder_name := nm;
                   folder_path := folder_path pa ++ "/" ++ nm;
                   folder_parent := Some A |}) in *.
    eexists row, _. split; [exact Hrun |].
    split_and!; try done.
    + simpl. apply lookup_insert_eq.
    + intros Hfind. eexists.
      apply (getFolderPath_found i row); [done | |].
      * rewrite getFolder_run by done. simpl. rewrite lookup_insert_eq. simpl.
        unfold DatabaseService.folder_view. simpl. by destruct A.
      * simpl. by destruct (folder_path pa).
  - apply getFolderPath_found.
  - apply formatFileInfo_folderPath.
  - apply formatFileInfo_into_folder.
  - intros tmpDir fileInfo options file w s w' Hnone Hrun.
    split; [by eapply uploadOne_ok |].
    apply uploadOne_entity in Hrun as (w1 & entity & w2 & _ & Hfmt & -> & _).
    exact (Hroot file fileInfo
             {| fo_folder := uo_folder options; fo_tmpWorkingDirectory := Some tmpDir |}
             w1 entity w2 Hnone Hfmt).
  - intros tmpDir fileInfo options file B fb w s w' HB Hne Hrow Hpath Hfind Hrun.
    split; [by eapply uploadOne_ok |].
    apply uploadOne_entity in Hrun as (w1 & entity & w2 & [_ Hfolders] & Hfmt & -> & ->).
    apply (formatFileInfo_into_folder _ _ _ B fb) in Hfmt;
      [done | done | done | by rewrite <-Hfolders | done | apply Hfind].
Qed.

End folders.

(** ** Deleting a folder *)

Section deleteFolder.
Context `{Faults}.

Lemma count_zero {V} (P : string * V → Prop) `{!∀ x, Decision (P x)} (m : gmap string V) :
  (0 <? base.size (filter P m))%nat = false ↔ ∀ k v, m !! k = Some v → ¬ P (k, v).
Proof.
  rewrite Nat.ltb_ge, Nat.le_0_r, map_size_empty_iff, map_empty_filter. done.
Qed.

Lemma count_positive {V} (P : string * V → Prop) `{!∀ x, Decision (P x)} (m : gmap string V) :
  (0 <? base.size (filter P m))%nat = true ↔ ∃ k v, m !! k = Some v ∧ P (k, v).
Proof.
  destruct (0 <? _)%nat eqn:E.
  - split; [intros _ | done].
    apply Nat.ltb_lt in E.
    destruct (map_choose (filter P m)) as (k & v & Hkv).
    { intros Hempty. rewrite Hempty, map_size_empty in E. lia. }
    apply map_lookup_filter_Some in Hkv. eauto.
  - split; [done |]. intros (k & v & Hk & HP).
    by destruct (proj1 (count_zero P m) E k v Hk).
Qed.

(** C8. A folder with no file and no subfolder in it is deleted and its
    record removed; a folder with a direct file or subfolder child is
    refused: [deleteFolder] throws, with the message naming the children
    found (files are looked for first), and the tables, the backend and
    the temporary directories are left as they were. *)
Theorem deleteFolder_refused_while_children i w :
  (∀ row,
     db_folders w !! i = Some row →
     ¬ file_child w i → ¬ subfolder_child w i →
     fault w (FileCount i) = None →
     fault (record_op (FileCount i) w) (FolderCount i) = None →
     fault (record_op (FolderCount i) (record_op (FileCount i) w)) (FolderDelete i) = None →
     ∃ w',
       DatabaseService.deleteFolder i w = (Ok true, w')
       ∧ db_folders w' = delete i (db_folders w)
       ∧ db_folders w' !! i = None
       ∧ db_files w' = db_files w)
  ∧ (file_child w i ∨ subfolder_child w i →
     ∃ e w',
       DatabaseService.deleteFolder i w = (Throw e, w')
       ∧ same_stores w w'
       ∧ (file_child w i → fault w (FileCount i) = None →
          e = Error "Cannot delete folder that contains files")
       ∧ (¬ file_child w i → fault w (FileCount i) = None →
          fault (record_op (FileCount i) w) (FolderCount i) = None →
          e = Error "Cannot delete folder that contains subfolders")).
Proof.
  unfold DatabaseService.deleteFolder, Prisma.file_count, Prisma.folder_count,
    Prisma.folder_delete, try_catch, bind, attempt, get_world, modify, ret, throw, log.
  split.
  - intros row Hrow Hnf Hns -> Hf2 Hf3. simpl.
    assert ((0 <? base.size (filter (λ kv, folder kv.2 = Some i) (db_files w)))%nat = false)
      as ->.
    { apply count_zero. intros k f Hk Hf. apply Hnf. by exists k, f. }
    rewrite Hf2. simpl.
    assert ((0 <? base.size (filter (λ kv, folder_parent kv.2 = Some i) (db_folders w)))%nat
            = false) as ->.
    { apply count_zero. intros k g Hk Hg. apply Hns. by exists k, g. }
    rewrite Hf3. simpl. rewrite Hrow. simpl.
    eexists. split; [done |]. simpl. split_and!; try done. apply lookup_delete_eq.
  - intros Hchild.
    destruct (fault w (FileCount i)) as [e1|] eqn:E1; simpl.
    { do 2 eexists. split; [done |]. split_and!; done. }
    destruct (0 <? base.size (filter (λ kv, folder kv.2 = Some i) (db_files w)))%nat
      eqn:Efiles; simpl.
    { do 2 eexists. split; [done |]. split_and!; try done.
      intros Hnf. apply count_positive in Efiles as (k & f & ? & ?).
      destruct Hnf. by exists k, f. }
    assert (¬ file_child w i) as Hnf.
    { intros (k & f & Hk & Hf). by destruct (proj1 (count_zero _ _) Efiles k f Hk). }
    destruct Hchild as [|Hsub]; [done |].
    destruct (fault (record_op (FileCount i) w) (FolderCount i)) as [e2|] eqn:E2; simpl.
    { do 2 eexists. split; [done |]. split_and!; done. }
    assert ((0 <? base.size (filter (λ kv, folder_parent kv.2 = Some i) (db_folders w)))%nat
            = true) as ->.
    { apply count_positive. destruct Hsub as (k & g & ? & ?). by exists k, g. }
    simpl. do 2 eexists. split; [done |]. split_and!; done.
Qed.

End deleteFolder.

(** ** Concurrent deletions *)

Section tasks.
Context {A : Type}.

Lemma task_never_bind {X} (bad : A) (t : Task X) (k : X → Task A) :
  (∀ x, task_never bad (k x)) → task_never bad (bindT t k).
Proof.
  intros Hk. induction t as [[x|e]|Y io c IH]; simpl; [done | done |].
  intros x. apply IH.
Qed.

Lemma task_never_catch (bad : A) (t : Task A) (h : JsError → Task A) :
  task_never bad t → (∀ e, task_never bad (h e)) → task_never bad (catchT t h).
Proof.
  intros Ht Hh. induction t as [[x|e]|Y io c IH]; simpl in *; [done | done |].
  intros x. by apply IH.
Qed.

Lemma run_task_never (bad : A) (t : Task A) w :
  task_never bad t → (run_task t w).1 ≠ Ok bad.
Proof.
  revert w. induction t as [r|Y io c IH]; simpl; intros w Ht; [done |].
  destruct (io w) as [x w1]. by apply IH.
Qed.

Lemma step_task_never (bad : A) (t : Task A) w :
  task_never bad t → task_never bad (step_task t w).1.
Proof.
  destruct t as [r|Y io c]; simpl; [done |]. intros Ht.
  destruct (io w) as [x w1]. apply Ht.
Qed.

Lemma step_nth_never (bad : A) i (ts : list (Task A)) w :
  Forall (task_never bad) ts → Forall (task_never bad) (step_nth i ts w).1.
Proof.
  revert i w. induction ts as [|t ts IH]; intros i w; simpl; [done |].
  intros [Ht Hts]%Forall_cons. destruct i as [|i].
  - pose proof (step_task_never bad t w Ht). destruct (step_task t w).
    simpl in *. by constructor.
  - specialize (IH i w Hts). destruct (step_nth i ts w). simpl in *. by constructor.
Qed.

Lemma step_nth_length i (ts : list (Task A)) w :
  List.length (step_nth i ts w).1 = List.length ts.
Proof.
  revert i w. induction ts as [|t ts IH]; intros i w; simpl; [done |].
  destruct i as [|i].
  - by destruct (step_task t w).
  - specialize (IH i w). destruct (step_nth i ts w). simpl in *. by rewrite IH.
Qed.

Lemma interleave_never (bad : A) sched (ts : list (Task A)) w :
  Forall (task_never bad) ts → Forall (task_never bad) (interleave sched ts w).1.
Proof.
  revert ts w. induction sched as [|i sched IH]; intros ts w Hts; simpl; [done |].
  pose proof (step_nth_never bad i ts w Hts). destruct (step_nth i ts w). by apply IH.
Qed.

Lemma interleave_length sched (ts : list (Task A)) w :
  List.length (interleave sched ts w).1 = List.length ts.
Proof.
  revert ts w. induction sched as [|i sched IH]; intros ts w; simpl; [done |].
  pose proof (step_nth_length i ts w). destruct (step_nth i ts w) as [ts' w'].
  rewrite IH. done.
Qed.

Lemma settle_never (bad : A) (ts : list (Task A)) w :
  Forall (task_never bad) ts → Forall (λ r, r ≠ Ok bad) (settle ts w).1.
Proof.
  revert w. induction ts as [|t ts IH]; intros w; simpl; [done |].
  intros [Ht Hts]%Forall_cons.
  pose proof (run_task_never bad t w Ht). destruct (run_task t w) as [r w1].
  specialize (IH w1 Hts). destruct (settle ts w1). simpl in *. by constructor.
Qed.

Lemma settle_length (ts : list (Task A)) w :
  List.length (settle ts w).1 = List.length ts.
Proof.
  revert w. induction ts as [|t ts IH]; intros w; simpl; [done |].
  destruct (run_task t w) as [r w1]. specialize (IH w1).
  destruct (settle ts w1). simpl in *. by rewrite IH.
Qed.

(** Each task is run to its end from the world the tasks before it left,
    whatever their outcomes were. *)
Lemma settle_app (ts1 : list (Task A)) t ts2 w :
  settle (ts1 ++ t :: ts2) w
  = let '(rs1, w1) := settle ts1 w in
    let '(r, w2) := run_task t w1 in
    let '(rs2, w3) := settle ts2 w2 in
    ((rs1 ++ r :: rs2)%list, w3).
Proof.
  revert w. induction ts1 as [|t1 ts1 IH]; intros w; simpl.
  - destruct (run_task t w) as [r w2]. by destruct (settle ts2 w2).
  - destruct (run_task t1 w) as [r1 w1]. rewrite IH.
    destruct (settle ts1 w1) as [rs1 w1']. destruct (run_task t w1') as [r w2].
    by destruct (settle ts2 w2).
Qed.

Lemma allSettled_run sched (ts : list (Task A)) w :
  ∃ rs w', allSettled sched ts w = (Ok rs, w') ∧ List.length rs = List.length ts.
Proof.
  unfold allSettled.
  pose proof (interleave_length sched ts w) as Hlen.
  destruct (interleave sched ts w) as [ts' w1].
  pose proof (settle_length ts' w1) as Hlen'.
  destruct (settle ts' w1) as [rs w2]. exists rs, w2. simpl in *. split; [done | congruence].
Qed.

Lemma allSettled_never (bad : A) sched (ts : list (Task A)) w rs w' :
  Forall (task_never bad) ts →
  allSettled sched ts w = (Ok rs, w') → Forall (λ r, r ≠ Ok bad) rs.
Proof.
  unfold allSettled. intros Hts.
  pose proof (interleave_never bad sched ts w Hts) as Hts'.
  destruct (interleave sched ts w) as [ts' w1].
  pose proof (settle_never bad ts' w1 Hts') as Hrs.
  destruct (settle ts' w1) as [rs' w2]. by intros [= <- _].
Qed.

Lemma fulfilled_or_rejected (rs : list (Result A)) :
  (List.length (filter (λ r, fulfilled r = true) rs)
   + List.length (filter (λ r, rejected r = true) rs))%nat = List.length rs.
Proof.
  induction rs as [|[a|e] rs IH]; [done | |].
  - rewrite filter_cons_True, filter_cons_False by done. simpl. lia.
  - rewrite filter_cons_False, filter_cons_True by done. simpl. lia.
Qed.

End tasks.

Section deleteFile.
Context `{Config} `{NodeLib} `{Sharp} `{Faults} `{StorageProvider}.

Lemma deleteFile_task_never_false i : task_never false (UploadService.deleteFile i).
Proof.
  unfold UploadService.deleteFile. apply task_never_bind. intros [file|]; [|done].
  apply task_never_catch.
  - repeat (apply task_never_bind; intros ?). done.
  - intros e. apply task_never_bind. intros _. done.
Qed.

Lemma database_deleteFile_true i w b w' :
  DatabaseService.deleteFile i w = (Ok b, w') → b = true.
Proof.
  intros Hrun. apply try_catch_rethrow_ok in Hrun.
  - by apply bind_ok_inv in Hrun as (_ & w1 & _ & [= <- _]).
  - intros e w1. by do 2 eexists.
Qed.

Lemma deleteFile_run i w :
  run_task (UploadService.deleteFile i) w
  = match DatabaseService.getFile i w with
    | (Throw e, w1) => (Throw e, w1)
    | (Ok None, w1) => (Throw (Error "File not found"), w1)
    | (Ok (Some file), w1) =>
        match StorageProviderService.delete file w1 with
        | (Throw e, w2) => (Throw e, add_log delete_failed_entry w2)
        | (Ok _, w2) =>
            match DatabaseService.deleteFile i w2 with
            | (Throw e, w3) => (Throw e, add_log delete_failed_entry w3)
            | (Ok _, w3) => (Ok true, add_log deleted_entry w3)
            end
        end
    end.
Proof.
  unfold UploadService.deleteFile. simpl.
  destruct (DatabaseService.getFile i w) as [[[file|]|e] w1]; simpl; [|done|done].
  destruct (StorageProviderService.delete file w1) as [[[]|e] w2]; simpl; [|done].
  by destruct (DatabaseService.deleteFile i w2) as [[b|e] w3].
Qed.

(** C10. [UploadService.deleteFile] never returns false, run alone or
    among other deletions: an id with no record throws "File not found";
    a fulfilled deletion returned true after the backend delete and the
    metadata delete both succeeded; a failure of either is rethrown.  So
    the handler never takes the branch that answers 404. *)
Theorem deleteFile_never_returns_false :
  (∀ i w, (run_task (UploadService.deleteFile i) w).1 ≠ Ok false)
  ∧ (∀ sched ids w results w',
       allSettled sched (map UploadService.deleteFile ids) w = (Ok results, w') →
       Forall (λ r, r ≠ Ok false) results)
  ∧ (∀ i w w1,
       DatabaseService.getFile i w = (Ok None, w1) →
       run_task (UploadService.deleteFile i) w = (Throw (Error "File not found"), w1))
  ∧ (∀ i w b w',
       run_task (UploadService.deleteFile i) w = (Ok b, w') →
       b = true
       ∧ ∃ file w1 w2 w3,
           DatabaseService.getFile i w = (Ok (Some file), w1)
           ∧ StorageProviderService.delete file w1 = (Ok tt, w2)
           ∧ DatabaseService.deleteFile i w2 = (Ok true, w3)
           ∧ w' = add_log deleted_entry w3)
  ∧ (∀ i w file w1 w2 w3,
       DatabaseService.getFile i w = (Ok (Some file), w1) →
       StorageProviderService.delete file w1 = (Ok tt, w2) →
       DatabaseService.deleteFile i w2 = (Ok true, w3) →
       run_task (UploadService.deleteFile i) w = (Ok true, add_log deleted_entry w3))
  ∧ (∀ i w file w1 e w2,
       DatabaseService.getFile i w = (Ok (Some file), w1) →
       StorageProviderService.delete file w1 = (Throw e, w2) →
       run_task (UploadService.deleteFile i) w = (Throw e, add_log delete_failed_entry w2))
  ∧ (∀ i w file w1 w2 e w3,
       DatabaseService.getFile i w = (Ok (Some file), w1) →
       StorageProviderService.delete file w1 = (Ok tt, w2) →
       DatabaseService.deleteFile i w2 = (Throw e, w3) →
       run_task (UploadService.deleteFile i) w = (Throw e, add_log delete_failed_entry w3))
  ∧ (∀ i w, ∃ resp w',
       FileRoutes.delete_file i w = (Ok resp, w') ∧ status resp ≠ 404).
Proof.
  split_and!.
  - intros i w. apply run_task_never, deleteFile_task_never_false.
  - intros sched ids w results w'. apply allSettled_never.
    apply Forall_map, Forall_forall. intros i _. apply deleteFile_task_never_false.
  - intros i w w1 Hget. by rewrite deleteFile_run, Hget.
  - intros i w b w'. rewrite deleteFile_run.
    destruct (DatabaseService.getFile i w) as [[[file|]|e] w1] eqn:Hget; [|done|done].
    destruct (StorageProviderService.delete file w1) as [[[]|e] w2] eqn:Hst; [|done].
    destruct (DatabaseService.deleteFile i w2) as [[b'|e] w3] eqn:Hdel; [|done].
    intros [= <- <-]. split; [done |].
    apply database_deleteFile_true in Hdel as Hb. subst b'. by exists file, w1, w2, w3.
  - intros i w file w1 w2 w3 Hget Hdel Hdb. by rewrite deleteFile_run, Hget, Hdel, Hdb.
  - intros i w file w1 e w2 Hget Hdel. by rewrite deleteFile_run, Hget, Hdel.
  - intros i w file w1 w2 e w3 Hget Hdel Hdb. by rewrite deleteFile_run, Hget, Hdel, Hdb.
  - intros i w. unfold FileRoutes.delete_file, try_catch.
    destruct (String.eqb i EmptyString); [by do 2 eexists |].
    unfold bind.
    pose proof (run_task_never false (UploadService.deleteFile i) w
                  (deleteFile_task_never_false i)) as Hnever.
    destruct (run_task (UploadService.deleteFile i) w) as [[[]|e] w1]; simpl in *.
    + by do 2 eexists.
    + by destruct Hnever.
    + by do 2 eexists.
Qed.

(** C7. Bulk deletion reports every outcome and raises nothing: whatever
    the order in which the awaited operations of the deletions complete,
    for a non-empty id list the handler answers 200 with the number of
    fulfilled deletions, the number of rejected ones and the length of the
    list, the first two adding up to the third; with three ids of which
    exactly the second is rejected that is 2, 1 and 3.  A rejection does
    not cancel the others: when the deletions complete one after the
    other, each is run to its end from the world the ones before it left,
    whatever their outcomes. *)
Theorem bulk_delete_reports_every_outcome sched i ids' w :
  ∃ results w',
    allSettled sched (map UploadService.deleteFile (i :: ids')) w = (Ok results, w')
    ∧ List.length results = List.length (i :: ids')
    ∧ FileRoutes.bulk_delete sched (IdsArray (i :: ids')) w
      = (Ok {| status := 200; success := true;
               data := Some {| successful := List.length (filter (λ r, fulfilled r = true) results);
                               failed := List.length (filter (λ r, rejected r = true) results);
                               total := List.length (i :: ids') |};
               error := None;
               response_message :=
                 Some (FileRoutes.bulk_message
                         (List.length (filter (λ r, fulfilled r = true) results))
                         (List.length (filter (λ r, rejected r = true) results))) |},
         w')
    ∧ (List.length (filter (λ r, fulfilled r = true) results)
       + List.length (filter (λ r, rejected r = true) results))%nat
      = List.length (i :: ids')
    ∧ (∀ a e c,
         results = [Ok a; Throw e; Ok c] →
         List.length (filter (λ r, fulfilled r = true) results) = 2%nat
         ∧ List.length (filter (λ r, rejected r = true) results) = 1%nat
         ∧ List.length (i :: ids') = 3%nat)
    ∧ (∀ ids1 j ids2 w0,
         allSettled [] (map UploadService.deleteFile (ids1 ++ j :: ids2)) w0
         = let '(rs1, w1) := settle (map UploadService.deleteFile ids1) w0 in
           let '(r, w2) := run_task (UploadService.deleteFile j) w1 in
           let '(rs2, w3) := settle (map UploadService.deleteFile ids2) w2 in
           (Ok (rs1 ++ r :: rs2)%list, w3)).
Proof.
  destruct (allSettled_run sched (map UploadService.deleteFile (i :: ids')) w)
    as (results & w' & Hrun & Hlen).
  rewrite length_map in Hlen.
  exists results, w'. split_and!; try done.
  - unfold FileRoutes.bulk_delete, try_catch. erewrite bind_ok; [|exact Hrun]. done.
  - by rewrite fulfilled_or_rejected.
  - intros a e c ->. split_and!; [done | done |]. by rewrite <-Hlen.
  - intros ids1 j ids2 w0. unfold allSettled. cbn [interleave].
    rewrite List.map_app. cbn [List.map]. rewrite settle_app.
    destruct (settle (map UploadService.deleteFile ids1) w0) as [rs1 w1].
    destruct (run_task (UploadService.deleteFile j) w1) as [r w2].
    by destruct (settle (map UploadService.deleteFile ids2) w2) as [rs2 w3].
Qed.

End deleteFile.

(** * The statements on concrete requests *)

(** A batch of three files whose second is too large: the first is kept,
    the third is never looked at. *)
Lemma uploadFiles_fail_fast_witness :
  ∃ w4,
    @UploadService.uploadFiles Scenario.config Scenario.node Scenario.sharp
      Scenario.no_faults Scenario.local_provider
      [Scenario.notes_txt; Scenario.huge_txt; Scenario.narrow_png]
      Scenario.no_info UploadService.no_upload_options Scenario.empty_world
    = (Throw (Error "File size 20000000 exceeds maximum allowed size 10485760"), w4)
    ∧ (∃ s, stored w4 s ∧ name s = "notes.txt")
    ∧ tmpdirs w4 = ∅.
Proof.
  edestruct (@uploadFiles_fail_fast Scenario.config Scenario.node Scenario.sharp
               Scenario.no_faults Scenario.local_provider
               [Scenario.notes_txt] Scenario.huge_txt [Scenario.narrow_png]
               Scenario.no_info UploadService.no_upload_options Scenario.empty_world)
    as (w4 & Hrun & Hw4 & Hlen & Hst & Hdb & Hno).
  - vm_compute. reflexivity.
  - vm_compute. reflexivity.
  - vm_compute. reflexivity.
  - exists w4. split; [exact Hrun |]. split.
    + apply Forall_cons in Hst as [Hs _]. eexists. split; [exact Hs | reflexivity].
    + rewrite Hw4. vm_compute. reflexivity.
Defined.

(** The directory is gone after a failed batch, and a removal that fails
    costs a warning only. *)
Lemma uploadFiles_cleanup_witness :
  (∃ w3,
     @UploadService.uploadFiles Scenario.config Scenario.node Scenario.sharp
       Scenario.no_faults Scenario.local_provider [Scenario.huge_txt]
       Scenario.no_info UploadService.no_upload_options Scenario.empty_world
     = (Throw (Error "File size 20000000 exceeds maximum allowed size 10485760"), w3)
     ∧ "/tmp/media-upload-Xq30" ∉ tmpdirs w3)
  ∧ (∃ saved w3 l,
       @UploadService.uploadFiles Scenario.config Scenario.node Scenario.sharp
         Scenario.remove_fails Scenario.local_provider [Scenario.notes_txt]
         Scenario.no_info UploadService.no_upload_options Scenario.empty_world
       = (Ok saved, w3)
       ∧ logs w3 = (l ++ [cleanup_warning])%list).
Proof.
  split.
  - edestruct (@uploadFiles_cleanup Scenario.config Scenario.node Scenario.sharp
                 Scenario.no_faults Scenario.local_provider [Scenario.huge_txt]
                 Scenario.no_info UploadService.no_upload_options Scenario.empty_world)
      as (Hin & w3 & Hrun & Htrace & Hdb & Hobj & Hfault).
    + vm_compute. reflexivity.
    + vm_compute. reflexivity.
    + exists w3. split; [exact Hrun | exact (proj1 Hfault)].
  - edestruct (@uploadFiles_cleanup Scenario.config Scenario.node Scenario.sharp
                 Scenario.remove_fails Scenario.local_provider [Scenario.notes_txt]
                 Scenario.no_info UploadService.no_upload_options Scenario.empty_world)
      as (Hin & w3 & Hrun & Htrace & Hdb & Hobj & Hfault).
    + vm_compute. reflexivity.
    + vm_compute. reflexivity.
    + eexists _, w3, _. split; [exact Hrun | exact (proj2 Hfault)].
Defined.

(** A source 300 pixels wide, the default breakpoints. *)
Lemma generateResponsiveImages_witness :
  ∃ responsive w' out,
    @ImageProcessingService.generateResponsiveImages Scenario.sharp
      (Scenario.entity_of Scenario.narrow_png "narrow_1" ".png")
      [480; 768; 1024; 1920] Scenario.empty_world
    = (Ok responsive, w')
    ∧ responsive !! "w480" = Some out
    ∧ info_width (info out) = 300.
Proof.
  destruct (@generateResponsiveImages_never_raises Scenario.sharp
              (Scenario.entity_of Scenario.narrow_png "narrow_1" ".png")
              [480; 768; 1024; 1920] Scenario.empty_world)
    as (responsive & Hrun & Hkeys & Hlookup & _).
  specialize (Hlookup 480 (list_elem_of_here _ _)).
  eexists responsive, _, _. split; [exact Hrun |]. split; [exact Hlookup | reflexivity].
Defined.

(** C3 as written fails on that request: sharp keeps the source width
    when enlargement is disallowed instead of failing, so no breakpoint is
    skipped although each is wider than the source. *)
Lemma responsive_breakpoints_not_skipped :
  @sharp_metadata Scenario.sharp "./uploads/narrow"
  = Ok {| md_width := Some 300; md_height := Some 200 |}
  ∧ ∃ responsive w',
      @ImageProcessingService.generateResponsiveImages Scenario.sharp
        (Scenario.entity_of Scenario.narrow_png "narrow_1" ".png")
        [480; 768; 1024; 1920] Scenario.empty_world
      = (Ok responsive, w')
      ∧ dom responsive = {["w480"; "w768"; "w1024"; "w1920"]}
      ∧ ¬ (∀ b, b ∈ [480; 768; 1024; 1920] → 300 ≤ b →
                responsive !! ImageProcessingService.breakpoint_key b = None).
Proof.
  split; [reflexivity |]. eexists _, _. split; [vm_compute; reflexivity |]. split.
  - vm_compute. reflexivity.
  - intros Hskip. specialize (Hskip 480 (list_elem_of_here _ _)).
    vm_compute in Hskip. discriminate Hskip. discriminate.
Defined.

(** A jpeg is handed to the jpeg encoder with the configured quality. *)
Lemma optimizeImage_witness :
  ∃ enc,
    encoder_format enc = "jpeg"
    ∧ @ImageProcessingService.optimizeImage Scenario.config Scenario.sharp
        (Scenario.entity_of Scenario.tight_jpeg "tight_1" ".jpeg")
        {| opt_quality := None; opt_progressive := None; opt_format := None |}
        Scenario.empty_world
      = (@sharp_toBuffer Scenario.sharp "./uploads/tight"
           {| pl_resize := None; pl_encoder := Some enc |},
         Scenario.empty_world).
Proof.
  destruct (@optimizeImage_returns_library_output Scenario.config Scenario.sharp
              (Scenario.entity_of Scenario.tight_jpeg "tight_1" ".jpeg")
              {| opt_quality := None; opt_progressive := None; opt_format := None |}
              "./uploads/tight" Scenario.empty_world eq_refl eq_refl)
    as [Hopt _].
  destruct (Hopt eq_refl) as (enc & _ & Hfmt & Hrun).
  exists enc. split; [exact Hfmt | exact Hrun].
Defined.

(** C4 as written fails on both halves: encoding a small jpeg
    afresh gives more bytes than the file had, and a gif, which has no
    optimizer, still goes through the library and comes back with other
    bytes than the file holds. *)
Lemma optimizeImage_output_differs :
  (∃ out w',
     @ImageProcessingService.optimizeImage Scenario.config Scenario.sharp
       (Scenario.entity_of Scenario.tight_jpeg "tight_1" ".jpeg")
       {| opt_quality := None; opt_progressive := None; opt_format := None |}
       Scenario.empty_world
     = (Ok out, w')
     ∧ ImageProcessingService.isOptimizableFormat "jpeg" = true
     ∧ size (Scenario.entity_of Scenario.tight_jpeg "tight_1" ".jpeg")
       = N.of_nat (List.length (@fs_bytes Scenario.node "./uploads/tight"))
     ∧ ¬ (info_size (info out)
          ≤ size (Scenario.entity_of Scenario.tight_jpeg "tight_1" ".jpeg")))
  ∧ (∃ out w',
       @ImageProcessingService.optimizeImage Scenario.config Scenario.sharp
         (Scenario.entity_of Scenario.anim_gif "anim_1" ".gif")
         {| opt_quality := None; opt_progressive := None; opt_format := None |}
         Scenario.empty_world
       = (Ok out, w')
       ∧ ImageProcessingService.isOptimizableFormat "gif" = false
       ∧ buffer out ≠ @fs_bytes Scenario.node "./uploads/anim").
Proof.
  split.
  - eexists _, _. split; [vm_compute; reflexivity |].
    split; [reflexivity |]. split; [reflexivity |]. vm_compute. intros Hle. by apply Hle.
  - eexists _, _. split; [vm_compute; reflexivity |].
    split; [reflexivity |]. vm_compute. discriminate.
Defined.

(** A png whose optimized copy is smaller: the size is updated. *)
Lemma processImage_size_witness :
  ∃ p w',
    @ImageProcessingService.processImage Scenario.config Scenario.sharp
      (Scenario.entity_of Scenario.narrow_png "narrow_1" ".png") None Scenario.empty_world
    = (Ok p, w')
    ∧ p_size p = Some 6
    ∧ size (assign (Scenario.entity_of Scenario.narrow_png "narrow_1" ".png") p) ≤ 8.
Proof.
  edestruct (@processImage_size Scenario.config Scenario.sharp
               (Scenario.entity_of Scenario.narrow_png "narrow_1" ".png") None
               Scenario.empty_world)
    as (Honly & Hle & Hsame & Hnone).
  - vm_compute. reflexivity.
  - eexists _, _. split; [vm_compute; reflexivity |]. split; [reflexivity | exact Hle].
Defined.

(** A folder created under [/photos], a lookup of it, and a file uploaded
    into [/photos/2024]. *)
Lemma folder_path_resolution_witness :
  (∃ fld w' w'',
     @DatabaseService.createFolder Scenario.no_faults "2025" (Some "f1") Scenario.library
     = (Ok fld, w')
     ∧ folder_path fld = "/photos/2025"
     ∧ @UploadService.getFolderPath Scenario.no_faults (Some (folder_id fld)) w'
       = (Ok "/photos/2025", w''))
  ∧ (∃ s w',
       @UploadService.uploadOne Scenario.config Scenario.node Scenario.sharp
         Scenario.no_faults Scenario.local_provider "/tmp/media-upload-Xq30"
         Scenario.no_info
         {| uo_folder := Some "f2"; processingOptions := None; validationOptions := None |}
         Scenario.notes_txt Scenario.library
       = (Ok s, w')
       ∧ stored w' s
       ∧ folderPath s = Some "/photos/2024").
Proof.
  destruct (@folder_path_resolution Scenario.config Scenario.node Scenario.sharp
              Scenario.no_faults Scenario.local_provider)
    as (_ & _ & _ & Hchild & _ & _ & _ & _ & Hupload).
  split.
  - destruct (Hchild "2025" "f1"
                {| folder_id := "f1"; folder_name := "photos"; folder_path := "/photos";
                   folder_parent := None |}
                Scenario.library (record_op (FolderFindUnique "f1") Scenario.library))
      as (fld & w' & Hrun & Hpath & _ & _ & _ & Hlookup).
    + reflexivity.
    + vm_compute. reflexivity.
    + reflexivity.
    + destruct (Hlookup eq_refl) as (w'' & Hget).
      exists fld, w', w''. split; [exact Hrun |]. split; [exact Hpath | exact Hget].
  - destruct (@UploadService.uploadOne Scenario.config Scenario.node Scenario.sharp
                Scenario.no_faults Scenario.local_provider "/tmp/media-upload-Xq30"
                Scenario.no_info
                {| uo_folder := Some "f2"; processingOptions := None;
                   validationOptions := None |}
                Scenario.notes_txt Scenario.library) as [r w'] eqn:Hrun.
    assert (∃ s, r = Ok s) as [s ->].
    { apply (f_equal fst) in Hrun. simpl in Hrun. rewrite <-Hrun. eexists.
      vm_compute. reflexivity. }
    destruct (Hupload "/tmp/media-upload-Xq30" Scenario.no_info
                {| uo_folder := Some "f2"; processingOptions := None;
                   validationOptions := None |}
                Scenario.notes_txt "f2"
                {| folder_id := "f2"; folder_name := "2024";
                   folder_path := "/photos/2024"; folder_parent := Some "f1" |}
                Scenario.library s w') as (Hstored & Hpath & _).
    + reflexivity.
    + reflexivity.
    + vm_compute. reflexivity.
    + reflexivity.
    + intros w. reflexivity.
    + exact Hrun.
    + exists s, w'. split; [reflexivity |]. split; [exact Hstored | exact Hpath].
Defined.

(** The empty folder goes; the folder holding a file stays. *)
Lemma deleteFolder_witness :
  (∃ w',
     @DatabaseService.deleteFolder Scenario.no_faults "f3" Scenario.library = (Ok true, w')
     ∧ db_folders w' !! "f3" = None)
  ∧ (∃ w',
       @DatabaseService.deleteFolder Scenario.no_faults "f2" Scenario.library
       = (Throw (Error "Cannot delete folder that contains files"), w')
       ∧ db_folders w' = db_folders Scenario.library
       ∧ db_files w' = db_files Scenario.library).
Proof.
  split.
  - destruct (@deleteFolder_refused_while_children Scenario.no_faults "f3" Scenario.library)
      as [Hok _].
    edestruct Hok as (w' & Hrun & _ & Hgone & _).
    + vm_compute. reflexivity.
    + intros (k & f & Hk & Hf).
      pose proof (proj1 (count_zero (λ kv : string * UploadableFile, folder kv.2 = Some "f3")
                           (db_files Scenario.library))) as Hnone.
      refine (Hnone _ k f Hk Hf). vm_compute. reflexivity.
    + intros (k & g & Hk & Hg).
      pose proof (proj1 (count_zero (λ kv : string * FileFolder, folder_parent kv.2 = Some "f3")
                           (db_folders Scenario.library))) as Hnone.
      refine (Hnone _ k g Hk Hg). vm_compute. reflexivity.
    + reflexivity.
    + reflexivity.
    + reflexivity.
    + exists w'. split; [exact Hrun | exact Hgone].
  - destruct (@deleteFolder_refused_while_children Scenario.no_faults "f2" Scenario.library)
      as [_ Hrefused].
    assert (file_child Scenario.library "f2") as Hchild.
    { exists "a", Scenario.file_a. split; reflexivity. }
    destruct (Hrefused (or_introl Hchild)) as (e & w' & Hrun & Hsame & Hfiles & _).
    rewrite (Hfiles Hchild eq_refl) in Hrun.
    exists w'. split; [exact Hrun |]. destruct Hsame as (? & ? & _). by split.
Defined.

(** Two draws, two hashes. *)
Lemma generateFileHash_witness :
  ∃ h1 h2 w1 w2,
    @UploadService.generateFileHash Scenario.node "notes" Scenario.empty_world = (Ok h1, w1)
    ∧ @UploadService.generateFileHash Scenario.node "notes" w1 = (Ok h2, w2)
    ∧ h1 ≠ h2.
Proof.
  destruct (@generateFileHash_unique_by_construction Scenario.node) as (_ & _ & Hdiff).
  eexists _, _, _, _. split; [reflexivity |]. split; [reflexivity |].
  eapply Hdiff; [reflexivity | reflexivity |]. vm_compute. discriminate.
Defined.

(** An unknown id: the service throws, the handler answers 400. *)
Lemma deleteFile_witness :
  (∃ w1,
     run_task (@UploadService.deleteFile Scenario.no_faults Scenario.local_provider "zzz")
       Scenario.library
     = (Throw (Error "File not found"), w1))
  ∧ (∃ resp w',
       @FileRoutes.delete_file Scenario.no_faults Scenario.local_provider "zzz"
         Scenario.library = (Ok resp, w')
       ∧ status resp ≠ 404).
Proof.
  destruct (@deleteFile_never_returns_false Scenario.no_faults Scenario.local_provider)
    as (_ & _ & Hmissing & _ & _ & _ & _ & Hresp).
  split.
  - eexists. apply Hmissing. vm_compute. reflexivity.
  - apply Hresp.
Defined.

(** Three ids, the backend refusing the second, the awaited operations
    completing out of order. *)
Lemma bulk_delete_witness :
  ∃ w',
    @FileRoutes.bulk_delete (Scenario.delete_fails_for "report_02") Scenario.local_provider
      [2; 0; 1; 1; 0; 2]%nat (IdsArray ["a"; "b"; "c"]) Scenario.library
    = (Ok {| status := 200; success := true;
             data := Some {| successful := 2; failed := 1; total := 3 |};
             error := None;
             response_message := Some "Bulk delete completed: 2 successful, 1 failed" |},
       w')
    ∧ db_files w' = {["b" := Scenario.file_b]}.
Proof.
  destruct (@bulk_delete_reports_every_outcome (Scenario.delete_fails_for "report_02")
              Scenario.local_provider [2; 0; 1; 1; 0; 2]%nat "a" ["b"; "c"] Scenario.library)
    as (results & w' & Hrun & _ & Hresp & _ & Hthree & _).
  vm_compute in Hrun. injection Hrun as <- <-.
  destruct (Hthree _ _ _ eq_refl) as (_ & _ & _).
  eexists. split; [exact Hresp |]. vm_compute. reflexivity.
Defined.

(** * Further properties

    Properties of the parts of the services the statements above do not
    reach: the storage addresses, the listing query, the validators, the
    error middleware, the single-file pipeline and the folder routes. *)

(** ** Strings *)

Lemma prefix_app p b : String.prefix p (p ++ b) = true.
Proof.
  induction p as [|c p IH]; simpl; [by destruct b |].
  by destruct (ascii_dec c c).
Qed.

Lemma includes_here p b : Js.includes (p ++ b) p = true.
Proof.
  destruct p as [|c p]; [by destruct b |].
  change (String c p ++ b) with (String c (p ++ b)). cbn [Js.includes].
  change (String c (p ++ b)) with (String c p ++ b). by rewrite prefix_app.
Qed.

Lemma includes_app_r a s p : Js.includes s p = true → Js.includes (a ++ s) p = true.
Proof.
  intros Hs. induction a as [|c a IH]; simpl; [done |]. rewrite IH. by rewrite orb_true_r.
Qed.

Lemma collapse_slashes_head c s : ∃ t, collapse_slashes (String c s) = String c t.
Proof.
  revert c. induction s as [|d s IH]; intros c; simpl; [by eexists |].
  destruct (Ascii.eqb c "/" && Ascii.eqb d "/") eqn:E; [|by eexists].
  apply andb_true_iff in E as [->%Ascii.eqb_eq ->%Ascii.eqb_eq]. apply IH.
Qed.

Lemma prefix_double_slash c s :
  String.prefix "//" (String c s)
  = Ascii.eqb c "/" && match s with
                       | String d _ => Ascii.eqb d "/"
                       | EmptyString => false
                       end.
Proof.
  cbn -[ascii_dec]. destruct (ascii_dec "/" c) as [<-|Hc].
  - destruct s as [|d s]; [done |]. cbn -[ascii_dec].
    destruct (ascii_dec "/" d) as [<-|Hd]; [by destruct s |].
    symmetry. apply Ascii.eqb_neq. congruence.
  - assert (Ascii.eqb c "/" = false) as -> by (apply Ascii.eqb_neq; congruence). done.
Qed.

Lemma collapse_slashes_cons c d s :
  collapse_slashes (String c (String d s))
  = if Ascii.eqb c "/" && Ascii.eqb d "/" then collapse_slashes (String d s)
    else String c (collapse_slashes (String d s)).
Proof. done. Qed.

Lemma collapse_slashes_no_double s : Js.includes (collapse_slashes s) "//" = false.
Proof.
  induction s as [|c s IH]; [done |].
  destruct s as [|d s].
  { cbn [collapse_slashes Js.includes]. rewrite prefix_double_slash.
    by rewrite andb_false_r. }
  rewrite collapse_slashes_cons.
  destruct (Ascii.eqb c "/" && Ascii.eqb d "/") eqn:E; [done |].
  cbn [Js.includes]. rewrite IH, orb_false_r, prefix_double_slash.
  by destruct (collapse_slashes_head d s) as [t ->].
Qed.

Lemma collapse_slashes_files x :
  Js.startsWith (collapse_slashes ("/files/" ++ x)) "/files/" = true.
Proof.
  destruct x as [|d x]; [done |].
  change (collapse_slashes ("/files/" ++ String d x))
    with ("/files" ++ collapse_slashes (String "/" (String d x))).
  rewrite collapse_slashes_cons. destruct (Ascii.eqb d "/") eqn:E.
  - apply Ascii.eqb_eq in E as ->. destruct (collapse_slashes_head "/" x) as [t ->].
    by destruct t.
  - destruct (collapse_slashes_head d x) as [t ->].
    assert (Ascii.eqb "/" "/" && false = false) as -> by done.
    by destruct t.
Qed.

(** ** The local provider *)

(** X1. The url the local provider writes on an entity starts with the mount
    point of the static files and has no empty path segment, whatever the
    folder path and hash are. *)
Theorem local_url_well_formed root f :
  Js.startsWith (@uploaded_url (LocalStorageProvider root) f) "/files/" = true
  ∧ Js.includes (@uploaded_url (LocalStorageProvider root) f) "//" = false.
Proof. split; [apply collapse_slashes_files | apply collapse_slashes_no_double]. Qed.

Lemma string_app_assoc (a b c : string) : (a ++ b) ++ c = a ++ b ++ c.
Proof.
  induction a as [|x a IH]; [done |].
  change (String x ((a ++ b) ++ c) = String x (a ++ b ++ c)). by rewrite IH.
Qed.

Lemma strip_leading_slash_app s t :
  s ≠ EmptyString → Js.strip_leading_slash (s ++ t) = Js.strip_leading_slash s ++ t.
Proof. destruct s as [|c s]; [done |]. intros _. simpl. by destruct (Ascii.eqb c "/"). Qed.

Lemma array_includes_elem_of l x : Js.array_includes l x = true ↔ x ∈ l.
Proof.
  unfold Js.array_includes. rewrite existsb_exists. split.
  - intros (y & Hy & ->%String.eqb_eq). by apply list_elem_of_In.
  - intros Hx. exists x. split; [by apply list_elem_of_In | apply String.eqb_refl].
Qed.

(** ** Storage addresses *)

(** X2. The S3 key of a file is its Cloudinary public id followed by the
    extension.  Both drop one leading slash only: under a folder path that
    starts with a slash the address is the rest of the path, a slash and the
    hash, so a file at the root path [/] is addressed with a leading slash;
    with no folder path the address is the bare hash. *)
Theorem storage_addresses f :
  getS3Key f = getPublicId f ++ ext f
  ∧ (∀ p, folderPath f = Some ("/" ++ p) → getPublicId f = p ++ "/" ++ hash f)
  ∧ (Js.falsy_str (folderPath f) = true → getPublicId f = hash f).
Proof.
  unfold getS3Key, getPublicId. split_and!.
  - rewrite <-strip_leading_slash_app.
    + by rewrite !string_app_assoc.
    + by destruct (default _ _).
  - by intros p ->.
  - by destruct (folderPath f) as [[|c s]|].
Qed.

Lemma local_addresses_by_triple root : @addresses_by_triple (LocalStorageProvider root).
Proof. intros f g Hp Hh He. simpl. unfold getFilePath. by rewrite Hp, Hh, He. Qed.

Lemma s3_addresses_by_triple bucket region location :
  @addresses_by_triple (S3StorageProvider bucket region location).
Proof. intros f g Hp Hh He. simpl. unfold getS3Key. by rewrite Hp, Hh, He. Qed.

Lemma cloudinary_addresses_by_triple secure_url :
  @addresses_by_triple (CloudinaryStorageProvider secure_url).
Proof. intros f g Hp Hh He. simpl. unfold getPublicId. by rewrite Hp, Hh. Qed.

(** ** The listing query *)

(** X3. [buildOrderByClause] orders by a whitelisted field in a whitelisted
    direction whatever [sort] is, and a [sort] made of a valid field, a
    colon and a valid direction is taken as it is. *)
Theorem buildOrderByClause_whitelist :
  (∀ sort,
     (DatabaseService.buildOrderByClause sort).1 ∈ DatabaseService.validFields
     ∧ (DatabaseService.buildOrderByClause sort).2 ∈ DatabaseService.validDirections)
  ∧ (∀ field direction,
       field ∈ DatabaseService.validFields →
       direction ∈ DatabaseService.validDirections →
       DatabaseService.buildOrderByClause (Some (field ++ ":" ++ direction))
       = (field, direction)).
Proof.
  split.
  - intros sort. unfold DatabaseService.buildOrderByClause.
    assert ("createdAt" ∈ DatabaseService.validFields
            ∧ "desc" ∈ DatabaseService.validDirections) as Hdefault.
    { split; apply array_includes_elem_of; reflexivity. }
    destruct (Js.falsy_str sort); [done |]. cbv zeta.
    destruct (_ !! 0%nat) as [field|]; [|done].
    destruct (_ !! 1%nat) as [direction|]; [|done].
    destruct (Js.array_includes DatabaseService.validFields field) eqn:Ef; [|done].
    destruct (Js.array_includes DatabaseService.validDirections direction) eqn:Ed; [|done].
    simpl. by split; apply array_includes_elem_of.
  - intros field direction Hf Hd.
    unfold DatabaseService.validFields, DatabaseService.validDirections in *.
    repeat (apply elem_of_cons in Hf as [->|Hf]); [| | | | |by apply elem_of_nil in Hf];
      (repeat (apply elem_of_cons in Hd as [->|Hd]); [| |by apply elem_of_nil in Hd]);
      reflexivity.
Qed.

(** X4. A constraint [buildWhereClause] puts in the query is the value of the
    filter of that name, and is truthy: an empty string or a bound of zero
    adds no constraint, and without filters the query has none. *)
Theorem buildWhereClause_truthy filters :
  let q := DatabaseService.buildWhereClause filters in
  (∀ s, wh_name_contains q = Some s → s ≠ EmptyString ∧ f_name <$> filters = Some (Some s))
  ∧ (∀ s, wh_mime_contains q = Some s → s ≠ EmptyString ∧ f_mime <$> filters = Some (Some s))
  ∧ (∀ s, wh_folder q = Some s → s ≠ EmptyString ∧ f_folder <$> filters = Some (Some s))
  ∧ (∀ s, wh_provider q = Some s → s ≠ EmptyString ∧ f_provider <$> filters = Some (Some s))
  ∧ (∀ n, wh_size_gte q = Some n → n ≠ 0 ∧ f_minSize <$> filters = Some (Some n))
  ∧ (∀ n, wh_size_lte q = Some n → n ≠ 0 ∧ f_maxSize <$> filters = Some (Some n)).
Proof.
  assert (∀ a s, DatabaseService.truthy_filter a = Some s → s ≠ EmptyString ∧ a = Some s)
    as Hstr.
  { intros [[|c a]|] s; simpl; [done | | done]. by intros [= <-]. }
  assert (∀ a n, DatabaseService.truthy_bound a = Some n → n ≠ 0 ∧ a = Some n) as Hnum.
  { intros [a|] n; unfold DatabaseService.truthy_bound; simpl; [|done].
    destruct (a =? 0) eqn:E; simpl; [done |]. intros [= <-].
    by apply N.eqb_neq in E. }
  destruct filters as [filters|]; simpl; [|done].
  split_and!; intros x Hx; [apply Hstr in Hx as [? ->] .. | apply Hnum in Hx as [? ->]
                            | apply Hnum in Hx as [? ->]]; done.
Qed.

Lemma guard_ok (c : bool) e w (a : unit) w' :
  (if c then throw e else ret tt) w = (Ok a, w') → c = false ∧ w' = w.
Proof. destruct c; [done |]. by intros [= _ <-]. Qed.

Lemma nearest_double_exact z :
  (Z.abs z < 2 ^ 53)%Z → Number.nearest_double z = z.
Proof.
  intros Hz. unfold Number.nearest_double.
  assert (Z.log2 (Z.abs z) < 53)%Z as Hlog.
  { destruct (decide (Z.abs z = 0%Z)) as [->|Hne]; [done |].
    apply Z.log2_lt_pow2; lia. }
  rewrite Z.max_l by lia. cbv zeta. change (2 ^ 0)%Z with 1%Z.
  rewrite Z.mod_1_r, Z.div_1_r. simpl. lia.
Qed.

Lemma nearest_double_nonneg z : (0 ≤ z)%Z → (0 ≤ Number.nearest_double z)%Z.
Proof.
  intros Hz. unfold Number.nearest_double. cbv zeta.
  set (q := (2 ^ Z.max 0 (Z.log2 (Z.abs z) - 52))%Z).
  assert (0 < q)%Z as Hq by (apply Z.pow_pos_nonneg; lia).
  assert (0 ≤ z / q)%Z as Hm by (apply Z.div_pos; lia).
  repeat case_match; nia.
Qed.

Lemma of_integer_exact z : (Z.abs z < 2 ^ 53)%Z → Number.of_integer z = Num z.
Proof.
  intros Hz. unfold Number.of_integer. rewrite nearest_double_exact by done. cbv zeta.
  assert (2 ^ 53 < 2 ^ 1024)%Z by (apply Z.pow_lt_mono_r; lia).
  destruct (2 ^ 1024 <=? Z.abs z)%Z eqn:E; [|done]. apply Z.leb_le in E. lia.
Qed.

Lemma of_integer_nonneg z :
  (0 ≤ z)%Z →
  Number.of_integer z = Infinity false ∨ ∃ r, Number.of_integer z = Num r ∧ (0 ≤ r)%Z.
Proof.
  intros Hz%nearest_double_nonneg. unfold Number.of_integer. cbv zeta.
  destruct (2 ^ 1024 <=? _)%Z.
  - left. f_equal. by apply Z.ltb_ge.
  - right. eauto.
Qed.

Lemma mul_infinity_positive l :
  (1 ≤ l)%Z → Number.mul (Infinity false) (Num l) = Infinity false.
Proof.
  intros Hl. cbn [Number.mul].
  destruct (Z.eqb_spec l 0); [lia |]. by destruct (Z.ltb_spec l 0); [lia |].
Qed.

(** What the validator lets through as a page, and as a limit. *)
Lemma validatePaginationOptions_inv options w w' :
  ValidationService.validatePaginationOptions options w = (Ok tt, w') →
  w' = w
  ∧ (∀ page, pg_page options = Some page →
             page = Infinity false ∨ ∃ p, page = Num p ∧ (1 ≤ p)%Z)
  ∧ (∀ limit, pg_limit options = Some limit → ∃ l, limit = Num l ∧ (1 ≤ l ≤ 100)%Z).
Proof.
  unfold ValidationService.validatePaginationOptions.
  intros (u & w1 & Hpage & Hlimit)%bind_ok_inv.
  assert (w1 = w ∧ ∀ page, pg_page options = Some page →
                           page = Infinity false ∨ ∃ p, page = Num p ∧ (1 ≤ p)%Z)
    as [-> Hp].
  { destruct (pg_page options) as [page|]; [|by injection Hpage as <-].
    apply guard_ok in Hpage as [Hpage ->]. split; [done |]. intros ? [= <-].
    destruct page as [|p|[]]; try done; [|by left].
    right. exists p. split; [done |]. simpl in Hpage. by apply Z.ltb_ge in Hpage. }
  assert (w' = w ∧ ∀ limit, pg_limit options = Some limit →
                            ∃ l, limit = Num l ∧ (1 ≤ l ≤ 100)%Z) as [-> Hl].
  { destruct (pg_limit options) as [limit|]; [|by injection Hlimit as <-].
    apply guard_ok in Hlimit as [Hlimit ->]. split; [done |]. intros ? [= <-].
    destruct limit as [|l|[]]; try done.
    exists l. split; [done |]. simpl in Hlimit.
    apply orb_false_iff in Hlimit as [Hlow Hhigh].
    apply Z.ltb_ge in Hlow, Hhigh. lia. }
  done.
Qed.

(** X5. Pagination options that pass [validatePaginationOptions], which touches
    nothing, give [getFiles] a page that is an integer of at least 1 or
    the positive infinity, used as given, and a limit between 1 and 100,
    used as given, 1 and 20 standing in for what was not given.  The number
    of rows the query skips is computed in double arithmetic: it is never
    [NaN] and never negative, and it is exactly the rows of the pages
    before, page minus one times the limit, whenever that product is below
    2^53; above, it is that product rounded to a double. *)
Theorem validated_pagination_bounds options w w' :
  ValidationService.validatePaginationOptions options w = (Ok tt, w') →
  w' = w
  ∧ (∀ page, pg_page options = Some page → DatabaseService.getFiles_page options = page)
  ∧ (pg_page options = None → DatabaseService.getFiles_page options = Num 1)
  ∧ (∀ limit, pg_limit options = Some limit →
              fm_take (DatabaseService.getFiles_args options) = limit)
  ∧ (pg_limit options = None → fm_take (DatabaseService.getFiles_args options) = Num 20)
  ∧ (∃ l, fm_take (DatabaseService.getFiles_args options) = Num l ∧ (1 ≤ l ≤ 100)%Z)
  ∧ (DatabaseService.getFiles_page options = Infinity false
     ∧ fm_skip (DatabaseService.getFiles_args options) = Infinity false
     ∨ ∃ p l,
         DatabaseService.getFiles_page options = Num p
         ∧ fm_take (DatabaseService.getFiles_args options) = Num l
         ∧ (1 ≤ p)%Z
         ∧ fm_skip (DatabaseService.getFiles_args options)
           = Number.mul (Number.of_integer (p - 1)) (Num l)
         ∧ (fm_skip (DatabaseService.getFiles_args options) = Infinity false
            ∨ ∃ k, fm_skip (DatabaseService.getFiles_args options) = Num k ∧ (0 ≤ k)%Z)
         ∧ ((p - 1) * l < 2 ^ 53 →
            fm_skip (DatabaseService.getFiles_args options) = Num ((p - 1) * l))%Z).
Proof.
  intros (-> & Hpage & Hlimit)%validatePaginationOptions_inv.
  assert (∀ page, pg_page options = Some page →
                  DatabaseService.getFiles_page options = page) as Hp.
  { intros page Hsome. unfold DatabaseService.getFiles_page, DatabaseService.or_number.
    rewrite Hsome. destruct (Hpage page Hsome) as [->|(p & -> & ?)]; [done |].
    simpl. by assert ((p =? 0)%Z = false) as -> by lia. }
  assert (∀ limit, pg_limit options = Some limit →
                   DatabaseService.getFiles_limit options = limit) as Hl.
  { intros limit Hsome. unfold DatabaseService.getFiles_limit, DatabaseService.or_number.
    rewrite Hsome. destruct (Hlimit limit Hsome) as (l & -> & ?).
    simpl. by assert ((l =? 0)%Z = false) as -> by lia. }
  assert (∃ l, DatabaseService.getFiles_limit options = Num l ∧ (1 ≤ l ≤ 100)%Z)
    as (l & Hlim & Hbounds).
  { destruct (pg_limit options) as [limit|] eqn:E.
    - rewrite (Hl limit eq_refl). by apply Hlimit.
    - unfold DatabaseService.getFiles_limit. rewrite E. exists 20%Z. split; [done | lia]. }
  assert (DatabaseService.getFiles_page options = Infinity false
          ∨ ∃ p, DatabaseService.getFiles_page options = Num p ∧ (1 ≤ p)%Z) as Hcases.
  { destruct (pg_page options) as [page|] eqn:E.
    - rewrite (Hp page eq_refl). by apply Hpage.
    - unfold DatabaseService.getFiles_page. rewrite E. right. exists 1%Z. split; [done | lia]. }
  unfold DatabaseService.getFiles_args. cbv zeta. cbn [fm_take fm_skip].
  split_and!; try done.
  - intros E. unfold DatabaseService.getFiles_page. by rewrite E.
  - intros E. unfold DatabaseService.getFiles_limit. by rewrite E.
  - by exists l.
  - rewrite Hlim. destruct Hcases as [->|(p & -> & Hone)].
    + left. split; [done |]. cbn [Number.sub]. apply mul_infinity_positive. lia.
    + right. exists p, l. split_and!; try done.
      * cbn [Number.sub].
        destruct (of_integer_nonneg (p - 1)) as [->|(r & -> & Hr)]; [lia | |].
        { left. apply mul_infinity_positive. lia. }
        cbn [Number.mul]. apply of_integer_nonneg. nia.
      * intros Hsafe. cbn [Number.sub].
        rewrite (of_integer_exact (p - 1)) by nia.
        cbn [Number.mul]. apply of_integer_exact. nia.
Qed.

(** ** The error middleware *)

Ltac in_list := solve [repeat first [apply list_elem_of_here | apply list_elem_of_further]].

(** X6. [errorHandler] always answers, after one log line, with a failure
    carrying no data and one of six statuses.  The message it sends is one
    of eight fixed texts, unless the error's own message contains
    [validation] or [required]: only then is that message passed on, with
    status 400. *)
Theorem errorHandler_no_leak error w :
  ∃ reply m,
    ErrorHandler.errorHandler error w = (Ok reply, add_log unhandled_entry w)
    ∧ reply_success reply = false
    ∧ reply_data reply = None
    ∧ reply_status reply ∈ [400; 404; 409; 413; 500; 503]
    ∧ reply_error reply = Some m
    ∧ (m ∈ fixed_errors
       ∨ m = message error
         ∧ reply_status reply = 400
         ∧ Js.includes (message error) "validation"
           || Js.includes (message error) "required" = true).
Proof.
  unfold ErrorHandler.errorHandler, bind, log, modify, ret. simpl.
  repeat match goal with
         | |- context [if ?b then _ else _] => destruct b eqn:?
         end;
    (eexists _, _; split; [reflexivity |]; simpl; split_and!;
     [done | done | in_list | done | first [left; in_list | by right]]).
Qed.

(** ** File and folder names *)

Lemma includes_no_char s c :
  (∀ d, In d (list_ascii_of_string s) → d ≠ c) →
  Js.includes s (String c EmptyString) = false.
Proof.
  induction s as [|d s IH]; intros Hs; [done |].
  cbn -[ascii_dec]. destruct (ascii_dec c d) as [->|_].
  - destruct (Hs d); [by left | done].
  - apply IH. intros d' Hd'. apply Hs. by right.
Qed.

Lemma has_reserved_char_spec s d :
  UploadService.has_reserved_char s = false → In d (list_ascii_of_string s) →
  UploadService.reserved_char d = false.
Proof.
  induction s as [|c s IH]; [done |]. cbn [UploadService.has_reserved_char].
  intros [Hc Hs]%orb_false_iff [<-|Hd]; [done | by apply IH].
Qed.

Lemma reservedNames_windows_reserved s :
  Js.array_includes ValidationService.reservedNames (Js.toLowerCase s) = true →
  UploadService.windows_reserved s = true.
Proof.
  unfold UploadService.windows_reserved. cbv zeta.
  generalize (Js.toLowerCase s). intros l Hl.
  apply array_includes_elem_of in Hl. unfold ValidationService.reservedNames in Hl.
  repeat (apply elem_of_cons in Hl as [->|Hl]; [reflexivity |]).
  by apply elem_of_nil in Hl.
Qed.

Lemma length_ascii s :
  (∀ c, In c (list_ascii_of_string s) → N_of_ascii c < 128) →
  Js.length s = String.length s.
Proof.
  induction s as [|c s IH]; intros Hs; [done |]. cbn [Js.length String.length].
  rewrite IH by (intros d Hd; apply Hs; by right).
  unfold Js.units. specialize (Hs c (or_introl eq_refl)).
  apply N.ltb_lt in Hs. by rewrite Hs.
Qed.

Lemma isValidFilename_inv filename :
  UploadService.isValidFilename filename = true →
  String.eqb filename EmptyString = false
  ∧ (255 <? Js.length filename)%nat = false
  ∧ UploadService.has_reserved_char filename = false
  ∧ UploadService.windows_reserved filename = false
  ∧ String.eqb filename "." = false
  ∧ String.eqb filename ".." = false.
Proof.
  unfold UploadService.isValidFilename.
  destruct (String.eqb filename EmptyString); [done |].
  destruct (255 <? Js.length filename)%nat; [done |].
  destruct (UploadService.has_reserved_char filename); [done |].
  destruct (UploadService.windows_reserved filename); [done |].
  destruct (String.eqb filename "."); [done |].
  by destruct (String.eqb filename "..").
Qed.

(** X7. A name [isValidFilename] accepts is not empty, has at most 255
    UTF-16 code units, which for a name of ASCII characters is its number
    of characters, contains no slash, no backslash and no other reserved
    character, is neither [.] nor [..], and is no reserved device name. *)
Theorem isValidFilename_sound filename :
  UploadService.isValidFilename filename = true →
  filename ≠ EmptyString
  ∧ (Js.length filename ≤ 255)%nat
  ∧ ((∀ c, In c (list_ascii_of_string filename) → N_of_ascii c < 128) →
     (String.length filename ≤ 255)%nat)
  ∧ Js.includes filename "/" = false
  ∧ Js.includes filename backslash = false
  ∧ (∀ c, In c (list_ascii_of_string filename) → UploadService.reserved_char c = false)
  ∧ filename ≠ "." ∧ filename ≠ ".."
  ∧ UploadService.windows_reserved filename = false.
Proof.
  intros (Eempty & Elen & Echars & Ewin & Edot & Edots)%isValidFilename_inv.
  apply String.eqb_neq in Eempty, Edot, Edots. apply Nat.ltb_ge in Elen.
  pose proof (has_reserved_char_spec filename) as Hchars.
  split_and!; try done.
  - intros Hascii. by rewrite <-length_ascii.
  - apply includes_no_char. intros d Hd ->. by specialize (Hchars _ Echars Hd).
  - apply includes_no_char. intros d Hd ->. by specialize (Hchars _ Echars Hd).
  - intros c. by apply Hchars.
Qed.

(** X8. Every valid file name of at most 100 UTF-16 code units is a valid
    folder name: the two validators count the same units and reject the
    same characters, and the reserved folder names are among the reserved
    file names. *)
Theorem valid_filename_is_valid_folder_name nm w :
  UploadService.isValidFilename nm = true → (Js.length nm ≤ 100)%nat →
  ValidationService.validateFolderName nm w = (Ok tt, w).
Proof.
  intros (Eempty & _ & Echars & Ewin & _ & _)%isValidFilename_inv Hlen.
  apply Nat.ltb_ge in Hlen.
  assert (Js.array_includes ValidationService.reservedNames (Js.toLowerCase nm) = false)
    as Hres.
  { destruct (Js.array_includes _ _) eqn:Eres; [|done].
    apply reservedNames_windows_reserved in Eres. congruence. }
  unfold ValidationService.validateFolderName.
  change (ValidationService.has_invalid_char nm) with (UploadService.has_reserved_char nm).
  by rewrite Eempty, Hlen, Echars, Hres.
Qed.

(** ** Computations that only log *)

Section quiet.
Context (R : World → World → Prop) `{!Quiet R}.

Lemma quietly_ret {A} (a : A) : preserves R (ret a).
Proof. intros w r w' [= _ <-]. apply quiet_refl. Qed.

Lemma quietly_throw {A} (e : JsError) : preserves R (throw (A:=A) e).
Proof. intros w r w' [= _ <-]. apply quiet_refl. Qed.

Lemma quietly_of_result {A} (x : Result A) : preserves R (of_result x).
Proof. intros w r w' [= _ <-]. apply quiet_refl. Qed.

Lemma quietly_get_world : preserves R get_world.
Proof. intros w r w' [= _ <-]. apply quiet_refl. Qed.

Lemma quietly_log lvl service msg : preserves R (log lvl service msg).
Proof. intros w r w' [= _ <-]. apply quiet_log. Qed.

Lemma quietly_bind {A B} (m : M A) (k : A → M B) :
  preserves R m → (∀ a, preserves R (k a)) → preserves R (bind m k).
Proof.
  intros Hm Hk w r w' [(a & w1 & Ha & Hb)|(e & He & _)]%bind_inv.
  - eapply quiet_trans; [by eapply Hm | by eapply Hk].
  - by eapply Hm.
Qed.

Lemma quietly_try_catch {A} (m : M A) (h : JsError → M A) :
  preserves R m → (∀ e, preserves R (h e)) → preserves R (try_catch m h).
Proof.
  intros Hm Hh w r w' [(a & Ha & _)|(e & w1 & He & Hr)]%try_catch_inv.
  - by eapply Hm.
  - eapply quiet_trans; [by eapply Hm | by eapply Hh].
Qed.

End quiet.

Global Instance only_logged_quiet : Quiet only_logged.
Proof.
  split; unfold only_logged, same_stores; simpl; try done.
  intros w1 w2 w3 ((? & ? & ? & ?) & ? & ?) ((? & ? & ? & ?) & ? & ?).
  split_and!; congruence.
Qed.

Global Instance same_stores_quiet : Quiet same_stores.
Proof.
  split; unfold same_stores; simpl; try done.
  intros w1 w2 w3 (? & ? & ? & ?) (? & ? & ? & ?). split_and!; congruence.
Qed.

Lemma same_stores_draw : preserves same_stores (modify draw).
Proof. by intros w r w' [= _ <-]. Qed.

Lemma same_stores_attempt `{Faults} op : preserves same_stores (attempt op).
Proof. intros w r w'. unfold attempt. by destruct (fault w op); intros [= _ <-]. Qed.

Ltac quiet_step :=
  lazymatch goal with
  | |- preserves ?R (bind _ _) => apply (quietly_bind R); [try done | intros ?]
  | |- preserves ?R (try_catch _ _) => apply (quietly_try_catch R); [try done | intros ?]
  | |- preserves _ (if ?b then _ else _) => destruct b
  | |- preserves _ (match ?x with _ => _ end) => destruct x
  | |- preserves ?R (ret _) => apply (quietly_ret R)
  | |- preserves ?R (throw _) => apply (quietly_throw R)
  | |- preserves ?R (of_result _) => apply (quietly_of_result R)
  | |- preserves ?R get_world => apply (quietly_get_world R)
  | |- preserves ?R (log _ _ _) => apply (quietly_log R)
  | |- preserves same_stores (modify draw) => apply same_stores_draw
  | |- preserves same_stores (attempt _) => apply same_stores_attempt
  end.

Ltac quiet := cbv zeta; repeat quiet_step.

Section quiet_stages.
Context `{Config} `{NodeLib} `{Sharp} `{Faults} `{StorageProvider}.
Context (R : World → World → Prop) `{!Quiet R}.

Lemma quietly_validateImage file maxW maxH :
  preserves R (ValidationService.validateImage file maxW maxH).
Proof. unfold ValidationService.validateImage. quiet. Qed.

Lemma quietly_validateFile file options :
  preserves R (ValidationService.validateFile file options).
Proof.
  unfold ValidationService.validateFile. quiet; apply quietly_validateImage.
Qed.

Lemma quietly_getMetadata file : preserves R (ImageProcessingService.getMetadata file).
Proof. unfold ImageProcessingService.getMetadata. quiet. Qed.

Lemma quietly_optimizeImage file options :
  preserves R (ImageProcessingService.optimizeImage file options).
Proof. unfold ImageProcessingService.optimizeImage. quiet. Qed.

Lemma quietly_resizeImage file options :
  preserves R (ImageProcessingService.resizeImage file options).
Proof. unfold ImageProcessingService.resizeImage. quiet. Qed.

Lemma quietly_responsive_loop file bps acc :
  preserves R (ImageProcessingService.responsive_loop file bps acc).
Proof.
  revert acc. induction bps as [|b bps IH]; intros acc; simpl; quiet.
  - apply quietly_resizeImage.
  - apply IH.
Qed.

Lemma quietly_processImage file options :
  preserves R (ImageProcessingService.processImage file options).
Proof.
  unfold ImageProcessingService.processImage,
    ImageProcessingService.generateResponsiveImages,
    ImageProcessingService.generateThumbnail.
  quiet; first [apply quietly_resizeImage | apply quietly_responsive_loop
               | apply quietly_optimizeImage].
Qed.

End quiet_stages.

(** ** The validator *)

Lemma includes_cons c s p : Js.includes s p = true → Js.includes (String c s) p = true.
Proof. intros Hs. cbn [Js.includes]. rewrite Hs. apply orb_true_r. Qed.

Lemma exceeds_maximum_included a b c :
  Js.includes (a ++ b ++ " exceeds maximum" ++ c) "exceeds maximum" = true.
Proof.
  do 2 apply includes_app_r.
  change (" exceeds maximum" ++ c) with (String " " ("exceeds maximum" ++ c)).
  apply includes_cons, includes_here.
Qed.

Section validation.
Context `{Config} `{Sharp}.


(** X10. [validateImage] enforces the limits on readable images only.  When
    the metadata can be read and the image passes, its width and height
    are within the non-zero limits given and nothing, the log included, has
    changed.  When the metadata cannot be read, the image passes with a
    warning, unless the message of that error contains [exceeds maximum],
    in which case the error is rethrown as if a limit had been exceeded. *)
Theorem validateImage_limits file maxW maxH w :
  (∀ md w',
     sharp_metadata (multer_path file) = Ok md →
     ValidationService.validateImage file maxW maxH w = (Ok tt, w') →
     w' = w
     ∧ (∀ m x, maxW = Some m → m ≠ 0 → md_width md = Some x → x ≤ m)
     ∧ (∀ m x, maxH = Some m → m ≠ 0 → md_height md = Some x → x ≤ m))
  ∧ (∀ e,
       sharp_metadata (multer_path file) = Throw e →
       Js.truthy_num maxW || Js.truthy_num maxH = true →
       ValidationService.validateImage file maxW maxH w
       = if Js.includes (message e) "exceeds maximum" then (Throw e, w)
         else (Ok tt, add_log dimensions_warning w)).
Proof.
  unfold ValidationService.validateImage. split.
  - intros md w' Hmd.
    destruct (negb (Js.truthy_num maxW) && negb (Js.truthy_num maxH)) eqn:Eno.
    { intros [= <-]. apply andb_true_iff in Eno as [EW EH]. split_and!; [done | |].
      - intros m x -> Hm _. simpl in EW. by apply negb_true_iff, negb_false_iff, N.eqb_eq in EW.
      - intros m x -> Hm _. simpl in EH. by apply negb_true_iff, negb_false_iff, N.eqb_eq in EH. }
    unfold try_catch, bind, of_result. rewrite Hmd.
    destruct (Js.truthy_num maxW && Js.truthy_num (md_width md)
              && (default 0 maxW <? default 0 (md_width md))) eqn:EW.
    { cbn -[Js.includes append Js.num].
      assert (Js.includes ("Image width " ++ Js.num (default 0 (md_width md))
                           ++ " exceeds maximum allowed width " ++ Js.num (default 0 maxW))
                "exceeds maximum" = true) as ->
        by apply (exceeds_maximum_included _ _ (" allowed width " ++ _)).
      done. }
    destruct (Js.truthy_num maxH && Js.truthy_num (md_height md)
              && (default 0 maxH <? default 0 (md_height md))) eqn:EH.
    { cbn -[Js.includes append Js.num].
      assert (Js.includes ("Image height " ++ Js.num (default 0 (md_height md))
                           ++ " exceeds maximum allowed height " ++ Js.num (default 0 maxH))
                "exceeds maximum" = true) as ->
        by apply (exceeds_maximum_included _ _ (" allowed height " ++ _)).
      done. }
    simpl. intros [= <-]. split_and!; [done | |].
    + intros m x -> Hm Hx. rewrite Hx in EW. simpl in EW.
      apply N.eqb_neq in Hm. rewrite Hm in EW. simpl in EW.
      destruct (x =? 0) eqn:Ex0; [apply N.eqb_eq in Ex0; lia |].
      simpl in EW. apply N.ltb_ge in EW. lia.
    + intros m x -> Hm Hx. rewrite Hx in EH. simpl in EH.
      apply N.eqb_neq in Hm. rewrite Hm in EH. simpl in EH.
      destruct (x =? 0) eqn:Ex0; [apply N.eqb_eq in Ex0; lia |].
      simpl in EH. apply N.ltb_ge in EH. lia.
  - intros e Hmd Hlimits.
    assert (negb (Js.truthy_num maxW) && negb (Js.truthy_num maxH) = false) as ->.
    { by destruct (Js.truthy_num maxW), (Js.truthy_num maxH). }
    unfold try_catch, bind, of_result. rewrite Hmd.
    by destruct (Js.includes (message e) "exceeds maximum").
Qed.

End validation.

(** ** The derivative generator *)

Lemma descriptors_fold file (images : gmap string SharpOutput)
    (acc : gmap string FormatDescriptor) key d :
  map_fold (λ key image acc, <[key := ImageProcessingService.descriptor key file image]> acc)
    acc images !! key = Some d →
  acc !! key = Some d
  ∨ ∃ image, images !! key = Some image
             ∧ d = ImageProcessingService.descriptor key file image.
Proof.
  rewrite map_fold_foldr.
  assert (∀ k v, (k, v) ∈ map_to_list images → images !! k = Some v) as Hl
    by (intros k v; apply elem_of_map_to_list).
  revert Hl. generalize (map_to_list images). intros l.
  induction l as [|[k v] l IH]; intros Hl; simpl; [by left |].
  destruct (decide (k = key)) as [->|Hne].
  - rewrite lookup_insert_eq. intros [= <-]. right. exists v. split; [|done].
    apply Hl. by left.
  - rewrite lookup_insert_ne by done. apply IH. intros k' v' Hin. apply Hl. by right.
Qed.

Section image_processing.
Context `{Config} `{Sharp}.

(** X11. A failure of [getMetadata] never carries the message of the image
    library: it is the missing-path error, raised before anything is
    read, or the fixed extraction error, raised after the library failed
    and the failure was logged. *)
Theorem getMetadata_hides_library_error file w e w' :
  ImageProcessingService.getMetadata file w = (Throw e, w') →
  only_logged w w'
  ∧ (Js.falsy_str (filepath file) = true
     ∧ e = Error "File path is required for metadata extraction" ∧ w' = w
     ∨ Js.falsy_str (filepath file) = false
       ∧ e = Error "Failed to extract image metadata"
       ∧ ∃ e0, sharp_metadata (default EmptyString (filepath file)) = Throw e0).
Proof.
  intros Hrun. split; [by eapply (quietly_getMetadata only_logged) |].
  revert Hrun. unfold ImageProcessingService.getMetadata.
  destruct (Js.falsy_str (filepath file)); [intros [= <- <-]; by left |].
  unfold try_catch, of_result, bind, log, modify, throw.
  destruct (sharp_metadata _) as [md|e0] eqn:Emd; [done |].
  intros [= <- _]. right. split_and!; [done | done | by exists e0].
Qed.

Lemma thumbnail_step_inv file w (fmts : gmap string FormatDescriptor) w1 :
  (if GENERATE_THUMBNAILS
   then
     thumbnail <- ImageProcessingService.generateThumbnail file 150 ;;
     ret (<["thumbnail" := ImageProcessingService.descriptor "thumbnail" file thumbnail]>
            (∅ : gmap string FormatDescriptor))
   else ret ∅) w = (Ok fmts, w1) →
  ∀ key d, fmts !! key = Some d →
    key = "thumbnail" ∧ GENERATE_THUMBNAILS = true
    ∧ ∃ image, d = ImageProcessingService.descriptor key file image.
Proof.
  destruct GENERATE_THUMBNAILS.
  - intros (image & w2 & _ & [= <- _])%bind_ok_inv key d.
    intros [[<- <-]|[_ Hempty]]%lookup_insert_Some; [|by rewrite lookup_empty in Hempty].
    split_and!; [done | done | by exists image].
  - intros [= <- _] key d. by rewrite lookup_empty.
Qed.

(** X12. When [processImage] returns, nothing but the log has changed, and
    every entry of [formats] is the thumbnail, present only when thumbnails
    are switched on, or belongs to one of the breakpoints in force, present
    only when responsive images were not switched off; its descriptor is
    built from the file and an output of the image library, so its name and
    hash are the key, an underscore and the name or hash of the file. *)
Theorem processImage_formats file options w p w' :
  ImageProcessingService.processImage file options w = (Ok p, w') →
  only_logged w w'
  ∧ ∀ fmts key d,
      p_formats p = Some fmts → fmts !! key = Some d →
      (key = "thumbnail" ∧ GENERATE_THUMBNAILS = true
       ∨ responsive (default ImageProcessingService.no_processing options) ≠ Some false
         ∧ ∃ b, b ∈ default RESPONSIVE_BREAKPOINTS
                      (breakpoints (default ImageProcessingService.no_processing options))
                ∧ key = ImageProcessingService.breakpoint_key b)
      ∧ (∃ image, d = ImageProcessingService.descriptor key file image)
      ∧ fd_name d = key ++ "_" ++ name file
      ∧ fd_hash d = key ++ "_" ++ hash file.
Proof.
  intros Hrun. split; [by eapply (quietly_processImage only_logged) |].
  intros fmts key d Hfmts Hd.
  assert ((key = "thumbnail" ∧ GENERATE_THUMBNAILS = true
           ∨ responsive (default ImageProcessingService.no_processing options) ≠ Some false
             ∧ ∃ b, b ∈ default RESPONSIVE_BREAKPOINTS
                          (breakpoints (default ImageProcessingService.no_processing options))
                    ∧ key = ImageProcessingService.breakpoint_key b)
          ∧ ∃ image, d = ImageProcessingService.descriptor key file image) as [Hkey Himg].
  { revert Hrun. unfold ImageProcessingService.processImage. cbv zeta.
    destruct (negb (Js.startsWith _ _)); [intros [= <- _]; done |].
    destruct (negb (Js.array_includes _ _)); [intros [= <- _]; done |].
    intros Hrun. apply try_catch_rethrow_ok in Hrun; [|intros e w1; by do 2 eexists].
    apply bind_ok_inv in Hrun as (fmts0 & w1 & Hthumb & Hrun).
    apply bind_ok_inv in Hrun as (fmts1 & w2 & Hresp & Hrun).
    apply bind_ok_inv in Hrun as (sz & w3 & _ & Hrun).
    injection Hrun as <- _. simpl in Hfmts. injection Hfmts as <-.
    pose proof (thumbnail_step_inv _ _ _ _ Hthumb) as Hthumb'.
    destruct (bool_decide (responsive _ = Some false)) eqn:Eresp; simpl in Hresp.
    - injection Hresp as <- _. destruct (Hthumb' key d Hd) as (? & ? & ?). auto.
    - apply bool_decide_eq_false in Eresp.
      apply bind_ok_inv in Hresp as (images & w4 & Hloop & [= <- _]).
      unfold ImageProcessingService.generateResponsiveImages in Hloop.
      rewrite responsive_loop_run in Hloop. injection Hloop as <- _.
      apply descriptors_fold in Hd as [Hd|(image & Himage & ->)].
      + destruct (Hthumb' key d Hd) as (? & ? & ?). auto.
      + split; [|by exists image]. right. split; [done |].
        destruct (responsive_after_keys file _ ∅ key (mk_is_Some _ _ Himage))
          as [Hempty|Hb]; [|done].
        rewrite lookup_empty in Hempty. by destruct (is_Some_None Hempty). }
  split; [done |]. split; [done |]. by destruct Himg as [image ->].
Qed.


End image_processing.

(** ** Building the entity *)

Section entity.
Context `{Config} `{NodeLib} `{Sharp} `{Faults} `{StorageProvider}.

Lemma getFolder_cases i w :
  DatabaseService.getFolder i w
  = match fault w (FolderFindUnique i) with
    | None => (Ok (DatabaseService.folder_view <$> db_folders w !! i),
               record_op (FolderFindUnique i) w)
    | Some e => (Throw e,
                 add_log {| log_level := LvlError; log_service := DatabaseService.service;
                            log_message := "Failed to get folder from database" |}
                   (record_op (FolderFindUnique i) w))
    end.
Proof.
  unfold DatabaseService.getFolder, Prisma.folder_findUnique, try_catch, bind, attempt,
    get_world, ret, log, modify, throw.
  by destruct (fault w _).
Qed.

Lemma same_stores_getFolderPath folderId :
  preserves same_stores (UploadService.getFolderPath folderId).
Proof.
  unfold UploadService.getFolderPath, DatabaseService.getFolder, Prisma.folder_findUnique.
  quiet.
Qed.

Lemma getFolderPath_total folderId w :
  ∃ p w', UploadService.getFolderPath folderId w = (Ok p, w').
Proof.
  unfold UploadService.getFolderPath. destruct (Js.falsy_str folderId); [by do 2 eexists |].
  unfold try_catch, bind. rewrite getFolder_cases.
  destruct (fault w _); by do 2 eexists.
Qed.

(** X14. [getFolderPath] never throws and never answers the empty path, and it
    changes no store.  Its answer is the root, or the stored path of the
    folder with the id given; it is the root when no folder has that id and
    when the lookup fails. *)
Theorem getFolderPath_never_throws folderId w :
  ∃ p w',
    UploadService.getFolderPath folderId w = (Ok p, w')
    ∧ p ≠ EmptyString
    ∧ same_stores w w'
    ∧ (p = "/"
       ∨ ∃ i fld, folderId = Some i ∧ db_folders w !! i = Some fld ∧ p = folder_path fld)
    ∧ (∀ i, folderId = Some i → db_folders w !! i = None → p = "/")
    ∧ (∀ i e, folderId = Some i → fault w (FolderFindUnique i) = Some e → p = "/").
Proof.
  destruct (getFolderPath_total folderId w) as (p & w' & Hrun).
  exists p, w'. split; [done |].
  pose proof (same_stores_getFolderPath folderId w _ _ Hrun) as Hsame.
  revert Hrun. unfold UploadService.getFolderPath.
  destruct folderId as [[|c i]|]; simpl; try (intros [= <- _]; by split_and!; auto).
  unfold try_catch, bind. rewrite getFolder_cases.
  destruct (fault w _) as [e|] eqn:Efault; simpl.
  { intros [= <- _]. split_and!; auto. }
  destruct (db_folders w !! String c i) as [fld|] eqn:Efld; simpl.
  - destruct (folder_path fld) as [|d q] eqn:Epath; simpl; intros [= <- _].
    + split_and!; auto.
    + split_and!; [done | done | | intros ? [= <-]; congruence
                   | intros ? ? [= <-]; congruence].
      right. exists (String c i), fld. by rewrite Epath.
  - intros [= <- _]. split_and!; auto.
Qed.

Lemma same_stores_formatFileInfo file fileInfo options :
  preserves same_stores (UploadService.formatFileInfo file fileInfo options).
Proof.
  unfold UploadService.formatFileInfo, UploadService.generateFileHash, UploadService.uuidv4.
  quiet; first [apply same_stores_getFolderPath | apply (quietly_getMetadata same_stores)].
Qed.

(** X15. [formatFileInfo] fails only on an invalid original name, before
    anything has happened.  For a valid one it always returns an entity, and
    changes no store: failures of the folder lookup and of the metadata
    extraction are absorbed.  The entity has no id and no url yet; its name
    is the name given in the file info, when there is one, and else the
    original name; its extension is never empty, and is [.false] when the
    original name has none and the MIME type is unknown; its hash is the
    base name, an underscore and the uuid drawn, without dashes. *)
Theorem formatFileInfo_total file fileInfo options w :
  (UploadService.isValidFilename (originalname file) = false →
   UploadService.formatFileInfo file fileInfo options w
   = (Throw (Error "File name contains invalid characters"), w))
  ∧ (UploadService.isValidFilename (originalname file) = true →
     ∃ entity w',
       UploadService.formatFileInfo file fileInfo options w = (Ok entity, w')
       ∧ same_stores w w'
       ∧ id entity = None ∧ url entity = None ∧ formats entity = None
       ∧ name entity
         = normalize (default (originalname file) (Js.or_str (fi_name fileInfo) None))
       ∧ ext entity ≠ EmptyString
       ∧ (path_extname (originalname file) = EmptyString →
          mime_extension (mimetype file) = None → ext entity = ".false")
       ∧ hash entity
         = path_basename (name entity) (ext entity) ++ "_"
           ++ Js.remove_dashes (uuidv4_at (entropy w))
       ∧ mime entity = mimetype file
       ∧ size entity = multer_size file
       ∧ filepath entity = Some (multer_path file)
       ∧ provider entity = STORAGE_PROVIDER).
Proof.
  split.
  - intros Hname. unfold UploadService.formatFileInfo. by rewrite Hname.
  - intros Hname.
    assert (∃ entity w',
              UploadService.formatFileInfo file fileInfo options w = (Ok entity, w')
              ∧ id entity = None ∧ url entity = None ∧ formats entity = None
              ∧ name entity
                = normalize (default (originalname file) (Js.or_str (fi_name fileInfo) None))
              ∧ ext entity
                = (if String.eqb (path_extname (originalname file)) EmptyString
                   then "." ++ default "false" (mime_extension (mimetype file))
                   else path_extname (originalname file))
              ∧ hash entity
                = path_basename (name entity) (ext entity) ++ "_"
                  ++ Js.remove_dashes (uuidv4_at (entropy w))
              ∧ mime entity = mimetype file
              ∧ size entity = multer_size file
              ∧ filepath entity = Some (multer_path file)
              ∧ provider entity = STORAGE_PROVIDER)
      as (entity & w' & Hrun & ? & ? & ? & ? & Hext & ? & ? & ? & ? & ?).
    { unfold UploadService.formatFileInfo. cbv zeta. rewrite Hname. cbn [negb].
      unfold bind at 1. cbn [UploadService.generateFileHash UploadService.uuidv4 bind
                               get_world modify ret].
      destruct (getFolderPath_total (Js.or_str (fi_folder fileInfo) (fo_folder options))
                  (draw w)) as (p & w1 & Hpath).
      unfold bind at 1. rewrite Hpath.
      destruct (Js.startsWith (mimetype file) "image/").
      - unfold try_catch, bind.
        destruct (ImageProcessingService.getMetadata _ w1) as [[md|e] w2];
          eexists _, _; (split; [reflexivity |]); by split_and!.
      - eexists _, _. split; [reflexivity |]. by split_and!. }
    exists entity, w'. split_and!; try done.
    + by eapply same_stores_formatFileInfo.
    + rewrite Hext. destruct (String.eqb _ _) eqn:E; [done |]. by apply String.eqb_neq in E.
    + intros Hnone Hmime. by rewrite Hext, Hnone, Hmime.
Qed.

End entity.

(** ** One file through the pipeline *)

Section one_file.
Context `{Config} `{NodeLib} `{Sharp} `{Faults} `{StorageProvider}.

Lemma upload_ok f w f' w' :
  StorageProviderService.upload f w = (Ok f', w') →
  f' = StorageProviderService.with_upload f
  ∧ db_files w' = db_files w ∧ db_folders w' = db_folders w
  ∧ objects w' = {[object_key f]} ∪ objects w ∧ tmpdirs w' = tmpdirs w.
Proof.
  unfold StorageProviderService.upload. destruct (Js.falsy_str _); [done |].
  unfold bind, try_catch, attempt, modify, log, ret, throw.
  destruct (fault w _); [by destruct upload_failed_message |].
  by intros [= <- <-].
Qed.

Lemma uploadOne_shape tmpDir fileInfo options file w s w' :
  UploadService.uploadOne tmpDir fileInfo options file w = (Ok s, w') →
  ∃ i entity,
    s = Prisma.with_id i
          (DatabaseService.file_data (StorageProviderService.with_upload entity))
    ∧ db_files w !! i = None
    ∧ db_files w' = <[i := s]> (db_files w)
    ∧ db_folders w' = db_folders w
    ∧ objects w' = {[object_key entity]} ∪ objects w
    ∧ tmpdirs w' = tmpdirs w.
Proof.
  unfold UploadService.uploadOne.
  intros (u & w1 & Hval & Hrun)%bind_ok_inv.
  apply bind_ok_inv in Hrun as (e1 & w2 & Hfmt & Hrun).
  apply bind_ok_inv in Hrun as (e2 & w3 & Hproc & Hrun).
  apply bind_ok_inv in Hrun as (e3 & w4 & Hup & Hrun).
  apply bind_ok_inv in Hrun as (s' & w5 & Hsave & Hrun).
  injection Hrun as <- <-.
  apply (quietly_validateFile same_stores) in Hval as (Hf1 & Hd1 & Ho1 & Ht1).
  apply same_stores_formatFileInfo in Hfmt as (Hf2 & Hd2 & Ho2 & Ht2).
  assert (same_stores w2 w3) as (Hf3 & Hd3 & Ho3 & Ht3).
  { destruct (Js.startsWith _ _).
    - apply bind_ok_inv in Hproc as (pf & w3' & Hp & [= _ <-]).
      by apply (quietly_processImage same_stores) in Hp.
    - injection Hproc as _ <-. apply quiet_refl. }
  apply upload_ok in Hup as (-> & Hf4 & Hd4 & Ho4 & Ht4).
  apply saveFile_ok in Hsave as (i & Hi & -> & ->).
  exists i, e2. simpl. split_and!; try congruence.
Qed.

(** X16. A file that goes through the pipeline leaves exactly one new row,
    stored under an id no row had, and stores one backend object, the one
    the saved row addresses, whatever derivatives were generated: the
    backend holds afterwards what it held and that object, which is one
    object more when nothing was stored at that address and no object
    more when something was, as when a hash repeats.  The folder table and
    the temporary directories are as before; the row carries a url and
    neither the upload path nor the working directory. *)
Theorem uploadOne_stores_row_and_object tmpDir fileInfo options file w s w' :
  addresses_by_triple →
  UploadService.uploadOne tmpDir fileInfo options file w = (Ok s, w') →
  ∃ i,
    id s = Some i
    ∧ db_files w !! i = None
    ∧ db_files w' = <[i := s]> (db_files w)
    ∧ base.size (db_files w') = S (base.size (db_files w))
    ∧ db_folders w' = db_folders w
    ∧ objects w' = {[object_key s]} ∪ objects w
    ∧ (object_key s ∉ objects w → base.size (objects w') = S (base.size (objects w)))
    ∧ (object_key s ∈ objects w → objects w' = objects w)
    ∧ tmpdirs w' = tmpdirs w
    ∧ is_Some (url s)
    ∧ filepath s = None
    ∧ tmpWorkingDirectory s = None.
Proof.
  intros Haddr (i & entity & -> & Hi & Hfiles & Hfolders & Hobjects & Htmp)%uploadOne_shape.
  assert (object_key entity
          = object_key (Prisma.with_id i
                          (DatabaseService.file_data
                             (StorageProviderService.with_upload entity)))) as <-
    by (by apply Haddr).
  exists i. split_and!; try done.
  - rewrite Hfiles. by apply map_size_insert_None.
  - intros Hfresh. rewrite Hobjects, size_union by (by apply disjoint_singleton_l).
    rewrite size_singleton. lia.
  - intros Hold. rewrite Hobjects. apply set_eq. intros x.
    rewrite elem_of_union, elem_of_singleton. split; [by intros [->|] | tauto].
Qed.

Lemma upload_throw f w e w' :
  StorageProviderService.upload f w = (Throw e, w') → same_stores w w'.
Proof.
  unfold StorageProviderService.upload. destruct (Js.falsy_str _); [by intros [= _ <-] |].
  unfold bind, try_catch, attempt, modify, log, ret, throw.
  destruct (fault w _); [|done]. by destruct upload_failed_message; intros [= _ <-].
Qed.

(** X17. A file whose pipeline fails leaves no row, and the folder table and
    the temporary directories as they were.  It leaves the backend as it
    was too, unless the failure is that of saving the row: the object was
    stored by then, and it stays. *)
Theorem uploadOne_failure_leaves_no_row tmpDir fileInfo options file w e w' :
  UploadService.uploadOne tmpDir fileInfo options file w = (Throw e, w') →
  db_files w' = db_files w
  ∧ db_folders w' = db_folders w
  ∧ tmpdirs w' = tmpdirs w
  ∧ (objects w' = objects w
     ∨ ∃ entity w4,
         DatabaseService.saveFile (StorageProviderService.with_upload entity) w4
         = (Throw e, w')
         ∧ fault w4 (FileCreate (DatabaseService.file_data
                                   (StorageProviderService.with_upload entity))) = Some e
         ∧ objects w' = {[object_key entity]} ∪ objects w).
Proof.
  unfold UploadService.uploadOne.
  intros [(u & w1 & Hval & Hrun)|(e0 & Hval & _)]%bind_inv;
    apply (quietly_validateFile same_stores) in Hval as (Hf1 & Hd1 & Ho1 & Ht1);
    [|by split_and!; auto].
  apply bind_inv in Hrun as [(e1 & w2 & Hfmt & Hrun)|(e0 & Hfmt & _)];
    apply same_stores_formatFileInfo in Hfmt as (Hf2 & Hd2 & Ho2 & Ht2);
    [|split_and!; [congruence | congruence | congruence | left; congruence]].
  apply bind_inv in Hrun as [(e2 & w3 & Hproc & Hrun)|(e0 & Hproc & _)].
  2: { assert (same_stores w2 w') as (Hf3 & Hd3 & Ho3 & Ht3).
       { destruct (Js.startsWith _ _); [|done].
         apply bind_inv in Hproc as [(pf & w3 & _ & [=])|(e3 & Hp & _)].
         by apply (quietly_processImage same_stores) in Hp. }
       split_and!; [congruence | congruence | congruence | left; congruence]. }
  assert (same_stores w2 w3) as (Hf3 & Hd3 & Ho3 & Ht3).
  { destruct (Js.startsWith _ _).
    - apply bind_ok_inv in Hproc as (pf & w3' & Hp & [= _ <-]).
      by apply (quietly_processImage same_stores) in Hp.
    - injection Hproc as _ <-. apply quiet_refl. }
  apply bind_inv in Hrun as [(e3 & w4 & Hup & Hrun)|(e0 & Hup & _)].
  2: { apply upload_throw in Hup as (Hf4 & Hd4 & Ho4 & Ht4).
       split_and!; [congruence | congruence | congruence | left; congruence]. }
  apply upload_ok in Hup as (-> & Hf4 & Hd4 & Ho4 & Ht4).
  apply bind_inv in Hrun as [(s & w5 & _ & [=])|(e0 & Hsave & [= <-])].
  pose proof Hsave as [-> Hfault]%saveFile_throw. simpl.
  split_and!; [congruence | congruence | congruence |].
  right. exists e2, w4.
  split_and!; [done | done |]. simpl. congruence.
Qed.

Lemma uploadLoop_shape tmpDir fileInfo options files acc w saved w' :
  UploadService.uploadLoop tmpDir fileInfo options files acc w = (Ok saved, w') →
  ∃ new,
    saved = (acc ++ new)%list
    ∧ List.length new = List.length files
    ∧ NoDup (id <$> new)
    ∧ Forall (λ s, ∃ i, id s = Some i ∧ db_files w !! i = None
                        ∧ db_files w' !! i = Some s) new
    ∧ db_files w ⊆ db_files w'
    ∧ base.size (db_files w') = (base.size (db_files w) + List.length files)%nat
    ∧ db_folders w' = db_folders w.
Proof.
  revert acc w. induction files as [|f files IH]; intros acc w; simpl.
  - intros [= <- <-]. exists []. rewrite app_nil_r.
    split_and!; first [done | by constructor | simpl; lia].
  - intros (s & w1 & Hone & Hrest)%bind_ok_inv.
    apply uploadOne_shape in Hone as (i & entity & Hs & Hi & Hfiles & Hfolders & _).
    apply IH in Hrest as (new & -> & Hlen & Hdup & Hnew & Hsub & Hsize & Hfolders').
    assert (db_files w ⊆ db_files w1) as Hsub1.
    { rewrite Hfiles. by apply insert_subseteq. }
    assert (db_files w' !! i = Some s) as Hstored.
    { eapply lookup_weaken; [|done]. rewrite Hfiles. apply lookup_insert_eq. }
    exists (s :: new). split_and!.
    + by rewrite <-app_assoc.
    + simpl. by rewrite Hlen.
    + rewrite fmap_cons. constructor; [|done].
      intros (s' & Hid & Hs')%list_elem_of_fmap.
      rewrite Forall_forall in Hnew. destruct (Hnew s' Hs') as (i' & Hid' & Hnone & _).
      assert (i' = i) as -> by (rewrite Hs in Hid; simpl in Hid; congruence).
      rewrite Hfiles, lookup_insert_eq in Hnone. done.
    + constructor.
      * exists i. split_and!; [by rewrite Hs | done | done].
      * eapply Forall_impl; [done |]. intros s' (i' & ? & Hnone & ?).
        exists i'. split_and!; [done | | done].
        by eapply lookup_weaken_None.
    + by etrans.
    + rewrite Hsize, Hfiles, map_size_insert_None by done. lia.
    + congruence.
Qed.

(** X18. A batch that succeeds gives one saved row per file, in order: the rows
    have pairwise different ids, none of which was in use, and are all in
    the file table, which has grown by exactly the number of files and has
    lost nothing; the folder table is as before. *)
Theorem uploadFiles_success files fileInfo options w saved w' :
  UploadService.uploadFiles files fileInfo options w = (Ok saved, w') →
  List.length saved = List.length files
  ∧ NoDup (id <$> saved)
  ∧ Forall (λ s, ∃ i, id s = Some i ∧ db_files w !! i = None
                      ∧ db_files w' !! i = Some s) saved
  ∧ db_files w ⊆ db_files w'
  ∧ base.size (db_files w') = (base.size (db_files w) + List.length files)%nat
  ∧ db_folders w' = db_folders w.
Proof.
  unfold UploadService.uploadFiles.
  intros (tmpDir & w1 & Htmp & Hrun)%bind_ok_inv.
  apply (preserves_createTmpWorkingDirectory same_tables) in Htmp as [Hf1 Hd1].
  revert Hrun. unfold try_finally.
  destruct (UploadService.uploadBatch tmpDir files fileInfo options w1) as [r w2] eqn:Hbatch.
  destruct (UploadService.cleanup tmpDir w2) as [[[]|e] w3] eqn:Hclean; [|done].
  intros [= -> <-].
  apply (preserves_cleanup same_tables) in Hclean as [Hf3 Hd3].
  apply try_catch_rethrow_ok in Hbatch; [|intros e w0; by do 2 eexists].
  apply uploadLoop_shape in Hbatch
    as (new & -> & Hlen & Hdup & Hnew & Hsub & Hsize & Hfolders).
  rewrite <-Hf3, <-Hd3, Hf1, Hd1. simpl. by split_and!.
Qed.

End one_file.

(** ** Deleting a file *)

Section deletion.
Context `{Config} `{NodeLib} `{Sharp} `{Faults} `{StorageProvider}.

Lemma getFile_cases i w :
  DatabaseService.getFile i w
  = match fault w (FileFindUnique i) with
    | None => (Ok (db_files w !! i), record_op (FileFindUnique i) w)
    | Some e => (Throw e,
                 add_log {| log_level := LvlError; log_service := DatabaseService.service;
                            log_message := "Failed to get file from database" |}
                   (record_op (FileFindUnique i) w))
    end.
Proof.
  unfold DatabaseService.getFile, Prisma.file_findUnique, try_catch, bind, attempt,
    get_world, ret, log, modify, throw.
  by destruct (fault w _).
Qed.

Lemma provider_delete_cases f w :
  StorageProviderService.delete f w
  = match fault w (ProviderDelete f) with
    | None => (Ok tt,
               add_log {| log_level := LvlInfo; log_service := provider_service;
                          log_message := deleted_message |}
                 (set_objects (λ s, s ∖ {[object_key f]}) (record_op (ProviderDelete f) w)))
    | Some e => (Throw e,
                 add_log {| log_level := LvlError; log_service := provider_service;
                            log_message := delete_failed_message |}
                   (record_op (ProviderDelete f) w))
    end.
Proof.
  unfold StorageProviderService.delete, try_catch, bind, attempt, log, modify, throw.
  by destruct (fault w _).
Qed.

Lemma database_deleteFile_cases i w :
  DatabaseService.deleteFile i w
  = match fault w (FileDelete i), db_files w !! i with
    | None, Some _ => (Ok true, set_db_files (delete i) (record_op (FileDelete i) w))
    | None, None =>
        (Throw Prisma.not_found,
         add_log {| log_level := LvlError; log_service := DatabaseService.service;
                    log_message := "Failed to delete file from database" |}
           (record_op (FileDelete i) w))
    | Some e, _ =>
        (Throw e,
         add_log {| log_level := LvlError; log_service := DatabaseService.service;
                    log_message := "Failed to delete file from database" |}
           (record_op (FileDelete i) w))
    end.
Proof.
  unfold DatabaseService.deleteFile, Prisma.file_delete, try_catch, bind, attempt,
    get_world, ret, log, modify, throw.
  destruct (fault w _); [done |]. simpl. by destruct (db_files w !! i).
Qed.

Lemma deleteFile_succeeds i f w :
  db_files w !! i = Some f →
  reliable (FileFindUnique i) → reliable (ProviderDelete f) → reliable (FileDelete i) →
  ∃ w',
    run_task (UploadService.deleteFile i) w = (Ok true, w')
    ∧ db_files w' = delete i (db_files w)
    ∧ db_folders w' = db_folders w
    ∧ objects w' = objects w ∖ {[object_key f]}
    ∧ tmpdirs w' = tmpdirs w
    ∧ trace w' = (trace w ++ [FileFindUnique i; ProviderDelete f; FileDelete i])%list.
Proof.
  intros Hrow Hfind Hbackend Hdelete.
  rewrite deleteFile_run, getFile_cases, Hfind, Hrow, provider_delete_cases, Hbackend,
    database_deleteFile_cases, Hdelete.
  simpl. rewrite Hrow. eexists. split; [done |]. simpl.
  split_and!; try done. by rewrite <-!app_assoc.
Qed.

(** X19. Deleting a stored file, with the metadata store and the backend
    answering, removes its row and the object the row addresses and nothing
    else: three external calls are made, the lookup, the backend delete and
    the metadata delete, in that order; a second deletion of the same id
    then throws, as no row is left. *)
Theorem deleteFile_removes_row_and_object i f w :
  db_files w !! i = Some f →
  reliable (FileFindUnique i) → reliable (ProviderDelete f) → reliable (FileDelete i) →
  ∃ w',
    run_task (UploadService.deleteFile i) w = (Ok true, w')
    ∧ db_files w' = delete i (db_files w)
    ∧ db_folders w' = db_folders w
    ∧ objects w' = objects w ∖ {[object_key f]}
    ∧ tmpdirs w' = tmpdirs w
    ∧ trace w' = (trace w ++ [FileFindUnique i; ProviderDelete f; FileDelete i])%list
    ∧ ∃ w'', run_task (UploadService.deleteFile i) w'
             = (Throw (Error "File not found"), w'')
             ∧ same_stores w' w''.
Proof.
  intros Hrow Hfind Hbackend Hdelete.
  destruct (deleteFile_succeeds i f w Hrow Hfind Hbackend Hdelete)
    as (w' & Hrun & Hfiles & Hfolders & Hobjects & Htmp & Htrace).
  exists w'. split_and!; try done.
  rewrite deleteFile_run, getFile_cases, Hfind, Hfiles, lookup_delete_eq.
  eexists. split; [done |]. by split_and!.
Qed.

(** X20. A deletion is not atomic.  When the backend refuses, the error is
    rethrown, the stores are as they were and the metadata store was never
    asked to delete.  When the backend has deleted the object and the
    metadata store then refuses, the error is rethrown as well, and the row
    stays although its object is gone. *)
Theorem deleteFile_not_atomic i f w :
  db_files w !! i = Some f →
  reliable (FileFindUnique i) →
  (∀ e, broken (ProviderDelete f) e →
     ∃ w',
       run_task (UploadService.deleteFile i) w = (Throw e, w')
       ∧ same_stores w w'
       ∧ trace w' = (trace w ++ [FileFindUnique i; ProviderDelete f])%list)
  ∧ (∀ e, reliable (ProviderDelete f) → broken (FileDelete i) e →
       ∃ w',
         run_task (UploadService.deleteFile i) w = (Throw e, w')
         ∧ db_files w' = db_files w
         ∧ db_files w' !! i = Some f
         ∧ objects w' = objects w ∖ {[object_key f]}
         ∧ object_key f ∉ objects w').
Proof.
  intros Hrow Hfind. split.
  - intros e Hbackend.
    rewrite deleteFile_run, getFile_cases, Hfind, Hrow, provider_delete_cases, Hbackend.
    eexists. split; [done |]. simpl. split; [done |]. by rewrite <-!app_assoc.
  - intros e Hbackend Hdelete.
    rewrite deleteFile_run, getFile_cases, Hfind, Hrow, provider_delete_cases, Hbackend,
      database_deleteFile_cases, Hdelete.
    eexists. split; [done |]. simpl. split_and!; try done.
    rewrite elem_of_difference, elem_of_singleton. tauto.
Qed.

(** X21. Uploading a file and then deleting the saved row by its id gives the
    file and folder tables back as they were, and leaves the backend
    without the object of that file. *)
Theorem upload_then_delete tmpDir fileInfo options file w s w1 i :
  addresses_by_triple →
  UploadService.uploadOne tmpDir fileInfo options file w = (Ok s, w1) →
  id s = Some i →
  reliable (FileFindUnique i) → reliable (ProviderDelete s) → reliable (FileDelete i) →
  ∃ w2,
    run_task (UploadService.deleteFile i) w1 = (Ok true, w2)
    ∧ db_files w2 = db_files w
    ∧ db_folders w2 = db_folders w
    ∧ objects w2 = objects w ∖ {[object_key s]}
    ∧ tmpdirs w2 = tmpdirs w.
Proof.
  intros Haddr Hup Hid Hfind Hbackend Hdelete.
  apply uploadOne_shape in Hup
    as (i' & entity & Hs & Hi & Hfiles & Hfolders & Hobjects & Htmp).
  assert (i' = i) as -> by (rewrite Hs in Hid; simpl in Hid; congruence).
  assert (object_key entity = object_key s) as Hkey by (rewrite Hs; by apply Haddr).
  destruct (deleteFile_succeeds i s w1) as (w2 & Hrun & Hf2 & Hd2 & Ho2 & Ht2 & _);
    try done.
  { rewrite Hfiles. apply lookup_insert_eq. }
  exists w2. split_and!; try congruence.
  - rewrite Hf2, Hfiles, delete_insert_eq. by apply delete_id.
  - rewrite Ho2, Hobjects, Hkey. apply set_eq. intros x.
    rewrite !elem_of_difference, elem_of_union, elem_of_singleton. tauto.
Qed.

End deletion.

(** ** The metadata store *)

Section database.
Context `{Faults}.

(** X22. A row that was saved is the entity without its upload path and working
    directory, under an id that was free; it can be read back under that id
    as long as the file table is not changed, and deleting it gives back
    the file table there was before it was saved. *)
Theorem saveFile_round_trip f w s w1 :
  DatabaseService.saveFile f w = (Ok s, w1) →
  ∃ i,
    id s = Some i
    ∧ db_files w !! i = None
    ∧ s = Prisma.with_id i (DatabaseService.file_data f)
    ∧ filepath s = None ∧ tmpWorkingDirectory s = None
    ∧ (∀ w2, db_files w2 = db_files w1 → fault w2 (FileFindUnique i) = None →
             (DatabaseService.getFile i w2).1 = Ok (Some s))
    ∧ (∀ w2, db_files w2 = db_files w1 → fault w2 (FileDelete i) = None →
             ∃ w3, DatabaseService.deleteFile i w2 = (Ok true, w3)
                   ∧ db_files w3 = db_files w).
Proof.
  intros (i & Hi & Hs & ->)%saveFile_ok. exists i.
  split_and!; try done; try (by rewrite Hs).
  - intros w2 Hsame Hfind.
    unfold DatabaseService.getFile, Prisma.file_findUnique, try_catch, bind, attempt,
      get_world, ret. rewrite Hfind. simpl. rewrite Hsame. simpl.
    by rewrite lookup_insert_eq.
  - intros w2 Hsame Hdelete.
    unfold DatabaseService.deleteFile, Prisma.file_delete, try_catch, bind, attempt,
      get_world, ret, modify. rewrite Hdelete. simpl. rewrite Hsame. simpl.
    rewrite lookup_insert_eq. simpl. eexists. split; [done |]. simpl.
    rewrite Hsame. simpl. rewrite delete_insert_eq. by apply delete_id.
Qed.

(** X23. A folder created under a parent id that no folder has is created all
    the same: it gets the path of a root-level folder and keeps the unknown
    id as its parent. *)
Theorem createFolder_unknown_parent nm A w :
  Js.falsy_str (Some A) = false →
  db_folders w !! A = None →
  reliable (FolderFindUnique A) →
  reliable (FolderCreate nm ("/" ++ nm) (Some A)) →
  ∃ fld w',
    DatabaseService.createFolder nm (Some A) w = (Ok fld, w')
    ∧ folder_name fld = nm
    ∧ folder_path fld = "/" ++ nm
    ∧ folder_parent fld = Some A
    ∧ db_folders w !! folder_id fld = None
    ∧ db_folders w' = <[folder_id fld := fld]> (db_folders w).
Proof.
  intros HA Hnone Hfind Hcreate. destruct A as [|c A]; [done |].
  unfold DatabaseService.createFolder. rewrite HA. simpl.
  unfold try_catch, DatabaseService.getFolder, Prisma.folder_findUnique,
    Prisma.folder_create, try_catch, bind, attempt, get_world, ret, modify.
  rewrite Hfind. simpl. rewrite Hnone. simpl. rewrite Hcreate. simpl.
  destruct (fresh_id_spec (db_folders w)) as [Hfresh _].
  eexists _, _. split; [done |]. by split_and!.
Qed.

End database.

(** ** The routes *)

Section routes.
Context `{Faults}.

Lemma deleteFolder_inv i w r w' :
  DatabaseService.deleteFolder i w = (r, w') →
  r = Ok true
  ∧ is_Some (db_folders w !! i) ∧ ¬ file_child w i ∧ ¬ subfolder_child w i
  ∧ db_folders w' = delete i (db_folders w) ∧ db_files w' = db_files w
  ∨ (∃ e, r = Throw e) ∧ db_folders w' = db_folders w ∧ db_files w' = db_files w.
Proof.
  unfold DatabaseService.deleteFolder, Prisma.file_count, Prisma.folder_count,
    Prisma.folder_delete, try_catch, bind, attempt, get_world, modify, ret, throw, log.
  destruct (fault w (FileCount i)); simpl.
  { intros [= <- <-]. right. split; [by eexists | done]. }
  destruct (0 <? base.size (filter (λ kv, folder kv.2 = Some i) (db_files w)))%nat
    eqn:Efiles; simpl.
  { intros [= <- <-]. right. split; [by eexists | done]. }
  destruct (fault _ (FolderCount i)); simpl.
  { intros [= <- <-]. right. split; [by eexists | done]. }
  destruct (0 <? base.size (filter (λ kv, folder_parent kv.2 = Some i) (db_folders w)))%nat
    eqn:Efolders; simpl.
  { intros [= <- <-]. right. split; [by eexists | done]. }
  destruct (fault _ (FolderDelete i)); simpl.
  { intros [= <- <-]. right. split; [by eexists | done]. }
  destruct (db_folders w !! i) as [row|] eqn:Erow; simpl.
  - intros [= <- <-]. left. split_and!; try done.
    + intros (k & f & Hk & Hf). by destruct (proj1 (count_zero _ _) Efiles k f Hk).
    + intros (k & g & Hk & Hg). by destruct (proj1 (count_zero _ _) Efolders k g Hk).
  - intros [= <- <-]. right. split; [by eexists | done].
Qed.

(** X24. The handler that deletes a folder answers 200 or 400, never 404: the
    service returns true or throws.  It answers 200 only for a folder that
    existed and had no file and no subfolder in it, whose row is then gone;
    when it answers 400 both tables are as they were. *)
Theorem delete_folder_never_404 i w :
  ∃ reply w',
    FolderRoutes.delete_folder i w = (Ok reply, w')
    ∧ reply_status reply ∈ [200; 400]
    ∧ (reply_status reply = 200 →
       reply_success reply = true
       ∧ is_Some (db_folders w !! i) ∧ ¬ file_child w i ∧ ¬ subfolder_child w i
       ∧ db_folders w' = delete i (db_folders w) ∧ db_files w' = db_files w)
    ∧ (reply_status reply = 400 →
       reply_success reply = false
       ∧ db_folders w' = db_folders w ∧ db_files w' = db_files w).
Proof.
  unfold FolderRoutes.delete_folder, try_catch.
  destruct (String.eqb i EmptyString).
  { eexists _, _. split; [done |]. simpl. split_and!; [in_list | done | done]. }
  unfold UploadService.deleteFolder, bind.
  destruct (DatabaseService.deleteFolder i w) as [r w1] eqn:Hrun.
  apply deleteFolder_inv in Hrun
    as [(-> & ? & ? & ? & ? & ?)|([e ->] & ? & ?)]; simpl;
    eexists _, _; (split; [done |]); simpl; split_and!; first [in_list | done].
Qed.

Lemma createFolder_inv nm parent w fld w' :
  DatabaseService.createFolder nm parent w = (Ok fld, w') →
  folder_name fld = nm
  ∧ db_folders w !! folder_id fld = None
  ∧ (∃ row, db_folders w' = <[folder_id fld := row]> (db_folders w)
            ∧ DatabaseService.folder_view row = fld)
  ∧ db_files w' = db_files w.
Proof.
  intros Hrun. apply try_catch_rethrow_ok in Hrun; [|intros e w0; by do 2 eexists].
  apply bind_ok_inv in Hrun as (pf & w1 & Hparent & Hrun).
  assert (same_tables w w1) as [Hf1 Hd1].
  { destruct (Js.falsy_str parent).
    - injection Hparent as _ <-. apply frame_refl.
    - by apply (preserves_getFolder same_tables) in Hparent. }
  revert Hrun. unfold Prisma.folder_create, bind, attempt, get_world, modify, ret.
  destruct (fault w1 _); [done |]. simpl. intros [= <- <-]. simpl.
  destruct (fresh_id_spec (db_folders w1)) as [Hfresh _].
  rewrite Hd1, Hf1. split_and!; try done. by eexists.
Qed.

(** X25. The handler that creates a folder answers 201 or 400.  A name the
    validator rejects is answered 400 before anything is done.  It answers
    201 only for a non-empty name of at most 100 UTF-16 code units, none of
    them an invalid character, that is no reserved name, and then the
    folder it sends has that name and a new id, under which a row was
    added. *)
Theorem create_folder_validated nm parent w :
  ∃ reply w',
    FolderRoutes.create_folder nm parent w = (Ok reply, w')
    ∧ reply_status reply ∈ [201; 400]
    ∧ (∀ e, ValidationService.validateFolderName nm w = (Throw e, w) →
            reply_status reply = 400 ∧ reply_success reply = false ∧ w' = w)
    ∧ (reply_status reply = 201 →
       nm ≠ EmptyString
       ∧ (Js.length nm ≤ 100)%nat
       ∧ ValidationService.has_invalid_char nm = false
       ∧ Js.array_includes ValidationService.reservedNames (Js.toLowerCase nm) = false
       ∧ ∃ fld,
           reply_data reply = Some fld
           ∧ folder_name fld = nm
           ∧ db_folders w !! folder_id fld = None
           ∧ is_Some (db_folders w' !! folder_id fld)
           ∧ db_files w' = db_files w).
Proof.
  unfold FolderRoutes.create_folder, try_catch, ValidationService.validateFolderName.
  destruct (String.eqb nm EmptyString) eqn:Eempty.
  { eexists _, _. split; [done |]. simpl. split_and!; [in_list | done | done]. }
  unfold bind at 1.
  destruct (100 <? Js.length nm)%nat eqn:Elen.
  { eexists _, _. split; [done |]. simpl. split_and!; [in_list | done | done]. }
  destruct (ValidationService.has_invalid_char nm) eqn:Echars.
  { eexists _, _. split; [done |]. simpl. split_and!; [in_list | done | done]. }
  destruct (Js.array_includes ValidationService.reservedNames (Js.toLowerCase nm)) eqn:Eres.
  { eexists _, _. split; [done |]. simpl. split_and!; [in_list | done | done]. }
  cbn [ret]. unfold UploadService.createFolder, bind.
  destruct (DatabaseService.createFolder nm parent w) as [[fld|e] w1] eqn:Hrun; simpl.
  - eexists _, _. split; [done |]. simpl. split_and!; [in_list | done |]. intros _.
    apply createFolder_inv in Hrun as (Hname & Hfresh & (row & Hrows & _) & Hfiles).
    apply String.eqb_neq in Eempty. apply Nat.ltb_ge in Elen.
    split_and!; try done. exists fld. split_and!; try done.
    rewrite Hrows, lookup_insert_eq. by eexists.
  - eexists _, _. split; [done |]. simpl. split_and!; [in_list | done | done].
Qed.

(** X26. The handler that reads a file changes no store and answers 200 with
    the row, 404 when the lookup finds no row, and 400 when the id is empty
    or the lookup fails, in which case the message of the failure is sent
    to the client. *)
Theorem get_file_answers i w :
  ∃ reply w',
    FileRoutes.get_file i w = (Ok reply, w')
    ∧ same_stores w w'
    ∧ (i = EmptyString → reply = refuse 400 "File ID is required" ∧ w' = w)
    ∧ (i ≠ EmptyString → fault w (FileFindUnique i) = None →
       reply = match db_files w !! i with
               | Some f => accept 200 (Some f) "File retrieved successfully"
               | None => refuse 404 "File not found"
               end)
    ∧ (i ≠ EmptyString → ∀ e, fault w (FileFindUnique i) = Some e →
       reply = refuse 400 (message e)).
Proof.
  unfold FileRoutes.get_file, try_catch.
  destruct (String.eqb i EmptyString) eqn:Eempty.
  { apply String.eqb_eq in Eempty. eexists _, _. split; [done |]. by split_and!. }
  apply String.eqb_neq in Eempty.
  unfold UploadService.getFile, DatabaseService.getFile, Prisma.file_findUnique,
    try_catch, bind, attempt, get_world, ret, log, modify, throw.
  destruct (fault w (FileFindUnique i)) as [e|]; simpl.
  - eexists _, _. split; [done |]. split_and!; try done. by intros _ e' [= <-].
  - destruct (db_files w !! i) as [f|]; eexists _, _; (split; [done |]); by split_and!.
Qed.

End routes.

(** * The further properties on concrete requests *)

(** A file in [/photos/2024] and a file at the root. *)
Lemma storage_addresses_witness :
  getPublicId Scenario.file_a = "photos/2024/report_01"
  ∧ getPublicId Scenario.file_b = "/report_02"
  ∧ getS3Key Scenario.file_b = "/report_02.txt".
Proof.
  destruct (storage_addresses Scenario.file_a) as (_ & Hpath_a & _).
  destruct (storage_addresses Scenario.file_b) as (Hkey_b & Hpath_b & _).
  split; [exact (Hpath_a "photos/2024" eq_refl) |].
  split; [exact (Hpath_b EmptyString eq_refl) |].
  rewrite Hkey_b, (Hpath_b EmptyString eq_refl). reflexivity.
Defined.

(** A valid sort, and a sort by a column that is not listed. *)
Lemma buildOrderByClause_whitelist_witness :
  DatabaseService.buildOrderByClause (Some "size:desc") = ("size", "desc")
  ∧ (DatabaseService.buildOrderByClause (Some "hash:asc")).1 ∈ DatabaseService.validFields.
Proof.
  destruct buildOrderByClause_whitelist as [Hall Hpass]. split.
  - apply (Hpass "size" "desc"); apply array_includes_elem_of; reflexivity.
  - apply Hall.
Defined.

(** The name filter is kept; the empty MIME filter and the zero bound are
    dropped. *)
Lemma buildWhereClause_truthy_witness :
  wh_name_contains (DatabaseService.buildWhereClause (Some Cases.report_filters))
  = Some "report"
  ∧ f_name <$> Some Cases.report_filters = Some (Some "report")
  ∧ wh_mime_contains (DatabaseService.buildWhereClause (Some Cases.report_filters)) = None
  ∧ wh_size_gte (DatabaseService.buildWhereClause (Some Cases.report_filters)) = None.
Proof.
  destruct (buildWhereClause_truthy (Some Cases.report_filters)) as (Hname & _).
  destruct (Hname "report" eq_refl) as [_ Hsource].
  split; [reflexivity |]. split; [exact Hsource |]. split; reflexivity.
Defined.

(** The third page of 25 skips 50 rows. *)
Lemma validated_pagination_bounds_witness :
  fm_skip (DatabaseService.getFiles_args Cases.third_page) = Num 50
  ∧ fm_take (DatabaseService.getFiles_args Cases.third_page) = Num 25.
Proof.
  destruct (validated_pagination_bounds Cases.third_page Scenario.empty_world
              Scenario.empty_world eq_refl)
    as (_ & _ & _ & Htake & _ & _ & [[Hinf _]|(p & l & Hp & Hl & _ & _ & _ & Hexact)]).
  - discriminate Hinf.
  - injection Hp as <-. rewrite (Htake (Num 25) eq_refl) in Hl. injection Hl as <-.
    split; [|exact (Htake (Num 25) eq_refl)].
    apply Hexact. vm_compute. reflexivity.
Defined.

Lemma isValidFilename_sound_witness :
  Js.includes "narrow.png" "/" = false ∧ Js.includes "narrow.png" backslash = false.
Proof.
  destruct (isValidFilename_sound "narrow.png" eq_refl)
    as (_ & _ & _ & Hslash & Hback & _).
  split; [exact Hslash | exact Hback].
Defined.

Lemma valid_filename_is_valid_folder_name_witness :
  ValidationService.validateFolderName "photos" Scenario.empty_world
  = (Ok tt, Scenario.empty_world).
Proof.
  apply (valid_filename_is_valid_folder_name "photos" Scenario.empty_world eq_refl).
  simpl. lia.
Defined.


(** An image 300 pixels wide under a limit of 400, and an image that
    cannot be read. *)
Lemma validateImage_limits_witness :
  @ValidationService.validateImage Scenario.sharp Scenario.narrow_png (Some 400) None
    Scenario.empty_world = (Ok tt, Scenario.empty_world)
  ∧ @ValidationService.validateImage Scenario.sharp Cases.lost_png (Some 400) None
      Scenario.empty_world
    = (Ok tt, add_log dimensions_warning Scenario.empty_world).
Proof.
  split.
  - destruct (@validateImage_limits Scenario.sharp Scenario.narrow_png (Some 400) None
                Scenario.empty_world) as [Hread _].
    edestruct Hread as (Hsame & Hwidth & _).
    + reflexivity.
    + vm_compute. reflexivity.
    + pose proof (Hwidth 400 300 eq_refl ltac:(discriminate) eq_refl) as Hle.
      reflexivity.
  - destruct (@validateImage_limits Scenario.sharp Cases.lost_png (Some 400) None
                Scenario.empty_world) as [_ Hunread].
    exact (Hunread (Error "Input file is missing") eq_refl eq_refl).
Defined.

Lemma getMetadata_hides_library_error_witness :
  ∃ w',
    @ImageProcessingService.getMetadata Scenario.sharp
      (Scenario.entity_of Cases.lost_png "lost_1" ".png") Scenario.empty_world
    = (Throw (Error "Failed to extract image metadata"), w')
    ∧ only_logged Scenario.empty_world w'.
Proof.
  eexists. split; [vm_compute; reflexivity |].
  edestruct (@getMetadata_hides_library_error Scenario.sharp
               (Scenario.entity_of Cases.lost_png "lost_1" ".png") Scenario.empty_world)
    as [Hlog _].
  - vm_compute. reflexivity.
  - exact Hlog.
Defined.

(** The thumbnail of a png. *)
Lemma processImage_formats_witness :
  ∃ p w' fmts d,
    @ImageProcessingService.processImage Scenario.config Scenario.sharp
      (Scenario.entity_of Scenario.narrow_png "narrow_1" ".png") None Scenario.empty_world
    = (Ok p, w')
    ∧ p_formats p = Some fmts
    ∧ fmts !! "thumbnail" = Some d
    ∧ fd_hash d = "thumbnail_narrow_1".
Proof.
  edestruct (@processImage_formats Scenario.config Scenario.sharp
               (Scenario.entity_of Scenario.narrow_png "narrow_1" ".png") None
               Scenario.empty_world) as [_ Hfmts].
  - vm_compute. reflexivity.
  - eexists _, _, _, _. split; [vm_compute; reflexivity |]. split; [reflexivity |].
    split; [vm_compute; reflexivity |].
    refine (proj2 (proj2 (proj2 (Hfmts _ "thumbnail" _ eq_refl _)))).
    vm_compute. reflexivity.
Defined.


(** An id no folder has. *)
Lemma getFolderPath_never_throws_witness :
  ∃ w', @UploadService.getFolderPath Scenario.no_faults (Some "zzz") Scenario.library
        = (Ok "/", w').
Proof.
  destruct (@getFolderPath_never_throws Scenario.no_faults (Some "zzz") Scenario.library)
    as (p & w' & Hrun & _ & _ & _ & Hnone & _).
  rewrite (Hnone "zzz" eq_refl eq_refl) in Hrun. exists w'. exact Hrun.
Defined.

(** A text file, and a name with a slash in it. *)
Lemma formatFileInfo_total_witness :
  (∃ entity w',
     @UploadService.formatFileInfo Scenario.config Scenario.node Scenario.sharp
       Scenario.no_faults Scenario.notes_txt Scenario.no_info
       {| fo_folder := None; fo_tmpWorkingDirectory := None |} Scenario.empty_world
     = (Ok entity, w')
     ∧ name entity = "notes.txt"
     ∧ ext entity ≠ EmptyString)
  ∧ @UploadService.formatFileInfo Scenario.config Scenario.node Scenario.sharp
      Scenario.no_faults
      {| originalname := "../notes.txt"; mimetype := "text/plain"; multer_size := 120;
         multer_path := "./uploads/notes" |}
      Scenario.no_info {| fo_folder := None; fo_tmpWorkingDirectory := None |}
      Scenario.empty_world
    = (Throw (Error "File name contains invalid characters"), Scenario.empty_world).
Proof.
  split.
  - destruct (@formatFileInfo_total Scenario.config Scenario.node Scenario.sharp
                Scenario.no_faults Scenario.notes_txt Scenario.no_info
                {| fo_folder := None; fo_tmpWorkingDirectory := None |}
                Scenario.empty_world) as [_ Hvalid].
    destruct (Hvalid eq_refl) as (entity & w' & Hrun & _ & _ & _ & _ & Hname & Hext & _).
    exists entity, w'. split; [exact Hrun |]. split; [exact Hname | exact Hext].
  - destruct (@formatFileInfo_total Scenario.config Scenario.node Scenario.sharp
                Scenario.no_faults
                {| originalname := "../notes.txt"; mimetype := "text/plain";
                   multer_size := 120; multer_path := "./uploads/notes" |}
                Scenario.no_info {| fo_folder := None; fo_tmpWorkingDirectory := None |}
                Scenario.empty_world) as [Hinvalid _].
    exact (Hinvalid eq_refl).
Defined.

(** A png, for which a thumbnail and four responsive entries are
    generated: one row and one object. *)
Lemma uploadOne_stores_row_and_object_witness :
  ∃ s w',
    @UploadService.uploadOne Scenario.config Scenario.node Scenario.sharp Scenario.no_faults
      Scenario.local_provider "/tmp/media-upload-Xq30" Scenario.no_info
      UploadService.no_upload_options Scenario.narrow_png Scenario.empty_world
    = (Ok s, w')
    ∧ base.size (db_files w') = 1%nat
    ∧ base.size (objects w') = 1%nat
    ∧ filepath s = None.
Proof.
  destruct (@UploadService.uploadOne Scenario.config Scenario.node Scenario.sharp
              Scenario.no_faults Scenario.local_provider "/tmp/media-upload-Xq30"
              Scenario.no_info UploadService.no_upload_options Scenario.narrow_png
              Scenario.empty_world) as [r w'] eqn:Hrun.
  assert (∃ s, r = Ok s) as [s ->].
  { apply (f_equal fst) in Hrun. simpl in Hrun. rewrite <-Hrun. eexists.
    vm_compute. reflexivity. }
  destruct (@uploadOne_stores_row_and_object Scenario.config Scenario.node Scenario.sharp
              Scenario.no_faults Scenario.local_provider "/tmp/media-upload-Xq30"
              Scenario.no_info UploadService.no_upload_options Scenario.narrow_png
              Scenario.empty_world s w' (local_addresses_by_triple _) Hrun)
    as (i & _ & _ & _ & Hrows & _ & _ & Hnew & _ & _ & _ & Hpath & _).
  exists s, w'. split; [reflexivity |]. split; [exact Hrows |].
  split; [|exact Hpath]. apply Hnew. apply not_elem_of_empty.
Defined.

(** The metadata store refuses the row of a text file: no row, and the
    object is there. *)
Lemma uploadOne_failure_leaves_no_row_witness :
  ∃ w',
    @UploadService.uploadOne Scenario.config Scenario.node Scenario.sharp
      Cases.metadata_create_fails Scenario.local_provider "/tmp/media-upload-Xq30"
      Scenario.no_info UploadService.no_upload_options Scenario.notes_txt
      Scenario.empty_world
    = (Throw (Error "Can't reach database server"), w')
    ∧ db_files w' = ∅
    ∧ base.size (objects w') = 1%nat.
Proof.
  destruct (@UploadService.uploadOne Scenario.config Scenario.node Scenario.sharp
              Cases.metadata_create_fails Scenario.local_provider "/tmp/media-upload-Xq30"
              Scenario.no_info UploadService.no_upload_options Scenario.notes_txt
              Scenario.empty_world) as [r w'] eqn:Hrun.
  assert (r = Throw (Error "Can't reach database server")) as ->.
  { apply (f_equal fst) in Hrun. simpl in Hrun. rewrite <-Hrun. vm_compute. reflexivity. }
  assert (base.size (objects w') = 1%nat) as Hone.
  { apply (f_equal snd) in Hrun. simpl in Hrun. rewrite <-Hrun. vm_compute. reflexivity. }
  destruct (@uploadOne_failure_leaves_no_row Scenario.config Scenario.node Scenario.sharp
              Cases.metadata_create_fails Scenario.local_provider
              "/tmp/media-upload-Xq30" Scenario.no_info UploadService.no_upload_options
              Scenario.notes_txt Scenario.empty_world _ w' Hrun) as (Hfiles & _).
  exists w'. split; [reflexivity |]. split; [exact Hfiles | exact Hone].
Defined.

(** The same file twice: two rows. *)
Lemma uploadFiles_success_witness :
  ∃ saved w',
    @UploadService.uploadFiles Scenario.config Scenario.node Scenario.sharp
      Scenario.no_faults Scenario.local_provider [Scenario.notes_txt; Scenario.notes_txt]
      Scenario.no_info UploadService.no_upload_options Scenario.empty_world
    = (Ok saved, w')
    ∧ List.length saved = 2%nat
    ∧ NoDup (id <$> saved)
    ∧ base.size (db_files w') = 2%nat.
Proof.
  destruct (@UploadService.uploadFiles Scenario.config Scenario.node Scenario.sharp
              Scenario.no_faults Scenario.local_provider
              [Scenario.notes_txt; Scenario.notes_txt] Scenario.no_info
              UploadService.no_upload_options Scenario.empty_world) as [r w'] eqn:Hrun.
  assert (∃ saved, r = Ok saved) as [saved ->].
  { apply (f_equal fst) in Hrun. simpl in Hrun. rewrite <-Hrun. eexists.
    vm_compute. reflexivity. }
  destruct (@uploadFiles_success Scenario.config Scenario.node Scenario.sharp
              Scenario.no_faults Scenario.local_provider
              [Scenario.notes_txt; Scenario.notes_txt] Scenario.no_info
              UploadService.no_upload_options Scenario.empty_world saved w' Hrun)
    as (Hlen & Hdup & _ & _ & Hsize & _).
  exists saved, w'. split; [reflexivity |]. split; [exact Hlen |].
  split; [exact Hdup | exact Hsize].
Defined.

(** The file in [/photos/2024] is deleted; deleting it again fails. *)
Lemma deleteFile_removes_row_and_object_witness :
  ∃ w' w'',
    run_task (@UploadService.deleteFile Scenario.no_faults Scenario.local_provider "a")
      Scenario.library = (Ok true, w')
    ∧ db_files w' !! "a" = None
    ∧ run_task (@UploadService.deleteFile Scenario.no_faults Scenario.local_provider "a") w'
      = (Throw (Error "File not found"), w'').
Proof.
  destruct (@deleteFile_removes_row_and_object Scenario.no_faults Scenario.local_provider
              "a" Scenario.file_a Scenario.library)
    as (w' & Hrun & Hfiles & _ & _ & _ & _ & w'' & Hagain & _).
  - reflexivity.
  - intros w. reflexivity.
  - intros w. reflexivity.
  - intros w. reflexivity.
  - exists w', w''. split; [exact Hrun |]. split; [|exact Hagain].
    rewrite Hfiles. apply lookup_delete_eq.
Defined.

(** The backend refuses; and the metadata store refuses after the backend
    has deleted. *)
Lemma deleteFile_not_atomic_witness :
  (∃ w',
     run_task (@UploadService.deleteFile (Scenario.delete_fails_for "report_02")
                 Scenario.local_provider "b") Scenario.library
     = (Throw (Error "EACCES: permission denied"), w')
     ∧ same_stores Scenario.library w')
  ∧ (∃ w',
       run_task (@UploadService.deleteFile Cases.metadata_delete_fails
                   Scenario.local_provider "b") Scenario.library
       = (Throw (Error "Can't reach database server"), w')
       ∧ db_files w' !! "b" = Some Scenario.file_b
       ∧ @object_key Scenario.local_provider Scenario.file_b ∉ objects w').
Proof.
  split.
  - destruct (@deleteFile_not_atomic (Scenario.delete_fails_for "report_02")
                Scenario.local_provider "b" Scenario.file_b Scenario.library)
      as [Hbackend _].
    + reflexivity.
    + intros w. reflexivity.
    + destruct (Hbackend (Error "EACCES: permission denied")) as (w' & Hrun & Hsame & _).
      * intros w. reflexivity.
      * exists w'. split; [exact Hrun | exact Hsame].
  - destruct (@deleteFile_not_atomic Cases.metadata_delete_fails
                Scenario.local_provider "b" Scenario.file_b Scenario.library)
      as [_ Hmetadata].
    + reflexivity.
    + intros w. reflexivity.
    + destruct (Hmetadata (Error "Can't reach database server"))
        as (w' & Hrun & _ & Hrow & _ & Hgone).
      * intros w. reflexivity.
      * intros w. reflexivity.
      * exists w'. split; [exact Hrun |]. split; [exact Hrow | exact Hgone].
Defined.

(** Upload a text file into the empty store, delete it: the store is
    empty again. *)
Lemma upload_then_delete_witness :
  ∃ s w1 i w2,
    @UploadService.uploadOne Scenario.config Scenario.node Scenario.sharp Scenario.no_faults
      Scenario.local_provider "/tmp/media-upload-Xq30" Scenario.no_info
      UploadService.no_upload_options Scenario.notes_txt Scenario.empty_world
    = (Ok s, w1)
    ∧ id s = Some i
    ∧ run_task (@UploadService.deleteFile Scenario.no_faults Scenario.local_provider i) w1
      = (Ok true, w2)
    ∧ db_files w2 = ∅.
Proof.
  destruct (@UploadService.uploadOne Scenario.config Scenario.node Scenario.sharp
              Scenario.no_faults Scenario.local_provider "/tmp/media-upload-Xq30"
              Scenario.no_info UploadService.no_upload_options Scenario.notes_txt
              Scenario.empty_world) as [r w1] eqn:Hrun.
  assert (∃ s, r = Ok s) as [s ->].
  { apply (f_equal fst) in Hrun. simpl in Hrun. rewrite <-Hrun. eexists.
    vm_compute. reflexivity. }
  destruct (uploadOne_shape _ _ _ _ _ _ _ Hrun) as (i & entity & Hs & _).
  assert (id s = Some i) as Hid by (rewrite Hs; reflexivity).
  destruct (@upload_then_delete Scenario.config Scenario.node Scenario.sharp
              Scenario.no_faults Scenario.local_provider "/tmp/media-upload-Xq30"
              Scenario.no_info UploadService.no_upload_options Scenario.notes_txt
              Scenario.empty_world s w1 i (local_addresses_by_triple _) Hrun Hid)
    as (w2 & Hdelete & Hfiles & _).
  - intros w. reflexivity.
  - intros w. reflexivity.
  - intros w. reflexivity.
  - exists s, w1, i, w2. split; [reflexivity |]. split; [exact Hid |].
    split; [exact Hdelete | exact Hfiles].
Defined.

Lemma saveFile_round_trip_witness :
  ∃ s w1 i w3,
    @DatabaseService.saveFile Scenario.no_faults
      (Scenario.entity_of Scenario.notes_txt "notes_1" ".txt") Scenario.library
    = (Ok s, w1)
    ∧ id s = Some i
    ∧ filepath s = None
    ∧ @DatabaseService.deleteFile Scenario.no_faults i w1 = (Ok true, w3)
    ∧ db_files w3 = db_files Scenario.library.
Proof.
  destruct (@DatabaseService.saveFile Scenario.no_faults
              (Scenario.entity_of Scenario.notes_txt "notes_1" ".txt") Scenario.library)
    as [r w1] eqn:Hrun.
  assert (∃ s, r = Ok s) as [s ->].
  { apply (f_equal fst) in Hrun. simpl in Hrun. rewrite <-Hrun. eexists.
    vm_compute. reflexivity. }
  destruct (@saveFile_round_trip Scenario.no_faults _ _ s w1 Hrun)
    as (i & Hid & _ & _ & Hpath & _ & _ & Hdelete).
  destruct (Hdelete w1 eq_refl eq_refl) as (w3 & Hdel & Hfiles).
  exists s, w1, i, w3. split; [reflexivity |]. split; [exact Hid |].
  split; [exact Hpath |]. split; [exact Hdel | exact Hfiles].
Defined.

Lemma createFolder_unknown_parent_witness :
  ∃ fld w',
    @DatabaseService.createFolder Scenario.no_faults "orphans" (Some "zzz") Scenario.library
    = (Ok fld, w')
    ∧ folder_path fld = "/orphans"
    ∧ folder_parent fld = Some "zzz".
Proof.
  destruct (@createFolder_unknown_parent Scenario.no_faults "orphans" "zzz" Scenario.library)
    as (fld & w' & Hrun & _ & Hpath & Hparent & _).
  - reflexivity.
  - reflexivity.
  - intros w. reflexivity.
  - intros w. reflexivity.
  - exists fld, w'. split; [exact Hrun |]. split; [exact Hpath | exact Hparent].
Defined.

(** The folder holding a file: 400, and nothing is deleted. *)
Lemma delete_folder_never_404_witness :
  ∃ w',
    @FolderRoutes.delete_folder Scenario.no_faults "f2" Scenario.library
    = (Ok (refuse 400 "Cannot delete folder that contains files"), w')
    ∧ db_folders w' = db_folders Scenario.library.
Proof.
  destruct (@delete_folder_never_404 Scenario.no_faults "f2" Scenario.library)
    as (reply & w' & Hrun & _ & _ & Hrefused).
  assert ((@FolderRoutes.delete_folder Scenario.no_faults "f2" Scenario.library).1
          = Ok (refuse 400 "Cannot delete folder that contains files")) as Hreply.
  { vm_compute. reflexivity. }
  rewrite Hrun in Hreply. simpl in Hreply. injection Hreply as ->.
  exists w'. split; [exact Hrun |]. exact (proj1 (proj2 (Hrefused eq_refl))).
Defined.

(** A reserved name is refused before anything is done. *)
Lemma create_folder_validated_witness :
  ∃ reply,
    @FolderRoutes.create_folder Scenario.no_faults "CON" None Scenario.library
    = (Ok reply, Scenario.library)
    ∧ reply_status reply = 400.
Proof.
  destruct (@create_folder_validated Scenario.no_faults "CON" None Scenario.library)
    as (reply & w' & Hrun & _ & Hinvalid & _).
  destruct (Hinvalid (Error "Folder name cannot be a reserved system name") eq_refl)
    as (Hstatus & _ & ->).
  exists reply. split; [exact Hrun | exact Hstatus].
Defined.

Lemma get_file_answers_witness :
  (∃ w', @FileRoutes.get_file Scenario.no_faults "a" Scenario.library
         = (Ok (accept 200 (Some Scenario.file_a) "File retrieved successfully"), w'))
  ∧ (∃ w', @FileRoutes.get_file Scenario.no_faults "zzz" Scenario.library
           = (Ok (refuse 404 "File not found"), w')).
Proof.
  split.
  - destruct (@get_file_answers Scenario.no_faults "a" Scenario.library)
      as (reply & w' & Hrun & _ & _ & Hfound & _).
    rewrite (Hfound ltac:(discriminate) eq_refl) in Hrun. exists w'. exact Hrun.
  - destruct (@get_file_answers Scenario.no_faults "zzz" Scenario.library)
      as (reply & w' & Hrun & _ & _ & Hfound & _).
    rewrite (Hfound ltac:(discriminate) eq_refl) in Hrun. exists w'. exact Hrun.
Defined.
